(** * wechat-dedup: a shallow embedding of the duplicate finder

    The repository ships two variants of one script:
    - [src/dedup.py]                        (module [Root] below), and
    - [src/wechat-dedup/scripts/dedup.py]   (module [Scripts] below).

    Both follow the same pipeline: scan, bucket by size, bucket by MD5,
    keep the earliest created file of every bucket, move the others to a
    quarantine directory after an interactive confirmation and write a
    Markdown report.

    Python values are embedded as follows.
    - [int] is [Z]; [str] and [pathlib.Path] are [string] (a path is kept in
      its normalised textual form, so that [str(p)] and [Path(s)] are the
      identity); [bytes] is [list byte].
    - a [dict] is an association list in insertion order, which is the order
      in which Python iterates it;
    - the file system is a finite map from paths to entries; functions that
      only read it take it as an argument, functions that change it live in
      a state monad over [World];
    - exceptions are the [Raise] results of an error monad. *)

From stdpp Require Import base option list sorting gmap strings pretty fin_maps fin_sets.
From Stdlib Require Import ZArith Strings.Byte Ascii Permutation.

Local Open Scope string_scope.
Local Open Scope list_scope.
Local Open Scope Z_scope.

(** ** Python built-ins *)

Module Py.

(** The exceptions that the scripts can meet.  [Diverges] is not a Python
    exception: it is what a bounded loop of the model returns when its
    bound is used up.  The theorems show that no run produces it. *)
Inductive exn := OSError | IndexError | OverflowError | EOFError | Diverges.

Inductive result (A : Type) :=
| Ok (a : A)
| Raise (e : exn).
Arguments Ok {A} a.
Arguments Raise {A} e.

#[global] Instance exn_eq_dec : EqDecision exn.
Proof. solve_decision. Defined.

#[global] Instance result_eq_dec `{EqDecision A} : EqDecision (result A).
Proof. solve_decision. Defined.

#[global] Instance result_ret : MRet result := @Ok.
#[global] Instance result_bind : MBind result := λ A B f m,
  match m with
  | Ok a => f a
  | Raise e => Raise e
  end.

(** [try: body except (IOError, OSError): handler].  [IOError] is an alias
    of [OSError]; any other exception passes through. *)
Definition try_except_OSError {A} (body handler : result A) : result A :=
  match body with
  | Raise OSError => handler
  | r => r
  end.

(** [for x in l: s = body(s, x)] with exceptions. *)
Fixpoint for_each {A S} (l : list A) (body : S → A → result S) (s : S) : result S :=
  match l with
  | [] => Ok s
  | x :: l' => s' ← body s x; for_each l' body s'
  end.

(** [collections.defaultdict(list)], in insertion order of the keys. *)
Definition defaultdict (K V : Type) := list (K * list V).

(** [d[k].append(v)] *)
Fixpoint dd_append `{EqDecision K} {V} (k : K) (v : V) (d : defaultdict K V)
    : defaultdict K V :=
  match d with
  | [] => [(k, [v])]
  | (k', vs) :: d' =>
      if decide (k = k') then (k', vs ++ [v]) :: d'
      else (k', vs) :: dd_append k v d'
  end.

(** [d.get(k)] *)
Fixpoint dd_get `{EqDecision K} {V} (k : K) (d : defaultdict K V) : option (list V) :=
  match d with
  | [] => None
  | (k', vs) :: d' => if decide (k = k') then Some vs else dd_get k d'
  end.

(** A Python [float] as the scripts meet it: a finite time stamp or
    [float('inf')].  [sorted] only compares keys, and the comparison of
    finite doubles is exact, so a finite stamp is represented by an
    integer (its value in the clock's resolution). *)
Inductive pyfloat := Finite (t : Z) | Inf.

#[global] Instance pyfloat_eq_dec : EqDecision pyfloat.
Proof. solve_decision. Defined.

(** [a < b] on floats *)
Definition float_lt (a b : pyfloat) : bool :=
  match a, b with
  | Finite x, Finite y => bool_decide (x < y)
  | Finite _, Inf => true
  | Inf, _ => false
  end.

(** [sorted(l, key=...)] once the keys are computed.  Python's sort is
    stable and uses [<] only; so does this insertion sort, and a stable
    sort has a single possible output ([sorted_keys_unique] below). *)
Fixpoint insert_sorted {A} (x : pyfloat * A) (l : list (pyfloat * A)) : list (pyfloat * A) :=
  match l with
  | [] => [x]
  | y :: l' => if float_lt y.1 x.1 then y :: insert_sorted x l' else x :: y :: l'
  end.

Definition sort_keyed {A} (l : list (pyfloat * A)) : list (pyfloat * A) :=
  foldr insert_sorted [] l.

(** [sorted(l, key=key)]: the key of every element is computed first, in
    order; an exception of [key] aborts the call. *)
Definition sorted {A} (l : list A) (key : A → result pyfloat) : result (list A) :=
  keyed ← for_each l (λ acc x, k ← key x; Ok (acc ++ [(k, x)])) [];
  Ok ((sort_keyed keyed).*2).

(** Truth value of an optional string: [None] and [''] are falsy. *)
Definition truthy (s : option string) : bool :=
  match s with
  | Some "" | None => false
  | Some _ => true
  end.

(** *** str *)

(** A [str] is modelled by its UTF-8 bytes.  [lower] and [strip] act on
    the ASCII range, which is where they matter for the scripts: the
    extension sets and the answer ['y'] are ASCII. *)
Definition lower_ascii (a : ascii) : ascii :=
  let n := nat_of_ascii a in
  if decide (65 ≤ n ≤ 90)%nat then ascii_of_nat (n + 32) else a.

(** [s.lower()] *)
Fixpoint lower (s : string) : string :=
  match s with
  | EmptyString => EmptyString
  | String a s' => String (lower_ascii a) (lower s')
  end.

(** [c.isspace()] for an ASCII character *)
Definition is_space (a : ascii) : bool :=
  let n := nat_of_ascii a in
  bool_decide (n = 32 ∨ 9 ≤ n ≤ 13 ∨ 28 ≤ n ≤ 31)%nat.

Fixpoint lstrip (s : string) : string :=
  match s with
  | EmptyString => EmptyString
  | String a s' => if is_space a then lstrip s' else s
  end.

Fixpoint rstrip (s : string) : string :=
  match s with
  | EmptyString => EmptyString
  | String a s' =>
      match rstrip s' with
      | EmptyString => if is_space a then EmptyString else String a EmptyString
      | r => String a r
      end
  end.

(** [s.strip()] *)
Definition strip (s : string) : string := rstrip (lstrip s).

(** [s.zfill(width)] for an unsigned numeral *)
Definition zfill (width : nat) (s : string) : string :=
  String.concat "" (replicate (width - String.length s) "0") +:+ s.

(** The line terminator of the report. *)
Definition nl : string := String (ascii_of_nat 10) EmptyString.

(** Every element followed by a newline, as in a triple-quoted literal. *)
Definition lines (l : list string) : string :=
  String.concat "" ((λ x, x +:+ nl) <$> l).

(** *** float formatting

    The scripts format quotients [n / 2**k] of an [int] by a power of two.
    True division of two [int]s is correctly rounded, and a division by a
    power of two is exact on doubles, so the quotient is the double nearest
    to [n], scaled; the format specs [.1f] and [.2f] then round the exact
    binary value to the nearest decimal, ties to even.  Both steps are
    computed exactly on integers.  (Sizes are far below [2**1024], where
    the conversion to [float] would overflow.) *)

(** [num / den] rounded to the nearest integer, ties to even; [0 < den] *)
Definition round_half_even (num den : Z) : Z :=
  let q := num `div` den in
  let r := num `mod` den in
  if decide (2 * r < den) then q
  else if decide (den < 2 * r) then q + 1
  else if Z.even q then q else q + 1.

(** the double nearest to the integer [n], [0 ≤ n]: 53 significant bits *)
Definition to_double (n : Z) : Z :=
  let e := Z.log2 n + 1 - 53 in
  if decide (e ≤ 0) then n else round_half_even n (2 ^ e) * 2 ^ e.

(** [f"{n / 2**k:.{d}f}"] *)
Definition format_quotient (n k : Z) (d : nat) : string :=
  let m := to_double (Z.abs n) in
  let t := round_half_even (m * 10 ^ Z.of_nat d) (2 ^ k) in
  (if decide (n < 0) then "-" else "")
  +:+ pretty (t `div` 10 ^ Z.of_nat d) +:+ "."
  +:+ zfill d (pretty (t `mod` 10 ^ Z.of_nat d)).

(** *** datetime *)

Record datetime := {
  year : Z; month : Z; day : Z;
  hour : Z; minute : Z; second : Z; microsecond : Z
}.

(** [t.strftime('%Y-%m-%d %H:%M:%S')] *)
Definition strftime (t : datetime) : string :=
  zfill 4 (pretty (year t)) +:+ "-" +:+ zfill 2 (pretty (month t)) +:+ "-"
  +:+ zfill 2 (pretty (day t)) +:+ " " +:+ zfill 2 (pretty (hour t)) +:+ ":"
  +:+ zfill 2 (pretty (minute t)) +:+ ":" +:+ zfill 2 (pretty (second t)).

(** [datetime.fromtimestamp(x)]: only its failure on [inf] is modelled
    (the value is printed and dropped). *)
Definition fromtimestamp (x : pyfloat) : result unit :=
  match x with
  | Finite _ => Ok ()
  | Inf => Raise OverflowError
  end.

End Py.
Export Py.

(** ** pathlib, on normalised POSIX paths *)

Module Pathlib.

Definition Path := string.

(** the text after / before the last occurrence of [c], if [c] occurs *)
Fixpoint after_last (c : ascii) (s : string) : option string :=
  match s with
  | EmptyString => None
  | String a s' =>
      match after_last c s' with
      | Some r => Some r
      | None => if decide (a = c) then Some s' else None
      end
  end.

Fixpoint before_last (c : ascii) (s : string) : option string :=
  match s with
  | EmptyString => None
  | String a s' =>
      match before_last c s' with
      | Some r => Some (String a r)
      | None => if decide (a = c) then Some EmptyString else None
      end
  end.

(** [p.name]: the last component *)
Definition name (p : Path) : string := default p (after_last "/" p).

(** [p.suffix]: with [i = name.rfind('.')], [name[i:]] when
    [0 < i < len(name) - 1], otherwise [''] *)
Definition suffix (p : Path) : string :=
  match before_last "." (name p), after_last "." (name p) with
  | Some (String _ _), Some (String a r) => String "." (String a r)
  | _, _ => ""
  end.

(** [p.stem]: the name without its suffix *)
Definition stem (p : Path) : string :=
  match before_last "." (name p), after_last "." (name p) with
  | Some (String b s), Some (String _ _) => String b s
  | _, _ => name p
  end.

(** [d / s] for a relative single component [s] *)
Definition joinpath (d : Path) (s : string) : Path := d +:+ "/" +:+ s.

(** [p.parents] without the root, outermost first: the proper prefixes of
    [p] that end just before a separator *)
Fixpoint parents_from (pre s : string) : list Path :=
  match s with
  | EmptyString => []
  | String a s' =>
      (if decide (a = "/"%char ∧ pre ≠ "") then [pre] else [])
      ++ parents_from (pre +:+ String a "") s'
  end.

Definition parents (p : Path) : list Path := parents_from "" p.

End Pathlib.
Export Pathlib.

(** ** The file system *)

Module Os.

(** [os.stat_result]: the three fields the scripts read.  [st_birthtime]
    exists on macOS only; where the platform has none it is [None]. *)
Record stat_result := {
  st_size : Z;
  st_birthtime : option Z;
  st_mtime : Z
}.

(** How reading a file behaves: it works, [open] fails (permissions), or
    the [k+1]-th [read] call fails (I/O error). *)
Inductive access := Readable | OpenDenied | ReadErrorAfter (k : nat).

(** [st_size] is what [stat] reports and [f_data] what [read] returns; the
    two are separate system calls and the model does not tie them. *)
Record file := {
  f_stat : stat_result;
  f_data : list byte;
  f_access : access
}.

Inductive entry := File (f : file) | Dir (s : stat_result).

Abbreviation FS := (gmap string entry).

Definition entry_stat (e : entry) : stat_result :=
  match e with
  | File f => f_stat f
  | Dir s => s
  end.

(** [p.stat()] *)
Definition stat (fs : FS) (p : Path) : result stat_result :=
  match fs !! p with
  | Some e => Ok (entry_stat e)
  | None => Raise OSError
  end.

(** [p.exists()] *)
Definition exists_ (fs : FS) (p : Path) : bool := bool_decide (is_Some (fs !! p)).

(** [p.is_file()] *)
Definition is_file (fs : FS) (p : Path) : bool :=
  match fs !! p with
  | Some (File _) => true
  | _ => false
  end.

(** An open binary file: the bytes not yet read and the number of [read]
    calls that still succeed ([None]: all of them). *)
Record handle := {
  h_rest : list byte;
  h_budget : option nat
}.

(** [open(p, 'rb')] *)
Definition open_rb (fs : FS) (p : Path) : result handle :=
  match fs !! p with
  | Some (File f) =>
      match f_access f with
      | Readable => Ok {| h_rest := f_data f; h_budget := None |}
      | ReadErrorAfter k => Ok {| h_rest := f_data f; h_budget := Some k |}
      | OpenDenied => Raise OSError
      end
  | _ => Raise OSError
  end.

(** [f.read(n)]: the chunk and the handle afterwards; a negative [n]
    reads up to the end of the file *)
Definition read (f : handle) (n : Z) : result (list byte * handle) :=
  match h_budget f with
  | Some O => Raise OSError
  | b =>
      let k := if decide (n < 0) then length (h_rest f) else Z.to_nat n in
      Ok (take k (h_rest f),
          {| h_rest := drop k (h_rest f); h_budget := Nat.pred <$> b |})
  end.

(** *** Directory listings

    The order in which a directory tree is enumerated is the operating
    system's; the model takes the order of [map_to_list]. *)

Fixpoint strip_prefix (pre s : string) : option string :=
  match pre, s with
  | EmptyString, _ => Some s
  | String a pre', String b s' =>
      if decide (a = b) then strip_prefix pre' s' else None
  | String _ _, EmptyString => None
  end.

Fixpoint split_first (c : ascii) (s : string) : option (string * string) :=
  match s with
  | EmptyString => None
  | String a s' =>
      if decide (a = c) then Some (EmptyString, s')
      else '(x, r) ← split_first c s'; Some (String a x, r)
  end.

(** [p] lies strictly below the directory [base] *)
Definition is_under (base p : Path) : bool :=
  match strip_prefix (base +:+ "/") p with
  | Some (String _ _) => true
  | _ => false
  end.

(** [base.rglob('*')] *)
Definition rglob (fs : FS) (base : Path) : list Path :=
  match fs !! base with
  | Some (Dir _) => filter (λ p, is_under base p = true) (map_to_list fs).*1
  | _ => []
  end.

(** [p] is [base/X/rest] for one non-empty component [X] *)
Definition matches_star (base rest p : Path) : bool :=
  match strip_prefix (base +:+ "/") p ≫= split_first "/" with
  | Some (String _ _, r) => bool_decide (r = rest)
  | _ => false
  end.

(** [base.glob(pattern)] for the patterns of the scripts, ['*/...'] *)
Definition glob (fs : FS) (base : Path) (pattern : string) : list Path :=
  match strip_prefix "*/" pattern with
  | Some rest => filter (λ p, matches_star base rest p = true) (map_to_list fs).*1
  | None => if exists_ fs (joinpath base pattern) then [joinpath base pattern] else []
  end.

End Os.
Export Os.

(** ** hashlib *)

(** MD5 is taken as an interface: a state, the empty state, absorbing a
    chunk, and the hexadecimal digest. *)
Class Hashlib := {
  md5_state : Type;
  md5_new : md5_state;
  md5_update : md5_state → list byte → md5_state;
  md5_hexdigest : md5_state → string
}.

(** ** Effects *)

Module Sys.

(** Lines that the scripts print to tell how a run ended.  Progress
    output is not modelled. *)
Inductive message :=
| MsgNoFiles
| MsgNoDuplicates
| MsgCancelled
| MsgMoved (name : string)
| MsgElided (rest : Z)
| MsgMismatch (expected actual : Z)
| MsgDone.

(** What a run does to its environment, in order. *)
Inductive event :=
| EvPrint (m : message)
| EvInput
| EvMkdir (p : Path)
| EvMove (src dst : Path)
| EvWriteText (p : Path) (text : string).

(** The world of a run: the file system, the clock, what the user types
    at the prompt ([None]: standard input is closed), what other
    processes do to the file system while the prompt waits, and the log of
    the run's own operations. *)
Record World := {
  w_fs : FS;
  w_now : datetime;
  w_answer : option string;
  w_meanwhile : FS → FS;
  w_log : list event
}.

Definition M (A : Type) : Type := World → result A * World.

#[global] Instance M_ret : MRet M := λ A a w, (Ok a, w).
#[global] Instance M_bind : MBind M := λ A B f m w,
  match m w with
  | (Ok a, w') => f a w'
  | (Raise e, w') => (Raise e, w')
  end.

Definition set_fs (fs : FS) (w : World) : World :=
  {| w_fs := fs; w_now := w_now w; w_answer := w_answer w;
     w_meanwhile := w_meanwhile w; w_log := w_log w |}.

Definition log (e : event) (w : World) : World :=
  {| w_fs := w_fs w; w_now := w_now w; w_answer := w_answer w;
     w_meanwhile := w_meanwhile w; w_log := w_log w ++ [e] |}.

(** a computation that only reads the file system *)
Definition reading {A} (f : FS → result A) : M A := λ w, (f (w_fs w), w).

Definition print (m : message) : M unit := λ w, (Ok (), log (EvPrint m) w).

(** [input(prompt)] *)
Definition input : M string := λ w,
  let w' := log EvInput (set_fs (w_meanwhile w (w_fs w)) w) in
  match w_answer w with
  | Some s => (Ok s, w')
  | None => (Raise EOFError, w')
  end.

(** [datetime.now()] *)
Definition now : M datetime := λ w, (Ok (w_now w), w).

(** for loops with effects *)
Fixpoint for_eachM {A S} (l : list A) (body : S → A → M S) (s : S) : M S :=
  match l with
  | [] => mret s
  | x :: l' => s' ← body s x; for_eachM l' body s'
  end.

Definition new_dir : entry := Dir {| st_size := 0; st_birthtime := None; st_mtime := 0 |}.

(** [p.mkdir(parents=True, exist_ok=True)]: fails when [p] or one of its
    ancestors is a regular file, creates the missing directories
    otherwise. *)
Definition mkdir (p : Path) : M unit := λ w,
  let chain := parents p ++ [p] in
  if bool_decide (Exists (λ d, is_file (w_fs w) d = true) chain)
  then (Raise OSError, log (EvMkdir p) w)
  else (Ok (),
        log (EvMkdir p)
          (set_fs (foldr (λ d fs, if exists_ fs d then fs else <[d := new_dir]> fs)
                     (w_fs w) chain) w)).

(** [shutil.move(src, dst)].  A missing source raises; a destination that
    is a directory receives the source under its own name unless that
    name is taken; otherwise the source is renamed to [dst], replacing a
    file that is there.  (A source that is a directory moves as a single
    entry; the scripts move regular files.) *)
Definition shutil_move (src dst : Path) : M unit := λ w,
  let fs := w_fs w in
  match fs !! src with
  | None => (Raise OSError, log (EvMove src dst) w)
  | Some e =>
      let real_dst :=
        match fs !! dst with
        | Some (Dir _) => joinpath dst (name src)
        | _ => dst
        end in
      if bool_decide (real_dst ≠ dst) && exists_ fs real_dst
      then (Raise OSError, log (EvMove src dst) w)
      else (Ok (), log (EvMove src dst) (set_fs (<[real_dst := e]> (delete src fs)) w))
  end.

(** [p.write_text(text, encoding='utf-8')]: creates or overwrites the
    file; fails on a directory.  The time stamps of the new file are not
    modelled. *)
Definition write_text (p : Path) (text : string) : M unit := λ w,
  match w_fs w !! p with
  | Some (Dir _) => (Raise OSError, log (EvWriteText p text) w)
  | _ =>
      let data := String.list_byte_of_string text in
      let f := {| f_stat := {| st_size := Z.of_nat (length data);
                               st_birthtime := None; st_mtime := 0 |};
                  f_data := data; f_access := Readable |} in
      (Ok (), log (EvWriteText p text) (set_fs (<[p := File f]> (w_fs w)) w))
  end.

End Sys.
Export Sys.

(** ** The run result shared by both scripts *)

Module RunResult.

(** [{'original': ..., 'quarantine': ..., 'size': ...}] *)
Record removed_info := {
  original : string;
  quarantine : option string;
  size : Z
}.

(** [{'type': ..., 'keeper': ..., 'removed': [...]}]; src/dedup.py builds
    its groups without the ['type'] key. *)
Record group_info := {
  type : option string;
  keeper : string;
  removed : list removed_info
}.

(** [{'groups': [...], 'removed_count': ..., 'saved_bytes': ...}] *)
Record run_result := {
  groups : list group_info;
  removed_count : Z;
  saved_bytes : Z
}.

End RunResult.
Export RunResult.

(** [str(x)] of an optional string: [None] prints as ["None"] *)
Definition str_opt (x : option string) : string := default "None" x.

(** ** src/dedup.py *)

Module Root.
Section script.
Context `{Hashlib}.
(** [Path.home()] *)
Context (home : Path).

Definition WECHAT_PATHS : list Path := [
  joinpath home "Library/Containers/com.tencent.xinWeChat/Data/Documents/xwechat_files";
  joinpath home "Library/Containers/com.tencent.xinWeChat/Data/Library/Application Support"
].
Definition QUARANTINE_DIR : Path := joinpath home "微信重复文件_待删除".
Definition REPORT_FILE : Path := joinpath QUARANTINE_DIR "去重报告.md".

(** [while chunk := f.read(chunk_size): hasher.update(chunk)] *)
Fixpoint read_chunks (fuel : nat) (f : handle) (chunk_size : Z) (hasher : md5_state)
    : result md5_state :=
  match fuel with
  | O => Raise Diverges
  | S fuel' =>
      '(chunk, f') ← read f chunk_size;
      match chunk with
      | [] => Ok hasher
      | _ => read_chunks fuel' f' chunk_size (md5_update hasher chunk)
      end
  end.

Definition get_file_hash (fs : FS) (filepath : Path) (chunk_size : Z)
    : result (option string) :=
  let hasher := md5_new in
  try_except_OSError
    (f ← open_rb fs filepath;
     hasher ← read_chunks (S (length (h_rest f))) f chunk_size hasher;
     Ok (Some (md5_hexdigest hasher)))
    (Ok None).

Definition get_creation_time (fs : FS) (filepath : Path) : result pyfloat :=
  try_except_OSError
    (stat ← stat fs filepath;
     Ok (Finite (default (st_mtime stat) (st_birthtime stat))))
    (Ok Inf).

Definition scan_documents (fs : FS) (paths : list Path) : result (list Path) :=
  for_each paths (λ documents base_path,
    if negb (exists_ fs base_path) then Ok documents
    else
      for_each (rglob fs base_path) (λ documents filepath,
        if is_file fs filepath
           && bool_decide (lower (suffix filepath) ∈ [".pdf"; ".doc"; ".docx"])
        then Ok (documents ++ [filepath])
        else Ok documents) documents) [].

Definition find_duplicates (fs : FS) (documents : list Path)
    : result (defaultdict string Path) :=
  size_groups ← for_each documents (λ size_groups doc,
    try_except_OSError
      (st ← stat fs doc;
       let size := st_size st in
       Ok (dd_append size doc size_groups))
      (Ok size_groups)) [];
  hash_groups ← for_each size_groups (λ hash_groups '(size, files),
    if decide (length files < 2)%nat then Ok hash_groups
    else
      for_each files (λ hash_groups filepath,
        file_hash ← get_file_hash fs filepath 8192;
        if truthy file_hash
        then Ok (dd_append (default "" file_hash) filepath hash_groups)
        else Ok hash_groups) hash_groups) [];
  let duplicates := filter (λ hf, 2 ≤ length hf.2)%nat hash_groups in
  Ok duplicates.

Definition select_keeper (fs : FS) (files : list Path) : result (Path * list Path) :=
  sorted_files ← sorted files (get_creation_time fs);
  match sorted_files with
  | [] => Raise IndexError
  | keeper :: rest => Ok (keeper, rest)
  end.

(** [while target_path.exists(): ...]; the loop leaves through the first
    candidate that does not exist.  The bound [fuel] is the number of
    entries of the file system plus two, which the loop cannot use up
    ([free_target_total]). *)
Fixpoint free_target (fuel : nat) (fs : FS) (filepath quarantine_dir target_path : Path)
    (counter : Z) : result Path :=
  match fuel with
  | O => Raise Diverges
  | S fuel' =>
      if exists_ fs target_path then
        let stem := stem filepath in
        let suffix := suffix filepath in
        free_target fuel' fs filepath quarantine_dir
          (joinpath quarantine_dir (stem +:+ "_" +:+ pretty counter +:+ suffix))
          (counter + 1)
      else Ok target_path
  end.

Definition move_to_quarantine (filepath quarantine_dir : Path) : M Path :=
  let relative_path := name filepath in
  let target_path := joinpath quarantine_dir relative_path in
  let counter := 1 in
  target_path ← reading (λ fs,
    free_target (S (S (base.size fs))) fs filepath quarantine_dir target_path counter);
  (* target_path.parent is quarantine_dir: the target is that directory
     joined with a single component *)
  _ ← mkdir quarantine_dir;
  _ ← shutil_move filepath target_path;
  mret target_path.

Definition generate_report (results : run_result) (quarantine_dir : Path) : M string :=
  let total_groups := Z.of_nat (length (groups results)) in
  let total_removed := removed_count results in
  let total_saved := saved_bytes results in
  t ← now;
  let report := lines [
    "# 微信文档去重报告";
    "";
    "**执行时间**：" +:+ strftime t;
    "";
    "## 统计摘要";
    "";
    "| 指标 | 数值 |";
    "|------|------|";
    "| 重复组数 | " +:+ pretty total_groups +:+ " |";
    "| 移除文件数 | " +:+ pretty total_removed +:+ " |";
    "| 节省空间 | " +:+ format_quotient total_saved 20 2 +:+ " MB |";
    "| 隔离文件夹 | `" +:+ quarantine_dir +:+ "` |";
    "";
    "## 重复文件详情";
    ""
  ] in
  let report := foldl (λ report '(i, group),
    let report := report +:+ "### 组 " +:+ pretty i +:+ nl +:+ nl in
    let report := report +:+ "**保留**：`" +:+ keeper group +:+ "`" +:+ nl +:+ nl in
    let report := report +:+ "**移除**：" +:+ nl in
    let report := foldl (λ report removed,
      report +:+ "- `" +:+ original removed +:+ "` → `"
             +:+ str_opt (quarantine removed) +:+ "`" +:+ nl) report (removed group) in
    report +:+ nl) report (zip (Z.of_nat <$> seq 1 (length (groups results))) (groups results)) in
  let report := report +:+ lines [
    "";
    "---";
    "";
    "> 这些文件已移动到隔离文件夹，30天后请自行确认删除。";
    "> 如需恢复，请从隔离文件夹中找回。"
  ] in
  mret report.

(** Step 3 of [main]: the plan. *)
Definition plan (fs : FS) (duplicates : defaultdict string Path) : result run_result :=
  let results := {| groups := []; removed_count := 0; saved_bytes := 0 |} in
  for_each duplicates (λ results '(hash_val, files),
    '(keeper, to_remove) ← select_keeper fs files;
    let group_info := {| type := None; keeper := keeper; removed := [] |} in
    created ← get_creation_time fs keeper;
    _ ← fromtimestamp created;
    '(group_info, results) ← for_each to_remove (λ '(group_info, results) f,
      st ← stat fs f;
      let size := st_size st in
      let results :=
        {| groups := groups results; removed_count := removed_count results;
           saved_bytes := saved_bytes results + size |} in
      Ok ({| type := type group_info; keeper := RunResult.keeper group_info;
             removed := removed group_info
               ++ [{| original := f; quarantine := None; size := size |}] |},
          results)) (group_info, results);
    Ok {| groups := groups results ++ [group_info];
          removed_count := removed_count results + Z.of_nat (length to_remove);
          saved_bytes := saved_bytes results |}) results.

(** The body of the move loop of [main], for one planned removal.  The
    script updates the ['quarantine'] field of the record inside [results] in
    place; here the records are rebuilt in the same order ([done] holds the
    records of the group handled so far). *)
Definition move_removed (done : list removed_info) (removed : removed_info)
    : M (list removed_info) :=
  let original_path := original removed in
  b ← reading (λ fs, Ok (exists_ fs original_path));
  if (b : bool) then
    new_path ← move_to_quarantine original_path QUARANTINE_DIR;
    _ ← print (MsgMoved (name original_path));
    mret (done ++ [{| original := original removed; quarantine := Some new_path;
                      size := size removed |}])
  else mret (done ++ [removed]).

(** The move loop of [main]. *)
Definition execute (results : run_result) : M run_result :=
  groups' ← for_eachM (groups results) (λ done group,
    removed' ← for_eachM (removed group) move_removed [];
    mret (done ++ [{| type := type group; keeper := keeper group; removed := removed' |}])) [];
  mret {| groups := groups'; removed_count := removed_count results;
          saved_bytes := saved_bytes results |}.

Definition main : M unit :=
  documents ← reading (λ fs, scan_documents fs WECHAT_PATHS);
  if decide (documents = []) then print MsgNoFiles
  else
    duplicates ← reading (λ fs, find_duplicates fs documents);
    if decide (duplicates = []) then print MsgNoDuplicates
    else
      results ← reading (λ fs, plan fs duplicates);
      confirm ← input;
      let confirm := lower (strip confirm) in
      if decide (confirm ≠ "y") then print MsgCancelled
      else
        _ ← mkdir QUARANTINE_DIR;
        results ← execute results;
        report ← generate_report results QUARANTINE_DIR;
        _ ← write_text REPORT_FILE report;
        print MsgDone.

End script.
End Root.

(** ** src/wechat-dedup/scripts/dedup.py *)

Module Scripts.

(** an entry of [SCAN_TARGETS] *)
Record target := {
  pattern : string;
  extensions : list string;
  description : string
}.

Section script.
Context `{Hashlib}.
(** [Path.home()] *)
Context (home : Path).

Definition WECHAT_BASE : Path :=
  joinpath home "Library/Containers/com.tencent.xinWeChat/Data/Documents/xwechat_files".
Definition SCAN_TARGETS : list (string * target) := [
  ("file", {| pattern := "*/msg/file";
              extensions := [".pdf"; ".doc"; ".docx"];
              description := "文档" |});
  ("attach", {| pattern := "*/msg/attach";
                extensions := [".dat"; ".jpg"; ".jpeg"; ".png"; ".gif"];
                description := "图片附件" |});
  ("video", {| pattern := "*/msg/video";
               extensions := [".mp4"; ".mov"; ".avi"];
               description := "视频" |})
].
Definition QUARANTINE_DIR : Path := joinpath home "微信重复文件_待删除".
Definition REPORT_FILE : Path := joinpath QUARANTINE_DIR "去重报告.md".
Definition MIN_FILE_SIZE : Z := 10 * 1024.

Fixpoint read_chunks (fuel : nat) (f : handle) (chunk_size : Z) (hasher : md5_state)
    : result md5_state :=
  match fuel with
  | O => Raise Diverges
  | S fuel' =>
      '(chunk, f') ← read f chunk_size;
      match chunk with
      | [] => Ok hasher
      | _ => read_chunks fuel' f' chunk_size (md5_update hasher chunk)
      end
  end.

Definition get_file_hash (fs : FS) (filepath : Path) (chunk_size : Z)
    : result (option string) :=
  let hasher := md5_new in
  try_except_OSError
    (f ← open_rb fs filepath;
     hasher ← read_chunks (S (length (h_rest f))) f chunk_size hasher;
     Ok (Some (md5_hexdigest hasher)))
    (Ok None).

Definition get_creation_time (fs : FS) (filepath : Path) : result pyfloat :=
  try_except_OSError
    (s ← stat fs filepath;
     Ok (Finite (default (st_mtime s) (st_birthtime s))))
    (Ok Inf).

(** The result maps a target name to [(files, description)]; the names
    come from the keys of [targets], so every assignment adds a key. *)
Definition scan_documents (fs : FS) (base_path : Path) (targets : list (string * target))
    (min_size : Z) : result (list (string * (list Path * string))) :=
  let results := [] in
  if negb (exists_ fs base_path) then Ok results
  else
    for_each targets (λ results '(target_name, config),
      files ← for_each (glob fs base_path (pattern config)) (λ files target_dir,
        if negb (exists_ fs target_dir) then Ok files
        else
          for_each (rglob fs target_dir) (λ files filepath,
            if negb (is_file fs filepath) then Ok files
            else if negb (bool_decide (lower (suffix filepath) ∈ extensions config))
            then Ok files
            else
              small ← try_except_OSError
                (st ← stat fs filepath; Ok (bool_decide (st_size st < min_size)))
                (Ok true);
              if (small : bool) then Ok files else Ok (files ++ [filepath])) files) [];
      match files with
      | [] => Ok results
      | _ => Ok (results ++ [(target_name, (files, description config))])
      end) results.

Definition find_duplicates (fs : FS) (documents : list Path)
    : result (defaultdict string Path) :=
  size_groups ← for_each documents (λ size_groups doc,
    try_except_OSError
      (st ← stat fs doc;
       Ok (dd_append (st_size st) doc size_groups))
      (Ok size_groups)) [];
  hash_groups ← for_each size_groups (λ hash_groups '(size, files),
    if decide (length files < 2)%nat then Ok hash_groups
    else
      for_each files (λ hash_groups filepath,
        file_hash ← get_file_hash fs filepath 8192;
        if truthy file_hash
        then Ok (dd_append (default "" file_hash) filepath hash_groups)
        else Ok hash_groups) hash_groups) [];
  Ok (filter (λ hf, 2 ≤ length hf.2)%nat hash_groups).

Definition select_keeper (fs : FS) (files : list Path) : result (Path * list Path) :=
  sorted_files ← sorted files (get_creation_time fs);
  match sorted_files with
  | [] => Raise IndexError
  | keeper :: rest => Ok (keeper, rest)
  end.

Fixpoint free_target (fuel : nat) (fs : FS) (filepath quarantine_dir target_path : Path)
    (counter : Z) : result Path :=
  match fuel with
  | O => Raise Diverges
  | S fuel' =>
      if exists_ fs target_path then
        free_target fuel' fs filepath quarantine_dir
          (joinpath quarantine_dir
             (stem filepath +:+ "_" +:+ pretty counter +:+ suffix filepath))
          (counter + 1)
      else Ok target_path
  end.

Definition move_to_quarantine (filepath quarantine_dir : Path) : M Path :=
  let target_path := joinpath quarantine_dir (name filepath) in
  let counter := 1 in
  target_path ← reading (λ fs,
    free_target (S (S (base.size fs))) fs filepath quarantine_dir target_path counter);
  (* target_path.parent is quarantine_dir *)
  _ ← mkdir quarantine_dir;
  _ ← shutil_move filepath target_path;
  mret target_path.

Definition format_size (bytes_size : Z) : string :=
  if decide (1024 ^ 3 ≤ bytes_size) then format_quotient bytes_size 30 2 +:+ " GB"
  else if decide (1024 ^ 2 ≤ bytes_size) then format_quotient bytes_size 20 2 +:+ " MB"
  else if decide (1024 ≤ bytes_size) then format_quotient bytes_size 10 1 +:+ " KB"
  else pretty bytes_size +:+ " B".

Definition generate_report (results : run_result) (quarantine_dir : Path) : M string :=
  t ← now;
  let report := lines [
    "# 微信文件去重报告";
    "";
    "**执行时间**：" +:+ strftime t;
    "";
    "## 统计摘要";
    "";
    "| 指标 | 数值 |";
    "|------|------|";
    "| 重复组数 | " +:+ pretty (Z.of_nat (length (groups results))) +:+ " |";
    "| 移除文件数 | " +:+ pretty (removed_count results) +:+ " |";
    "| 节省空间 | " +:+ format_size (saved_bytes results) +:+ " |";
    "| 隔离文件夹 | `" +:+ quarantine_dir +:+ "` |";
    "";
    "## 重复文件详情";
    ""
  ] in
  let by_type := foldl (λ by_type group,
    let file_type := default "未知" (type group) in
    dd_append file_type group by_type) [] (groups results) in
  let report := foldl (λ report '(file_type, groups),
    let report := report +:+ "### " +:+ file_type +:+ nl +:+ nl in
    foldl (λ report '(i, group),
      let keeper_name := name (keeper group) in
      let report := report +:+ "**组 " +:+ pretty i +:+ "** - 保留：`"
                           +:+ keeper_name +:+ "`" +:+ nl in
      let report := foldl (λ report removed,
        let removed_name := name (original removed) in
        report +:+ "- `" +:+ removed_name +:+ "` ("
               +:+ format_size (size removed) +:+ ")" +:+ nl) report (removed group) in
      report +:+ nl) report (zip (Z.of_nat <$> seq 1 (length groups)) groups)) report by_type in
  let report := report +:+ "---" +:+ nl +:+ nl
                       +:+ "> 文件已移动到隔离文件夹，确认后可删除。" +:+ nl in
  mret report.

(** Step 2 of [main]: the duplicates of every target. *)
Definition analyse (fs : FS) (scan_results : list (string * (list Path * string)))
    : result (list (string * (defaultdict string Path * string))) :=
  for_each scan_results (λ all_duplicates '(target_name, (files, description)),
    duplicates ← find_duplicates fs files;
    match duplicates with
    | [] => Ok all_duplicates
    | _ => Ok (all_duplicates ++ [(target_name, (duplicates, description))])
    end) [].

(** Step 3 of [main]: the plan. *)
Definition plan (fs : FS) (all_duplicates : list (string * (defaultdict string Path * string)))
    : result run_result :=
  let results := {| groups := []; removed_count := 0; saved_bytes := 0 |} in
  for_each all_duplicates (λ results '(target_name, (duplicates, description)),
    for_each duplicates (λ results '(hash_val, files),
      '(keeper, to_remove) ← select_keeper fs files;
      let group_info := {| type := Some description; keeper := keeper; removed := [] |} in
      '(group_info, results) ← for_each to_remove (λ '(group_info, results) f,
        try_except_OSError
          (st ← stat fs f;
           let size := st_size st in
           let results :=
             {| groups := groups results; removed_count := removed_count results;
                saved_bytes := saved_bytes results + size |} in
           Ok ({| type := type group_info; keeper := RunResult.keeper group_info;
                  removed := removed group_info
                    ++ [{| original := f; quarantine := None; size := size |}] |},
               results))
          (Ok (group_info, results))) (group_info, results);
      Ok {| groups := groups results ++ [group_info];
            removed_count := removed_count results + Z.of_nat (length to_remove);
            saved_bytes := saved_bytes results |}) results) results.

(** The body of the move loop of [main], for one planned removal; the
    records inside [results] are updated in place by the script and rebuilt
    in the same order here. *)
Definition move_removed (results : run_result) (state : list removed_info * Z)
    (removed : removed_info) : M (list removed_info * Z) :=
  let '(done, moved_count) := state in
  let original_path := original removed in
  b ← reading (λ fs, Ok (exists_ fs original_path));
  if (b : bool) then
    new_path ← move_to_quarantine original_path QUARANTINE_DIR;
    let moved_count := moved_count + 1 in
    _ ← (if decide (moved_count ≤ 20) then print (MsgMoved (name original_path))
         else if decide (moved_count = 21)
         then print (MsgElided (removed_count results - 20))
         else mret ());
    mret (done ++ [{| original := original removed; quarantine := Some new_path;
                      size := size removed |}], moved_count)
  else mret (done ++ [removed], moved_count).

(** The move loop of [main]. *)
Definition execute (results : run_result) : M (run_result * Z) :=
  let moved_count := 0 in
  '(groups', moved_count) ← for_eachM (groups results) (λ '(done, moved_count) group,
    '(removed', moved_count) ←
      for_eachM (removed group) (move_removed results) ([], moved_count);
    mret (done ++ [{| type := type group; keeper := keeper group; removed := removed' |}],
          moved_count)) ([], moved_count);
  mret ({| groups := groups'; removed_count := removed_count results;
           saved_bytes := saved_bytes results |}, moved_count).

Definition main : M unit :=
  scan_results ← reading (λ fs, scan_documents fs WECHAT_BASE SCAN_TARGETS MIN_FILE_SIZE);
  if decide (scan_results = []) then print MsgNoFiles
  else
    all_duplicates ← reading (λ fs, analyse fs scan_results);
    if decide (all_duplicates = []) then print MsgNoDuplicates
    else
      results ← reading (λ fs, plan fs all_duplicates);
      answer ← input;
      if decide (lower (strip answer) ≠ "y") then print MsgCancelled
      else
        _ ← mkdir QUARANTINE_DIR;
        '(results, moved_count) ← execute results;
        report ← generate_report results QUARANTINE_DIR;
        _ ← write_text REPORT_FILE report;
        if decide (moved_count ≠ removed_count results)
        then print (MsgMismatch (removed_count results) moved_count)
        else print MsgDone.

End script.
End Scripts.

(** ** Vocabulary of the statements *)

(** What [stat] reports as the size of [p], if [stat] succeeds. *)
Definition size_of (fs : FS) (p : Path) : option Z :=
  (λ e, st_size (entry_stat e)) <$> fs !! p.

(** The creation time of [p] as the keeper selection sees it: the birth
    time, the modification time where the platform has no birth time, and
    [inf] when [stat] fails. *)
Definition creation_time (fs : FS) (p : Path) : pyfloat :=
  match fs !! p with
  | Some e => Finite (default (st_mtime (entry_stat e)) (st_birthtime (entry_stat e)))
  | None => Inf
  end.

(** [a <= b] on floats, as the negation of [b < a] *)
Definition float_le (a b : pyfloat) : Prop := float_lt b a = false.

(** The content digest of [p] with the chunk size of the scripts; [None]
    when the hasher reports none. *)
Definition digest `{Hashlib} (fs : FS) (p : Path) : option string :=
  match Root.get_file_hash fs p 8192 with
  | Ok d => d
  | Raise _ => None
  end.

(** A digest is present when the scripts' test [if file_hash:] passes. *)
Definition present (d : option string) : Prop := truthy d = true.

(** Two paths lie in one group of a grouping. *)
Definition same_group (gs : defaultdict string Path) (p q : Path) : Prop :=
  ∃ h g, (h, g) ∈ gs ∧ p ∈ g ∧ q ∈ g.

(** The records that reach the hashing pass: [stat] succeeds and the size is
    shared by at least two records of the input. *)
Definition hashed (fs : FS) (documents : list Path) (p : Path) : Prop :=
  p ∈ documents ∧
  ∃ s, size_of fs p = Some s ∧
       (2 ≤ length (filter (λ x, size_of fs x = Some s) documents))%nat.

(** A stand-in for MD5 in executable examples: the digest spells out the
    content, so different contents have different digests. *)
Definition demo_md5 : Hashlib := {|
  md5_state := list byte;
  md5_new := [];
  md5_update := λ s chunk, s ++ chunk;
  md5_hexdigest := λ s, "md5:" +:+ String.string_of_list_byte s
|}.

(** A regular readable file for examples. *)
Definition demo_file (size : Z) (birth : option Z) (mtime : Z) (data : string) : entry :=
  File {| f_stat := {| st_size := size; st_birthtime := birth; st_mtime := mtime |};
          f_data := String.list_byte_of_string data; f_access := Readable |}.

(** The bucket of key [k], empty when the key is missing. *)
Definition bucket `{EqDecision K} {V} (k : K) (d : defaultdict K V) : list V :=
  default [] (dd_get k d).

(** Grouping a list by an optional key, the pattern of both passes of
    [find_duplicates]. *)
Definition group_by_key `{EqDecision K} {A} (key : A → option K)
    (d : defaultdict K A) (l : list A) : defaultdict K A :=
  foldl (λ d x, match key x with Some k => dd_append k x d | None => d end) d l.

(** The key of the second pass: the digest when it is present. *)
Definition hash_key `{Hashlib} (fs : FS) (p : Path) : option string :=
  if truthy (digest fs p) then digest fs p else None.

(** The three stages of [find_duplicates] as plain functions. *)
Definition size_groups (fs : FS) (documents : list Path) : defaultdict Z Path :=
  group_by_key (size_of fs) [] documents.

Definition hashing_pass (fs : FS) (documents : list Path) : list Path :=
  concat (filter (λ g, 2 ≤ length g)%nat (size_groups fs documents).*2).

Definition hash_groups `{Hashlib} (fs : FS) (documents : list Path)
    : defaultdict string Path :=
  group_by_key (hash_key fs) [] (hashing_pass fs documents).

(** Two distinct records of the input share a group exactly when their sizes
    and digests agree and both digests are present. *)
Definition grouped_by_size_and_digest `{Hashlib} (fs : FS) (documents : list Path)
    (gs : defaultdict string Path) : Prop :=
  ∀ p q, p ∈ documents → q ∈ documents → p ≠ q →
    same_group gs p q
    ↔ size_of fs p = size_of fs q ∧ digest fs p = digest fs q
      ∧ present (digest fs p) ∧ present (digest fs q).

(** Records with one present digest have one size. *)
Definition digest_determines_size `{Hashlib} (fs : FS) (documents : list Path) : Prop :=
  ∀ p q, p ∈ documents → q ∈ documents →
    present (digest fs p) → digest fs p = digest fs q → size_of fs p = size_of fs q.

(** Four files with the same bytes; [stat] reported one byte for the first
    two and two bytes for the last two. *)
Definition stale_fs : FS := list_to_map [
  ("/a", demo_file 1 None 0 "x"); ("/b", demo_file 1 None 0 "x");
  ("/c", demo_file 2 None 0 "x"); ("/d", demo_file 2 None 0 "x")
].

(** Three files of three bytes: [/a] and [/b] have the same content, [/c]
    another one, as in the end-to-end scenario of the specification. *)
Definition trio_fs : FS := list_to_map [
  ("/a", demo_file 3 (Some 1) 1 "xyz"); ("/b", demo_file 3 (Some 2) 2 "xyz");
  ("/c", demo_file 3 (Some 0) 0 "abc")
].

(** [/a] and [/b] have the same size and content; [/b] cannot be opened. *)
Definition denied_fs : FS := list_to_map [
  ("/a", demo_file 3 None 0 "xyz");
  ("/b", File {| f_stat := {| st_size := 3; st_birthtime := None; st_mtime := 0 |};
                 f_data := String.list_byte_of_string "xyz"; f_access := OpenDenied |})
].

(** The order of two keyed elements, by their keys. *)
Definition keyed_le {A} (a b : pyfloat * A) : Prop := float_le a.1 b.1.

(** Every element paired with its time stamp, as [sorted] computes them. *)
Definition with_creation_time (fs : FS) (files : list Path) : list (pyfloat * Path) :=
  (λ f, (creation_time fs f, f)) <$> files.

(** [/old] was created first; [/tie] has the same time stamp as [/old] and
    comes later in the list; [/late] is younger; [/gone] does not exist. *)
Definition keeper_fs : FS := list_to_map [
  ("/late", demo_file 3 (Some 7) 9 "xyz"); ("/old", demo_file 3 (Some 5) 9 "xyz");
  ("/tie", demo_file 3 None 5 "xyz")
].

(** The units of the size formatting, their size in bytes and their label. *)
Inductive size_unit := B | KB | MB | GB.

Definition unit_bytes (u : size_unit) : Z :=
  match u with
  | B => 1
  | KB => 1024
  | MB => 1024 ^ 2
  | GB => 1024 ^ 3
  end.

Definition unit_label (u : size_unit) : string :=
  match u with
  | B => "B"
  | KB => "KB"
  | MB => "MB"
  | GB => "GB"
  end.

(** The number printed in front of the unit: the byte count itself, or the
    quotient with one decimal for KB and two for MB and GB. *)
Definition scaled (n : Z) (u : size_unit) : string :=
  match u with
  | B => pretty n
  | KB => format_quotient n 10 1
  | MB => format_quotient n 20 2
  | GB => format_quotient n 30 2
  end.

(** [needle in text] *)
Definition contains (needle text : string) : bool :=
  bool_decide (is_Some (String.index 0 needle text)).

(** A world for examples: a file system, a clock and an answer; nothing
    else touches the files. *)
Definition demo_world (fs : FS) (t : datetime) (answer : string) : World :=
  {| w_fs := fs; w_now := t; w_answer := Some answer;
     w_meanwhile := λ fs, fs; w_log := [] |}.

Definition morning : datetime :=
  {| year := 2024; month := 3; day := 7; hour := 9; minute := 5; second := 0;
     microsecond := 0 |}.

(** a second and some microseconds after [morning] *)
Definition a_second_later : datetime :=
  {| year := 2024; month := 3; day := 7; hour := 9; minute := 5; second := 1;
     microsecond := 250 |}.

(** the same second as [morning] *)
Definition a_moment_later : datetime :=
  {| year := 2024; month := 3; day := 7; hour := 9; minute := 5; second := 0;
     microsecond := 999 |}.

(** A run that removed one file of 512 bytes. *)
Definition small_run : run_result :=
  {| groups := [{| type := Some "文档"; keeper := "/w/a.pdf";
                   removed := [{| original := "/w/b.pdf"; quarantine := Some "/q/b.pdf";
                                  size := 512 |}] |}];
     removed_count := 1; saved_bytes := 512 |}.

(** The text that a report generator renders when the clock reads [t]. *)
Definition report_at (generate_report : run_result → Path → M string)
    (t : datetime) (results : run_result) (quarantine_dir : Path) : string :=
  match (generate_report results quarantine_dir (demo_world ∅ t "")).1 with
  | Ok text => text
  | Raise _ => ""
  end.

(** The destinations that [move_to_quarantine] tries, in order: the name of
    the source, then the stem with [_1], [_2], ... before the extension. *)
Definition candidate (filepath quarantine_dir : Path) (k : nat) : Path :=
  match k with
  | O => joinpath quarantine_dir (name filepath)
  | S _ => joinpath quarantine_dir
             (stem filepath +:+ "_" +:+ pretty (Z.of_nat k) +:+ suffix filepath)
  end.

(** The regular files of a file system, without their paths. *)
Definition file_values (fs : FS) : list file :=
  omap (λ e, match e with File f => Some f | Dir _ => None end) (map_to_list fs).*2.

(** A sequence of calls of a mover into one quarantine directory; a call
    that raises does not stop the sequence. *)
Fixpoint move_all (move : Path → Path → M Path) (sources : list Path)
    (quarantine_dir : Path) (w : World) : list (result Path) * World :=
  match sources with
  | [] => ([], w)
  | src :: sources' =>
      let '(r, w') := move src quarantine_dir w in
      let '(rs, w'') := move_all move sources' quarantine_dir w' in
      (r :: rs, w'')
  end.

(** The operations of a run that change the file system. *)
Definition is_mutation (e : event) : bool :=
  match e with
  | EvMkdir _ | EvMove _ _ | EvWriteText _ _ => true
  | EvPrint _ | EvInput => false
  end.

(** The answer that lets the moves begin: ['y'] after [strip] and [lower]. *)
Definition affirmative (answer : option string) : Prop :=
  ∃ s, answer = Some s ∧ lower (strip s) = "y".

(** The run only adds [l] to its log. *)
Definition logged (w w' : World) (l : list event) : Prop :=
  w_log w' = w_log w ++ l.

(** A quarantine directory with the names [a.pdf] and [a_1.pdf] taken. *)
Definition crowded_fs : FS := list_to_map [
  ("/q", new_dir); ("/q/a.pdf", demo_file 1 None 0 "1");
  ("/q/a_1.pdf", demo_file 1 None 0 "2"); ("/w/a.pdf", demo_file 1 None 0 "3")
].

(** A computation only adds to the log of the run. *)
Definition grows {A} (m : M A) : Prop := ∀ w, ∃ l, logged w (m w).2 l.

(** How a run of [main] can end: before the prompt, at a closed standard
    input, after a declined prompt, or after an accepted one. *)
Definition run_cases (w : World) (r : result unit) (w' : World) : Prop :=
  (r = Ok () ∧ w_fs w' = w_fs w ∧ ∃ m, logged w w' [EvPrint m])
  ∨ (w_answer w = None ∧ r = Raise EOFError
     ∧ w_fs w' = w_meanwhile w (w_fs w) ∧ logged w w' [EvInput])
  ∨ (∃ s, w_answer w = Some s ∧ lower (strip s) ≠ "y" ∧ r = Ok ()
          ∧ w_fs w' = w_meanwhile w (w_fs w)
          ∧ logged w w' [EvInput; EvPrint MsgCancelled])
  ∨ (affirmative (w_answer w) ∧ ∃ rest, logged w w' (EvInput :: rest)).

(** The confirmation gate: an operation that changes the file system comes
    after the prompt and an affirmative answer; with any other answer the
    run ends without error and without such an operation. *)
Definition gated (main : M unit) : Prop :=
  ∀ w, ∃ r w',
    main w = (r, w')
    ∧ (∀ before e after,
         logged w w' (before ++ e :: after) → is_mutation e = true →
         EvInput ∈ before ∧ affirmative (w_answer w))
    ∧ (∀ s, w_answer w = Some s → lower (strip s) ≠ "y" →
         r = Ok ()
         ∧ (w_fs w' = w_fs w ∨ w_fs w' = w_meanwhile w (w_fs w))
         ∧ ∃ l, logged w w' l ∧ Forall (λ e, is_mutation e = false) l).

(** Two files with the same content below the scanned directory; while the
    prompt waits the younger one is deleted by another process; the user
    answers yes. *)
Definition vanishing_world : World := {|
  w_fs := list_to_map [
    ("/h/Library/Containers/com.tencent.xinWeChat/Data/Documents/xwechat_files", new_dir);
    ("/h/Library/Containers/com.tencent.xinWeChat/Data/Documents/xwechat_files/a.pdf",
     demo_file 3 (Some 1) 1 "xyz");
    ("/h/Library/Containers/com.tencent.xinWeChat/Data/Documents/xwechat_files/b.pdf",
     demo_file 3 (Some 2) 2 "xyz")
  ];
  w_now := morning;
  w_answer := Some "y";
  w_meanwhile :=
    delete "/h/Library/Containers/com.tencent.xinWeChat/Data/Documents/xwechat_files/b.pdf";
  w_log := []
|}.

(** The same world in src/wechat-dedup/scripts/dedup.py needs files of at
    least 10 KB below [msg/file]; the run ends with the count mismatch
    warning. *)
Definition vanishing_world_scripts : World := {|
  w_fs := list_to_map [
    ("/h/Library/Containers/com.tencent.xinWeChat/Data/Documents/xwechat_files", new_dir);
    ("/h/Library/Containers/com.tencent.xinWeChat/Data/Documents/xwechat_files/u/msg/file",
     new_dir);
    ("/h/Library/Containers/com.tencent.xinWeChat/Data/Documents/xwechat_files/u/msg/file/a.pdf",
     demo_file 20000 (Some 1) 1 "xyz");
    ("/h/Library/Containers/com.tencent.xinWeChat/Data/Documents/xwechat_files/u/msg/file/b.pdf",
     demo_file 20000 (Some 2) 2 "xyz")
  ];
  w_now := morning;
  w_answer := Some "y";
  w_meanwhile :=
    delete "/h/Library/Containers/com.tencent.xinWeChat/Data/Documents/xwechat_files/u/msg/file/b.pdf";
  w_log := []
|}.

(** [/b] has the content of [/a], but its second [read] fails. *)
Definition failing_fs : FS := list_to_map [
  ("/a", demo_file 5 None 0 "hello");
  ("/b", File {| f_stat := {| st_size := 5; st_birthtime := None; st_mtime := 0 |};
                 f_data := String.list_byte_of_string "hello";
                 f_access := ReadErrorAfter 1 |})
].

(** *** Vocabulary of the further properties *)

(** The test of [Root.scan_documents] on one path. *)
Definition is_document (fs : FS) (p : Path) : bool :=
  is_file fs p && bool_decide (lower (suffix p) ∈ [".pdf"; ".doc"; ".docx"]).

(** The three tests of [Scripts.scan_documents] on one path. *)
Definition is_scanned (fs : FS) (extensions : list string) (min_size : Z) (p : Path) : bool :=
  is_file fs p
  && bool_decide (lower (suffix p) ∈ extensions)
  && match size_of fs p with
     | Some s => bool_decide (min_size ≤ s)
     | None => false
     end.

(** The files that [Scripts.scan_documents] collects for one target. *)
Definition scanned_files (fs : FS) (base_path : Path) (config : Scripts.target)
    (min_size : Z) : list Path :=
  concat ((λ target_dir,
             filter (λ p, is_scanned fs (Scripts.extensions config) min_size p = true)
               (rglob fs target_dir))
          <$> glob fs base_path (Scripts.pattern config)).

(** Feeding a hasher in two pieces is feeding it the concatenation: the
    property of [hashlib]'s [update] that makes chunked reading sound. *)
Definition streaming `{Hashlib} : Prop :=
  ∀ s a b, md5_update (md5_update s a) b = md5_update s (a ++ b).

(** The state of a fresh hasher that was fed [data], in one piece. *)
Definition absorbed `{Hashlib} (data : list byte) : md5_state :=
  match data with
  | [] => md5_new
  | _ => md5_update md5_new data
  end.

(** A readable file with the given content; the content of [stat] plays no
    role for the hasher. *)
Definition readable (fs : FS) (p : Path) (data : list byte) : Prop :=
  ∃ f, fs !! p = Some (File f) ∧ f_access f = Readable ∧ f_data f = data.

(** [p] was not created after [q], as far as [stat] tells. *)
Definition created_before (fs : FS) (p q : Path) : Prop :=
  float_le (creation_time fs p) (creation_time fs q).

(** The record that the plan makes for a removal whose [stat] succeeds. *)
Definition planned_record (fs : FS) (f : Path) : option removed_info :=
  (λ s, {| original := f; quarantine := None; size := s |}) <$> size_of fs f.

(** All removal records of a run result, in the order of the report. *)
Definition planned_removals (results : run_result) : list removed_info :=
  concat (removed <$> groups results).

(** The sum of the recorded sizes. *)
Definition total_size (l : list removed_info) : Z := foldr (λ r n, size r + n) 0 l.

(** The counters of a run result agree with its records. *)
Definition consistent (results : run_result) : Prop :=
  removed_count results = Z.of_nat (length (planned_removals results))
  ∧ saved_bytes results = total_size (planned_removals results).

(** What the plan makes of one duplicate group: the keeper that
    [select_keeper] picks and a record for every other file that [stat]
    still finds. *)
Definition planned_group (fs : FS) (type : option string) (files : list Path)
    (g : group_info) : Prop :=
  ∃ to_remove,
    Root.select_keeper fs files = Ok (keeper g, to_remove)
    ∧ RunResult.type g = type
    ∧ removed g = omap (planned_record fs) to_remove.

(** The duplicate groups of all targets in the order in which
    [Scripts.plan] visits them, each with the description of its target. *)
Definition all_groups (all_duplicates : list (string * (defaultdict string Path * string)))
    : list (string * list Path) :=
  concat ((λ x : string * (list (string * list Path) * string),
             (λ hf : string * list Path, (x.2.2, hf.2)) <$> x.2.1) <$> all_duplicates).

(** One removal for every file of a group but its keeper. *)
Definition expected_removals (groups : list (list Path)) : Z :=
  foldr (λ files n, Z.of_nat (length files) - 1 + n) 0 groups.

(** Every entry that is not at one of the paths [sources] is in [fs'] what
    it was in [fs], and the regular files are the same collection. *)
Definition moves_only (sources : list Path) (fs fs' : FS) : Prop :=
  (∀ p e, p ∉ sources → fs !! p = Some e → fs' !! p = Some e)
  ∧ file_values fs' ≡ₚ file_values fs.

(** What the move loop makes of a planned removal: the record stays as it
    is, or its quarantine path becomes one of the destinations of the
    mover. *)
Definition moved_record (quarantine_dir : Path) (r r' : removed_info) : Prop :=
  r' = r
  ∨ ∃ j, r' = {| original := original r;
                 quarantine := Some (candidate (original r) quarantine_dir j);
                 size := size r |}.

(** What the move loop makes of a group: type and keeper stay, the
    records are handled one by one. *)
Definition moved_group (quarantine_dir : Path) (g g' : group_info) : Prop :=
  type g' = type g ∧ keeper g' = keeper g
  ∧ Forall2 (moved_record quarantine_dir) (removed g) (removed g').

(** The records that were given a quarantine path. *)
Definition quarantined (results : run_result) : list removed_info :=
  filter (λ r, is_Some (quarantine r)) (planned_removals results).

(** A computation leaves the entry at [p] in place, however it ends. *)
Definition keeps {A} (p : Path) (m : M A) : Prop :=
  ∀ w e, w_fs w !! p = Some e → w_fs (m w).2 !! p = Some e.

(** How [main] goes on after its analysis: with nothing to remove it
    prints one message and returns, leaving the world as it was; otherwise
    the next thing it does is to prompt. *)
Definition exits_or_prompts (main : M unit) (w : World) (nothing_found no_duplicates : Prop)
    `{Decision nothing_found, Decision no_duplicates} : Prop :=
  if decide no_duplicates
  then main w = (Ok (), log (EvPrint (if decide nothing_found then MsgNoFiles
                                      else MsgNoDuplicates)) w)
  else ∃ rest, logged w (main w).2 (EvInput :: rest).

(** [piece] is a contiguous part of [text]. *)
Definition within (piece text : string) : Prop :=
  ∃ before after, text = before +:+ piece +:+ after.

(** The characters of a string. *)
Definition chars (s : string) : list ascii := String.list_ascii_of_string s.

(** A single path component: no separator occurs in it. *)
Definition component (s : string) : Prop := "/"%char ∉ chars s.

(** The only exception that a computation can end with is [OSError]. *)
Definition raises_OSError {A} (m : M A) : Prop :=
  ∀ w e, (m w).1 = Raise e → e = OSError.

(** How a run of [main] can fail: at a closed standard input, or with an
    error of the file system after the user agreed to the moves. *)
Definition fails_at_prompt_or_after (main : M unit) : Prop :=
  ∀ w e, (main w).1 = Raise e →
    e = EOFError ∧ w_answer w = None
    ∨ e = OSError ∧ affirmative (w_answer w).

(** Nothing keeps [mkdir] from creating the directory [q]: neither [q] nor
    one of its ancestors is a regular file. *)
Definition creatable (fs : FS) (q : Path) : Prop :=
  Forall (λ d, is_file fs d = false) (parents q ++ [q]).

(** The record [r'] says where the file of the planned removal [r] went:
    the entry that was at the original path in [fs] is in [fs'] at the
    recorded quarantine path, a destination of the mover, and the original
    path is free. *)
Definition moved_to (q : Path) (fs fs' : FS) (r r' : removed_info) : Prop :=
  ∃ j, r' = {| original := original r;
               quarantine := Some (candidate (original r) q j);
               size := size r |}
       ∧ fs' !! candidate (original r) q j = fs !! original r
       ∧ fs' !! original r = None.

(** The state of the move loop: the planned removals [all] split into those
    handled and those to come; the quarantine directory can still be
    created, the sources to come are untouched, and every handled removal
    has a record that says where its file went. *)
Definition move_progress (q : Path) (fs0 : FS) (all done done' todo : list removed_info)
    (fs' : FS) : Prop :=
  done ++ todo = all
  ∧ creatable fs' q
  ∧ (∀ r, r ∈ todo → fs' !! original r = fs0 !! original r)
  ∧ Forall2 (moved_to q fs0 fs') done done'.

(** A plan with one removal, for the file system [crowded_fs]. *)
Definition crowded_plan : run_result :=
  {| groups := [{| type := None; keeper := "/w/k.pdf";
                   removed := [{| original := "/w/a.pdf"; quarantine := None;
                                  size := 1 |}] |}];
     removed_count := 1; saved_bytes := 1 |}.

(** ** The error monad *)

Lemma for_each_pure {A S} (l : list A) (body : S → A → result S) (f : S → A → S) s :
  (∀ s x, x ∈ l → body s x = Ok (f s x)) →
  for_each l body s = Ok (foldl f s l).
Proof.
  revert s. induction l as [|x l IH]; intros s Hbody; [done|].
  cbn. rewrite Hbody by left. cbn. apply IH.
  intros s' y Hy. apply Hbody. by right.
Qed.

Lemma elem_of_concat {A} (x : A) (ls : list (list A)) :
  x ∈ concat ls ↔ ∃ l, x ∈ l ∧ l ∈ ls.
Proof.
  induction ls as [|l ls IH]; cbn.
  - split; [by intros ?%elem_of_nil|by intros (? & _ & ?%elem_of_nil)].
  - rewrite elem_of_app, IH. split.
    + intros [Hx|(l' & Hx & Hl')]; [exists l|exists l']; (split; [done|]);
        [left|by right].
    + intros (l' & Hx & [->|Hl']%elem_of_cons); [by left|right; by exists l'].
Qed.

(** ** The hasher *)

Section hasher.
Context `{Hashlib}.

Lemma read_chunks_result fuel f chunk_size hasher :
  (length (h_rest f) < fuel)%nat →
  (∃ h', Root.read_chunks fuel f chunk_size hasher = Ok h')
  ∨ Root.read_chunks fuel f chunk_size hasher = Raise OSError.
Proof.
  revert f hasher. induction fuel as [|fuel IH]; intros f hasher Hlen; [lia|].
  cbn. unfold read. destruct (h_budget f) as [[|b]|] eqn:Hb; cbn; [by right|..].
  all: match goal with |- context [take ?k _] => set (n := k) end.
  all: destruct (take n (h_rest f)) as [|c chunk] eqn:Htake; [left; eauto|].
  all: apply IH; cbn; rewrite length_drop.
  all: assert (n ≠ 0)%nat by (intros ->; by rewrite take_0 in Htake).
  all: assert (h_rest f ≠ []) by (intros Hnil; by rewrite Hnil, take_nil in Htake).
  all: destruct (h_rest f); [done|cbn in *; lia].
Qed.

Lemma get_file_hash_total fs p chunk_size :
  ∃ d, Root.get_file_hash fs p chunk_size = Ok d.
Proof.
  unfold Root.get_file_hash.
  destruct (open_rb fs p) as [f|e] eqn:Hopen; cbn -[Root.read_chunks].
  - destruct (read_chunks_result (S (length (h_rest f))) f chunk_size md5_new)
      as [[h' ->]| ->]; [lia|..]; cbn; eauto.
  - unfold open_rb in Hopen. repeat case_match; simplify_eq; cbn; eauto.
Qed.

Lemma get_file_hash_digest fs p : Root.get_file_hash fs p 8192 = Ok (digest fs p).
Proof.
  unfold digest. by destruct (get_file_hash_total fs p 8192) as [d ->].
Qed.

Lemma open_rb_raises fs p e : open_rb fs p = Raise e → e = OSError.
Proof. unfold open_rb. intros. repeat case_match; by simplify_eq. Qed.

Lemma get_file_hash_open_fails fs p chunk_size e :
  open_rb fs p = Raise e → Root.get_file_hash fs p chunk_size = Ok None.
Proof.
  intros Hopen. unfold Root.get_file_hash.
  rewrite Hopen, (open_rb_raises _ _ _ Hopen). done.
Qed.

Lemma get_file_hash_read_fails fs p chunk_size f e :
  open_rb fs p = Ok f →
  Root.read_chunks (S (length (h_rest f))) f chunk_size md5_new = Raise e →
  Root.get_file_hash fs p chunk_size = Ok None.
Proof.
  intros Hopen Hread. unfold Root.get_file_hash. rewrite Hopen. cbn -[Root.read_chunks].
  destruct (read_chunks_result (S (length (h_rest f))) f chunk_size md5_new)
    as [[h' Hh]|Hh]; [lia|..]; rewrite Hh in *; [done|]. done.
Qed.

End hasher.

(** ** Dictionaries of lists *)

Section defaultdict.
Context `{EqDecision K} {V : Type}.
Implicit Types (d : defaultdict K V) (k : K) (v : V).

Lemma dd_get_append k k' v d :
  dd_get k' (dd_append k v d)
  = if decide (k' = k) then Some (bucket k d ++ [v]) else dd_get k' d.
Proof.
  unfold bucket. induction d as [|[k0 vs] d IH]; cbn.
  - repeat case_decide; by simplify_eq.
  - destruct (decide (k = k0)) as [->|Hne]; cbn.
    + repeat case_decide; by simplify_eq.
    + rewrite IH. repeat case_decide; by simplify_eq.
Qed.

Lemma dd_append_keys k v d :
  (dd_append k v d).*1 = if decide (k ∈ d.*1) then d.*1 else d.*1 ++ [k].
Proof.
  induction d as [|[k0 vs] d IH]; cbn.
  - case_decide as Hin; [by apply elem_of_nil in Hin|done].
  - destruct (decide (k = k0)) as [->|Hne]; cbn.
    + rewrite decide_True by left. done.
    + rewrite IH. destruct (decide (k ∈ d.*1)) as [Hin|Hin].
      * rewrite decide_True by (by right). done.
      * rewrite decide_False; [done|]. by intros [?|?]%elem_of_cons.
Qed.

Lemma dd_append_NoDup k v d : NoDup d.*1 → NoDup (dd_append k v d).*1.
Proof.
  intros Hd. rewrite dd_append_keys. case_decide as Hin; [done|].
  apply NoDup_app. split_and!; [done| |apply NoDup_singleton].
  intros x Hx ->%list_elem_of_singleton. done.
Qed.

Lemma dd_append_values k v d : concat (dd_append k v d).*2 ≡ₚ v :: concat d.*2.
Proof.
  induction d as [|[k0 vs] d IH]; cbn; [done|].
  destruct (decide (k = k0)) as [->|Hne]; cbn.
  - rewrite <-(assoc_L (++)). cbn. by rewrite <-Permutation_middle.
  - rewrite IH. by rewrite <-Permutation_middle.
Qed.

Lemma dd_get_Some_elem_of k g d : dd_get k d = Some g → (k, g) ∈ d.
Proof.
  induction d as [|[k0 vs] d IH]; cbn; [done|].
  case_decide; intros; simplify_eq; [left|right; eauto].
Qed.

Lemma dd_get_None k d : dd_get k d = None ↔ k ∉ d.*1.
Proof.
  induction d as [|[k0 vs] d IH]; cbn.
  - split; [intros _ Hin; by apply elem_of_nil in Hin|done].
  - rewrite not_elem_of_cons. case_decide.
    + split; [done|by intros [? _]].
    + rewrite IH. split; [done|by intros [_ ?]].
Qed.

Lemma elem_of_dd_get k g d : NoDup d.*1 → (k, g) ∈ d → dd_get k d = Some g.
Proof.
  induction d as [|[k0 vs] d IH]; cbn; intros Hnd Hin; [by apply elem_of_nil in Hin|].
  apply NoDup_cons in Hnd as [Hk0 Hnd]. apply elem_of_cons in Hin as [Heq|Hin].
  - simplify_eq. by rewrite decide_True.
  - rewrite decide_False; [eauto|]. intros ->. apply Hk0.
    apply list_elem_of_fmap. by exists (k0, g).
Qed.

End defaultdict.

Section group_by_key.
Context `{EqDecision K} {A : Type} (key : A → option K).
Implicit Types (d : defaultdict K A) (l : list A).

Lemma group_by_key_snoc d l x :
  group_by_key key d (l ++ [x])
  = match key x with
    | Some k => dd_append k x (group_by_key key d l)
    | None => group_by_key key d l
    end.
Proof. unfold group_by_key. by rewrite foldl_app. Qed.

Lemma group_by_key_NoDup d l : NoDup d.*1 → NoDup (group_by_key key d l).*1.
Proof.
  intros Hd. induction l as [|x l IH] using rev_ind; [done|].
  rewrite group_by_key_snoc. destruct (key x); [by apply dd_append_NoDup|done].
Qed.

Lemma group_by_key_get d l k :
  dd_get k (group_by_key key d l)
  = match dd_get k d, filter (λ x, key x = Some k) l with
    | None, [] => None
    | _, g => Some (bucket k d ++ g)
    end.
Proof.
  induction l as [|x l IH] using rev_ind.
  - cbn. unfold bucket. destruct (dd_get k d); cbn; [by rewrite app_nil_r|done].
  - rewrite group_by_key_snoc, filter_app, filter_cons, filter_nil.
    destruct (key x) as [k'|] eqn:Hx.
    + rewrite dd_get_append. case_decide as Hk.
      * subst k'. rewrite decide_True by done. unfold bucket at 1. rewrite IH.
        unfold bucket.
        destruct (dd_get k d), (filter (λ x, key x = Some k) l);
          cbn; by rewrite <-?(assoc_L (++)), ?app_nil_r.
      * rewrite decide_False by congruence. by rewrite app_nil_r.
    + rewrite decide_False by congruence. by rewrite app_nil_r.
Qed.

Lemma group_by_key_values d l :
  concat (group_by_key key d l).*2 ≡ₚ concat d.*2 ++ filter (λ x, is_Some (key x)) l.
Proof.
  induction l as [|x l IH] using rev_ind; [by rewrite app_nil_r|].
  rewrite group_by_key_snoc, filter_app, filter_cons, filter_nil.
  destruct (key x) as [k'|] eqn:Hx.
  - rewrite dd_append_values, IH, decide_True by eauto.
    rewrite (assoc_L (++)). by rewrite <-Permutation_cons_append.
  - rewrite decide_False by (by intros [? ?]). by rewrite IH, app_nil_r.
Qed.

(** Grouping from the empty dictionary: every bucket is the sublist of the
    elements with its key, in their order, and no bucket is empty. *)
Lemma elem_of_group_by_key l k g :
  (k, g) ∈ group_by_key key [] l ↔ g = filter (λ x, key x = Some k) l ∧ g ≠ [].
Proof.
  assert (NoDup (group_by_key key [] l).*1) as Hnd
    by (apply group_by_key_NoDup; constructor).
  split.
  - intros Hin%(elem_of_dd_get _ _ _ Hnd). rewrite group_by_key_get in Hin.
    cbn in Hin. destruct (filter _ l) eqn:Hf; by simplify_eq.
  - intros [-> Hne]. apply dd_get_Some_elem_of. rewrite group_by_key_get. cbn.
    by destruct (filter _ l).
Qed.

End group_by_key.

(** ** The duplicate finder *)

Section finder.
Context `{Hashlib}.
Implicit Types (fs : FS) (documents : list Path) (p q : Path).

Lemma size_pass_step fs doc (sg : defaultdict Z Path) :
  try_except_OSError
    (st ← stat fs doc; let size := st_size st in Ok (dd_append size doc sg))
    (Ok sg)
  = Ok (match size_of fs doc with Some s => dd_append s doc sg | None => sg end).
Proof. unfold stat, size_of. by destruct (fs !! doc). Qed.

Lemma hash_pass_step fs filepath (hg : defaultdict string Path) :
  (file_hash ← Root.get_file_hash fs filepath 8192;
   if truthy file_hash
   then Ok (dd_append (default "" file_hash) filepath hg)
   else Ok hg)
  = Ok (match hash_key fs filepath with
        | Some h => dd_append h filepath hg
        | None => hg
        end).
Proof.
  rewrite get_file_hash_digest. cbn. unfold hash_key.
  destruct (digest fs filepath) as [[|a h]|]; cbn; done.
Qed.

Lemma foldl_buckets {S} (f : S → Path → S) (sg : defaultdict Z Path) a :
  foldl (λ a '(size, files),
           if decide (length files < 2)%nat then a else foldl f a files) a sg
  = foldl f a (concat (filter (λ g, 2 ≤ length g)%nat sg.*2)).
Proof.
  revert a. induction sg as [|[s files] sg IH]; intros a; [done|].
  rewrite fmap_cons, filter_cons. cbn [foldl snd]. case_decide.
  - rewrite decide_False by lia. apply IH.
  - rewrite decide_True by lia. cbn [concat]. by rewrite foldl_app, IH.
Qed.

(** [find_duplicates] never raises; its result is the digest buckets with
    at least two members. *)
Lemma find_duplicates_pure fs documents :
  Root.find_duplicates fs documents
  = Ok (filter (λ hf, 2 ≤ length hf.2)%nat (hash_groups fs documents)).
Proof.
  unfold Root.find_duplicates.
  rewrite (for_each_pure _ _
    (λ sg doc, match size_of fs doc with Some s => dd_append s doc sg | None => sg end))
    by (intros; apply size_pass_step).
  cbn.
  rewrite (for_each_pure _ _
    (λ hg '(size, files),
       if decide (length files < 2)%nat then hg
       else foldl (λ hg p, match hash_key fs p with
                           | Some h => dd_append h p hg
                           | None => hg
                           end) hg files)).
  - cbn. by rewrite foldl_buckets.
  - intros hg [size files] _. case_decide; [done|].
    apply for_each_pure. intros. apply hash_pass_step.
Qed.

Lemma elem_of_size_groups fs documents s g :
  (s, g) ∈ size_groups fs documents
  ↔ g = filter (λ x, size_of fs x = Some s) documents ∧ g ≠ [].
Proof. apply elem_of_group_by_key. Qed.

Lemma elem_of_hashing_pass fs documents p :
  p ∈ hashing_pass fs documents ↔ hashed fs documents p.
Proof.
  unfold hashing_pass, hashed. rewrite elem_of_concat. split.
  - intros (g & Hp & Hg). apply list_elem_of_filter in Hg as [Hlen Hg].
    apply list_elem_of_fmap in Hg as ([s g'] & -> & Hg). cbn in *.
    apply elem_of_size_groups in Hg as [-> _].
    apply list_elem_of_filter in Hp as [Hs Hp]. eauto.
  - intros (Hp & s & Hs & Hlen).
    exists (filter (λ x, size_of fs x = Some s) documents). split.
    + by apply list_elem_of_filter.
    + apply list_elem_of_filter. split; [done|].
      apply list_elem_of_fmap. exists (s, filter (λ x, size_of fs x = Some s) documents).
      split; [done|]. apply elem_of_size_groups. split; [done|].
      intros Hnil. rewrite Hnil in Hlen. cbn in Hlen. lia.
Qed.

Lemma NoDup_concat_filter {A} (P : list A → Prop) `{∀ g, Decision (P g)} (ls : list (list A)) :
  NoDup (concat ls) → NoDup (concat (filter P ls)).
Proof.
  induction ls as [|l ls IH]; [done|]. rewrite filter_cons. cbn [concat].
  intros [Hl [Hdisj Hls]]%NoDup_app. case_decide; [|by apply IH]. cbn [concat].
  apply NoDup_app. split_and!; [done| |by apply IH].
  intros x Hx Hin. apply (Hdisj x Hx).
  apply elem_of_concat in Hin as (g & Hxg & Hg%list_elem_of_filter).
  apply elem_of_concat. exists g. split; [done|]. by destruct Hg.
Qed.

Lemma hashing_pass_NoDup fs documents :
  NoDup documents → NoDup (hashing_pass fs documents).
Proof.
  intros Hnd. unfold hashing_pass. apply NoDup_concat_filter.
  unfold size_groups. rewrite group_by_key_values. cbn. by apply NoDup_filter.
Qed.

Lemma hash_groups_NoDup fs documents :
  NoDup documents → NoDup (concat (hash_groups fs documents).*2).
Proof.
  intros Hnd. unfold hash_groups. rewrite group_by_key_values. cbn.
  by apply NoDup_filter, hashing_pass_NoDup.
Qed.

(** The groups that [find_duplicates] returns. *)
Lemma elem_of_duplicates fs documents h g :
  (h, g) ∈ filter (λ hf, 2 ≤ length hf.2)%nat (hash_groups fs documents)
  ↔ g = filter (λ x, hash_key fs x = Some h) (hashing_pass fs documents)
    ∧ (2 ≤ length g)%nat.
Proof.
  rewrite list_elem_of_filter. cbn. unfold hash_groups.
  rewrite elem_of_group_by_key. split; [by intros (? & ? & _)|].
  intros [-> Hlen]. split_and!; [done..|].
  intros Hnil. rewrite Hnil in Hlen. cbn in Hlen. lia.
Qed.

Lemma hash_key_Some fs p h :
  hash_key fs p = Some h ↔ digest fs p = Some h ∧ present (digest fs p).
Proof.
  unfold hash_key, present. destruct (truthy (digest fs p)).
  - split; [done|by intros [? _]].
  - split; [done|by intros [_ ?]].
Qed.

Lemma two_distinct_members {A} (l : list A) x y :
  x ∈ l → y ∈ l → x ≠ y → (2 ≤ length l)%nat.
Proof.
  destruct l as [|a [|b l]]; cbn; [by intros ?%elem_of_nil| |lia].
  intros ->%list_elem_of_singleton ->%list_elem_of_singleton. done.
Qed.

(** Membership of one group, with no assumption on the digests. *)
Lemma same_group_iff fs documents gs p q :
  Root.find_duplicates fs documents = Ok gs →
  p ≠ q →
  same_group gs p q
  ↔ hashed fs documents p ∧ hashed fs documents q
    ∧ digest fs p = digest fs q ∧ present (digest fs p).
Proof.
  rewrite find_duplicates_pure. intros [= <-] Hpq. unfold same_group. split.
  - intros (h & g & [-> Hlen]%elem_of_duplicates & Hp & Hq).
    apply list_elem_of_filter in Hp as [[Hdp Hpp]%hash_key_Some Hp].
    apply list_elem_of_filter in Hq as [[Hdq Hpq']%hash_key_Some Hq].
    rewrite !elem_of_hashing_pass in *. split_and!; [done..|congruence|done].
  - intros (Hp & Hq & Hd & Hpres).
    destruct (digest fs p) as [h|] eqn:Hdp; [|done].
    exists h, (filter (λ x, hash_key fs x = Some h) (hashing_pass fs documents)).
    assert (p ∈ filter (λ x, hash_key fs x = Some h) (hashing_pass fs documents)).
    { apply list_elem_of_filter. split; [|by apply elem_of_hashing_pass].
      apply hash_key_Some. by rewrite Hdp. }
    assert (q ∈ filter (λ x, hash_key fs x = Some h) (hashing_pass fs documents)).
    { apply list_elem_of_filter. split; [|by apply elem_of_hashing_pass].
      apply hash_key_Some. by rewrite <-Hd. }
    split_and!; [|done..]. apply elem_of_duplicates. split; [done|].
    by apply (two_distinct_members _ p q).
Qed.

Lemma hashed_same_size fs documents p q :
  p ∈ documents → q ∈ documents → p ≠ q →
  is_Some (size_of fs p) → size_of fs p = size_of fs q →
  hashed fs documents p ∧ hashed fs documents q.
Proof.
  intros Hp Hq Hpq [s Hs] Heq.
  assert (2 ≤ length (filter (λ x, size_of fs x = Some s) documents))%nat.
  { apply (two_distinct_members _ p q); [..|done];
      apply list_elem_of_filter; split; congruence. }
  split; (split; [done|]); exists s; split; congruence.
Qed.

End finder.

(** ** The two variants agree on the core *)

Lemma scripts_get_file_hash `{Hashlib} fs p chunk_size :
  Scripts.get_file_hash fs p chunk_size = Root.get_file_hash fs p chunk_size.
Proof. reflexivity. Qed.

Lemma scripts_get_creation_time fs p :
  Scripts.get_creation_time fs p = Root.get_creation_time fs p.
Proof. reflexivity. Qed.

Lemma scripts_find_duplicates `{Hashlib} fs documents :
  Scripts.find_duplicates fs documents = Root.find_duplicates fs documents.
Proof. reflexivity. Qed.

Lemma scripts_select_keeper fs files :
  Scripts.select_keeper fs files = Root.select_keeper fs files.
Proof. reflexivity. Qed.

(** C9. The duplicate-detection core of the two variants is extensionally
    equal: for every file system and every list of records [find_duplicates]
    of src/dedup.py and of src/wechat-dedup/scripts/dedup.py return the same
    grouping (same groups, same order), and [select_keeper] returns the same
    (keeper, removals) pair, or raises the same exception on the empty
    list. *)
Theorem variants_agree `{Hashlib} (fs : FS) (l : list Path) :
  Root.find_duplicates fs l = Scripts.find_duplicates fs l
  ∧ Root.select_keeper fs l = Scripts.select_keeper fs l.
Proof.
  split.
  - symmetry. apply scripts_find_duplicates.
  - symmetry. apply scripts_select_keeper.
Qed.

(** ** Properties of the duplicate finder *)

Section finder_claims.
Context `{Hashlib}.

Lemma present_digest_is_file fs p :
  present (digest fs p) → ∃ f, fs !! p = Some (File f).
Proof.
  unfold present, digest, Root.get_file_hash, open_rb.
  destruct (fs !! p) as [[f|s]|]; cbn; [eauto|done..].
Qed.

Lemma present_digest_size fs p : present (digest fs p) → is_Some (size_of fs p).
Proof.
  intros [f Hf]%present_digest_is_file. unfold size_of. rewrite Hf. by eexists.
Qed.

Lemma duplicates_min_two fs documents gs h g :
  Root.find_duplicates fs documents = Ok gs → (h, g) ∈ gs → (2 ≤ length g)%nat.
Proof.
  rewrite find_duplicates_pure. intros [= <-] Hin.
  by apply elem_of_duplicates in Hin as [_ ?].
Qed.

(** C1 (amended). For every input list in which records with one present
    digest have one size, two distinct records end up in the same group
    returned by [find_duplicates] (either variant) if and only if their
    sizes are equal, their digests are equal and both digests are present;
    and every returned group has at least two members. *)
Theorem find_duplicates_groups (fs : FS) (documents : list Path) :
  digest_determines_size fs documents →
  ∃ gs, Root.find_duplicates fs documents = Ok gs
        ∧ Scripts.find_duplicates fs documents = Ok gs
        ∧ grouped_by_size_and_digest fs documents gs
        ∧ ∀ h g, (h, g) ∈ gs → (2 ≤ length g)%nat.
Proof.
  intros Hsize.
  change (Scripts.find_duplicates fs documents) with (Root.find_duplicates fs documents).
  destruct (Root.find_duplicates fs documents) as [gs|e] eqn:Hgs;
    [|by rewrite find_duplicates_pure in Hgs].
  exists gs. split_and!; [done..| |by eauto using duplicates_min_two].
  intros p q Hp Hq Hpq. rewrite (same_group_iff fs documents) by done. split.
  - intros (Hhp & Hhq & Hd & Hpres). split_and!; [|done..|congruence].
    by apply Hsize.
  - intros (Hs & Hd & Hpres & _).
    destruct (hashed_same_size fs documents p q) as [??];
      auto using present_digest_size.
Qed.

(** C3. The hasher returns a digest or none and never raises; when the
    file cannot be opened or a read fails it returns none.
    [find_duplicates] drops every record without a digest: such a record
    is in no returned group, whatever else is in the input. *)
Theorem unreadable_file_excluded (fs : FS) :
  (∀ p chunk_size, ∃ d, Root.get_file_hash fs p chunk_size = Ok d
                        ∧ Scripts.get_file_hash fs p chunk_size = Ok d)
  ∧ (∀ p chunk_size e,
       open_rb fs p = Raise e → Root.get_file_hash fs p chunk_size = Ok None)
  ∧ (∀ p chunk_size f e,
       open_rb fs p = Ok f →
       Root.read_chunks (S (length (h_rest f))) f chunk_size md5_new = Raise e →
       Root.get_file_hash fs p chunk_size = Ok None)
  ∧ (∀ documents p,
       Root.get_file_hash fs p 8192 = Ok None →
       ∃ gs, Root.find_duplicates fs documents = Ok gs
             ∧ Scripts.find_duplicates fs documents = Ok gs
             ∧ ∀ h g, (h, g) ∈ gs → p ∉ g).
Proof.
  split_and!.
  - intros p chunk_size. destruct (get_file_hash_total fs p chunk_size) as [d Hd].
    exists d. by split.
  - intros. by eapply get_file_hash_open_fails.
  - intros. by eapply get_file_hash_read_fails.
  - intros documents p Hnone.
    change (Scripts.find_duplicates fs documents) with (Root.find_duplicates fs documents).
    rewrite find_duplicates_pure.
    eexists. split_and!; [done..|].
    intros h g [-> _]%elem_of_duplicates [Hk _]%list_elem_of_filter.
    apply hash_key_Some in Hk as [Hd _]. unfold digest in Hd.
    by rewrite Hnone in Hd.
Qed.

Lemma sublist_concat {A} (l1 l2 : list (list A)) :
  l1 `sublist_of` l2 → concat l1 `sublist_of` concat l2.
Proof.
  induction 1 as [|x l1 l2 _ IH|x l1 l2 _ IH]; cbn; [done|..].
  - by apply sublist_app.
  - by apply sublist_inserts_l.
Qed.

(** C10. For an input with pairwise distinct paths the returned groups are
    pairwise disjoint: the groups have distinct digests, a record that is
    in two of them is in one and the same group, no record occurs twice in
    a group, and so no record occurs twice in all groups together. *)
Theorem duplicate_groups_disjoint (fs : FS) (documents : list Path) :
  NoDup documents →
  ∃ gs, Root.find_duplicates fs documents = Ok gs
        ∧ Scripts.find_duplicates fs documents = Ok gs
        ∧ NoDup gs.*1
        ∧ (∀ h1 g1 h2 g2 p,
             (h1, g1) ∈ gs → (h2, g2) ∈ gs → p ∈ g1 → p ∈ g2 → h1 = h2 ∧ g1 = g2)
        ∧ (∀ h g, (h, g) ∈ gs → NoDup g)
        ∧ NoDup (concat gs.*2).
Proof.
  intros Hnd.
  change (Scripts.find_duplicates fs documents) with (Root.find_duplicates fs documents).
  rewrite find_duplicates_pure.
  eexists. split_and!; [done..| | | |].
  - apply (sublist_NoDup _ (hash_groups fs documents).*1).
    + apply group_by_key_NoDup. constructor.
    + apply fmap_sublist. apply sublist_filter.
  - intros h1 g1 h2 g2 p [-> _]%elem_of_duplicates [-> _]%elem_of_duplicates
      [H1 _]%list_elem_of_filter [H2 _]%list_elem_of_filter.
    assert (h1 = h2) as -> by congruence. done.
  - intros h g [-> _]%elem_of_duplicates.
    by apply NoDup_filter, hashing_pass_NoDup.
  - apply (sublist_NoDup _ (concat (hash_groups fs documents).*2));
      [by apply hash_groups_NoDup|].
    apply sublist_concat. apply fmap_sublist. apply sublist_filter.
Qed.

End finder_claims.

(** The end-to-end scenario of the specification: [/a] and [/b] form the
    only group, [/c] is in none. *)
Example find_duplicates_trio :
  @Root.find_duplicates demo_md5 trio_fs ["/a"; "/b"; "/c"]
  = Ok [("md5:xyz", ["/a"; "/b"])].
Proof. vm_compute. reflexivity. Qed.

Example find_duplicates_stale :
  @Root.find_duplicates demo_md5 stale_fs ["/a"; "/b"; "/c"; "/d"]
  = Ok [("md5:x", ["/a"; "/b"; "/c"; "/d"])].
Proof. vm_compute. reflexivity. Qed.

Lemma find_duplicates_groups_witness :
  @digest_determines_size demo_md5 trio_fs ["/a"; "/b"; "/c"]
  ∧ ∃ gs, @Root.find_duplicates demo_md5 trio_fs ["/a"; "/b"; "/c"] = Ok gs
          ∧ @Scripts.find_duplicates demo_md5 trio_fs ["/a"; "/b"; "/c"] = Ok gs
          ∧ @grouped_by_size_and_digest demo_md5 trio_fs ["/a"; "/b"; "/c"] gs
          ∧ ∀ h g, (h, g) ∈ gs → (2 ≤ length g)%nat.
Proof.
  assert (@digest_determines_size demo_md5 trio_fs ["/a"; "/b"; "/c"]) as Hd.
  { assert (∀ x, x ∈ ["/a"; "/b"; "/c"] → size_of trio_fs x = Some 3) as Hsize.
    { intros x Hx. repeat (apply elem_of_cons in Hx as [->|Hx]; [vm_compute; reflexivity|]).
      by apply elem_of_nil in Hx. }
    intros p q Hp Hq _ _. by rewrite !Hsize. }
  split; [exact Hd|].
  exact (@find_duplicates_groups demo_md5 trio_fs ["/a"; "/b"; "/c"] Hd).
Defined.

(** The claim as stated fails when [stat] and the hasher disagree on which
    files are alike: the digest buckets are global, so [/a] (one byte) and
    [/c] (two bytes) share a group. *)
Lemma find_duplicates_groups_counterexample :
  ∃ gs, @Root.find_duplicates demo_md5 stale_fs ["/a"; "/b"; "/c"; "/d"] = Ok gs
        ∧ ¬ @grouped_by_size_and_digest demo_md5 stale_fs ["/a"; "/b"; "/c"; "/d"] gs.
Proof.
  eexists. split; [apply find_duplicates_stale|].
  intros Hclaim.
  destruct (Hclaim "/a" "/c") as [Hsame _]; [set_solver..|done|].
  destruct Hsame as [Hsize _].
  - exists "md5:x", ["/a"; "/b"; "/c"; "/d"]. set_solver.
  - vm_compute in Hsize. discriminate.
Qed.

(** Reading in chunks of two bytes: three chunks and the end of the file
    for [/a]; for [/b] the second [read] raises and the hasher reports no
    digest, so the pair is not reported. *)
Example get_file_hash_chunks :
  @Root.get_file_hash demo_md5 failing_fs "/a" 2 = Ok (Some "md5:hello")
  ∧ @Root.get_file_hash demo_md5 failing_fs "/b" 2 = Ok None
  ∧ @Root.get_file_hash demo_md5 failing_fs "/missing" 2 = Ok None
  ∧ @Root.find_duplicates demo_md5 failing_fs ["/a"; "/b"] = Ok [].
Proof. vm_compute. done. Qed.

Lemma unreadable_file_excluded_witness :
  @Root.get_file_hash demo_md5 denied_fs "/b" 8192 = Ok None
  ∧ ∃ gs, @Root.find_duplicates demo_md5 denied_fs ["/a"; "/b"] = Ok gs
          ∧ @Scripts.find_duplicates demo_md5 denied_fs ["/a"; "/b"] = Ok gs
          ∧ ∀ h g, (h, g) ∈ gs → "/b" ∉ g.
Proof.
  assert (@Root.get_file_hash demo_md5 denied_fs "/b" 8192 = Ok None) as Hnone
    by (vm_compute; reflexivity).
  split; [exact Hnone|].
  exact (proj2 (proj2 (proj2 (@unreadable_file_excluded demo_md5 denied_fs)))
           ["/a"; "/b"] "/b" Hnone).
Defined.

Lemma duplicate_groups_disjoint_witness :
  NoDup ["/a"; "/b"; "/c"]
  ∧ ∃ gs, @Root.find_duplicates demo_md5 trio_fs ["/a"; "/b"; "/c"] = Ok gs
          ∧ @Scripts.find_duplicates demo_md5 trio_fs ["/a"; "/b"; "/c"] = Ok gs
          ∧ NoDup gs.*1
          ∧ (∀ h1 g1 h2 g2 p,
               (h1, g1) ∈ gs → (h2, g2) ∈ gs → p ∈ g1 → p ∈ g2 → h1 = h2 ∧ g1 = g2)
          ∧ (∀ h g, (h, g) ∈ gs → NoDup g)
          ∧ NoDup (concat gs.*2).
Proof.
  assert (NoDup ["/a"; "/b"; "/c"]) as Hnd
    by (apply (bool_decide_unpack _); vm_compute; exact I).
  split; [exact Hnd|].
  exact (@duplicate_groups_disjoint demo_md5 trio_fs ["/a"; "/b"; "/c"] Hnd).
Defined.

(** ** The order inside a group *)

Section scan_order.
Context `{Hashlib}.
Implicit Types (fs : FS) (documents : list Path).

Lemma filter_none {A} (P : A → Prop) `{∀ x, Decision (P x)} (l : list A) :
  (∀ x, x ∈ l → ¬ P x) → filter P l = [].
Proof.
  induction l as [|x l IH]; intros Hno; [done|].
  rewrite filter_cons, decide_False by (apply Hno; left).
  apply IH. intros y Hy. apply Hno. by right.
Qed.

Lemma filter_concat_buckets {K A} (P : A → Prop) `{∀ x, Decision (P x)}
    (Q : list A → Prop) `{∀ g, Decision (Q g)} (d : defaultdict K A) :
  filter P (concat (filter Q d.*2))
  = concat ((λ kv, if decide (Q kv.2) then filter P kv.2 else []) <$> d).
Proof.
  induction d as [|[k b] d IH]; [done|].
  rewrite !fmap_cons, filter_cons. cbn [snd concat]. case_decide.
  - cbn [concat]. by rewrite filter_app, IH.
  - by rewrite IH.
Qed.

Lemma concat_one_bucket {K A} `{EqDecision K} (F : K * list A → list A)
    (d : defaultdict K A) k :
  NoDup d.*1 →
  (∀ k' b, (k', b) ∈ d → k' ≠ k → F (k', b) = []) →
  concat (F <$> d) = from_option (λ b, F (k, b)) [] (dd_get k d).
Proof.
  induction d as [|[k0 b0] d IH]; intros Hnd Hother; [done|].
  apply NoDup_cons in Hnd as [Hk0 Hnd]. cbn in Hk0. rewrite fmap_cons. cbn [concat dd_get].
  case_decide as Hk.
  - subst k0. cbn. rewrite (IH Hnd).
    + apply dd_get_None in Hk0. rewrite Hk0. cbn. by rewrite app_nil_r.
    + intros k' b Hin Hne. apply Hother; [by right|done].
  - rewrite (Hother k0 b0) by (by left || done). cbn. apply IH; [done|].
    intros k' b Hin Hne. apply Hother; [by right|done].
Qed.

(** When records with one present digest have one size, a group lists its
    members in the order of the input. *)
Lemma duplicate_group_scan_order fs documents gs h g :
  digest_determines_size fs documents →
  Root.find_duplicates fs documents = Ok gs → (h, g) ∈ gs →
  g `sublist_of` documents.
Proof.
  intros Hsize. rewrite find_duplicates_pure. intros [= <-] [Hg Hlen]%elem_of_duplicates.
  destruct g as [|p0 g0] eqn:Hg0; [cbn in Hlen; lia|]. rewrite <-Hg0 in *. clear Hlen.
  assert (p0 ∈ g) as Hp0 by (rewrite Hg0; left).
  rewrite Hg in Hp0. apply list_elem_of_filter in Hp0 as [Hk0 Hp0].
  apply elem_of_hashing_pass in Hp0 as (Hdoc0 & s & Hs & _).
  apply hash_key_Some in Hk0 as [Hd0 Hpres0].
  assert (∀ x, x ∈ documents → hash_key fs x = Some h → size_of fs x = Some s) as Hall.
  { intros x Hx [Hdx _]%hash_key_Some. rewrite <-Hs. symmetry.
    apply Hsize; [done..|congruence]. }
  rewrite Hg. unfold hashing_pass. rewrite filter_concat_buckets.
  rewrite (concat_one_bucket _ _ s).
  - destruct (dd_get s (size_groups fs documents)) as [b|] eqn:Hb; [|apply sublist_nil_l].
    cbn. apply dd_get_Some_elem_of, elem_of_size_groups in Hb as [-> _].
    case_decide; [|apply sublist_nil_l].
    etrans; apply sublist_filter.
  - apply group_by_key_NoDup. constructor.
  - intros s' b [-> _]%elem_of_size_groups Hne. cbn. case_decide; [|done].
    apply filter_none. intros x [Hs' Hx]%list_elem_of_filter Hk. apply Hall in Hk; [|done]. congruence.
Qed.

End scan_order.

(** ** Sorting by a float key *)

Lemma float_lt_irrefl a : float_lt a a = false.
Proof. destruct a; cbn; [|done]. apply bool_decide_eq_false. lia. Qed.

Lemma float_lt_asym a b : float_lt a b = true → float_lt b a = false.
Proof.
  destruct a, b; cbn; try done.
  rewrite bool_decide_eq_true, bool_decide_eq_false. lia.
Qed.

Lemma float_lt_neq a b : float_lt a b = true → a ≠ b.
Proof. intros Hlt ->. by rewrite float_lt_irrefl in Hlt. Qed.

Lemma float_le_refl a : float_le a a.
Proof. apply float_lt_irrefl. Qed.

Lemma float_le_trans a b c : float_le a b → float_le b c → float_le a c.
Proof.
  unfold float_le. destruct a, b, c; cbn; try done.
  rewrite !bool_decide_eq_false. lia.
Qed.

Lemma float_le_antisym a b : float_le a b → float_le b a → a = b.
Proof.
  unfold float_le. destruct a, b; cbn; try done.
  rewrite !bool_decide_eq_false. intros. f_equal. lia.
Qed.

Lemma float_lt_le a b : float_lt a b = true → float_le a b.
Proof. apply float_lt_asym. Qed.

Lemma float_le_Finite_inv a t : float_le a (Finite t) → ∃ t', a = Finite t'.
Proof. destruct a; [eauto|done]. Qed.

Section sorting.
Context {A : Type}.
Implicit Types (x y : pyfloat * A) (l : list (pyfloat * A)).

Lemma insert_sorted_perm x l : insert_sorted x l ≡ₚ x :: l.
Proof.
  induction l as [|y l IH]; cbn; [done|].
  destruct (float_lt y.1 x.1); [|done]. by rewrite IH, Permutation_swap.
Qed.

Lemma sort_keyed_perm l : sort_keyed l ≡ₚ l.
Proof.
  induction l as [|x l IH]; cbn; [done|].
  fold (sort_keyed l). by rewrite insert_sorted_perm, IH.
Qed.

Lemma insert_sorted_sorted x l :
  StronglySorted keyed_le l → StronglySorted keyed_le (insert_sorted x l).
Proof.
  induction 1 as [|y l Hl IH Hy]; cbn; [repeat constructor|].
  destruct (float_lt y.1 x.1) eqn:Hlt.
  - constructor; [done|]. rewrite insert_sorted_perm.
    constructor; [by apply float_lt_le|done].
  - constructor; [by constructor|]. constructor; [done|].
    eapply Forall_impl; [done|]. intros z Hz. by eapply float_le_trans.
Qed.

Lemma sort_keyed_sorted l : StronglySorted keyed_le (sort_keyed l).
Proof.
  induction l as [|x l IH]; cbn; [constructor|]. by apply insert_sorted_sorted.
Qed.

(** The sort is stable: elements of one key keep their order. *)
Lemma insert_sorted_stable x l t :
  filter (λ y, y.1 = t) (insert_sorted x l) = filter (λ y, y.1 = t) (x :: l).
Proof.
  induction l as [|y l IH]; [done|]. cbn [insert_sorted].
  destruct (float_lt y.1 x.1) eqn:Hlt; [|done].
  rewrite (filter_cons _ y), IH, !filter_cons.
  destruct (decide (x.1 = t)) as [Hx|Hx], (decide (y.1 = t)) as [Hy|Hy]; try done.
  apply float_lt_neq in Hlt. congruence.
Qed.

Lemma sort_keyed_stable l t :
  filter (λ y, y.1 = t) (sort_keyed l) = filter (λ y, y.1 = t) l.
Proof.
  induction l as [|x l IH]; cbn; [done|]. fold (sort_keyed l).
  by rewrite insert_sorted_stable, !filter_cons, IH.
Qed.

(** A sorted list is determined by its elements of every key, in order:
    there is one stable sort. *)
Lemma sorted_keys_unique l1 l2 :
  StronglySorted keyed_le l1 → StronglySorted keyed_le l2 →
  (∀ t, filter (λ y, y.1 = t) l1 = filter (λ y, y.1 = t) l2) →
  l1 = l2.
Proof.
  intros Hs1. revert l2. induction Hs1 as [|a l1 Hs1 IH Ha]; intros l2 Hs2 Hf.
  - destruct l2 as [|b l2]; [done|].
    specialize (Hf b.1). rewrite filter_cons, decide_True in Hf by done. done.
  - destruct Hs2 as [|b l2 Hs2 Hb].
    { specialize (Hf a.1). rewrite filter_cons, decide_True in Hf by done. done. }
    assert (a.1 = b.1) as Hab.
    { apply float_le_antisym.
      - pose proof (Hf b.1) as Hfb. rewrite (filter_cons _ b), decide_True in Hfb by done.
        assert (b ∈ filter (λ y, y.1 = b.1) (a :: l1)) as Hin by (rewrite Hfb; left).
        apply list_elem_of_filter in Hin as [_ [->|Hin]%elem_of_cons];
          [apply float_le_refl|].
        by apply (proj1 (Forall_forall _ _) Ha).
      - pose proof (Hf a.1) as Hfa. rewrite (filter_cons _ a), decide_True in Hfa by done.
        assert (a ∈ filter (λ y, y.1 = a.1) (b :: l2)) as Hin by (rewrite <-Hfa; left).
        apply list_elem_of_filter in Hin as [_ [->|Hin]%elem_of_cons];
          [apply float_le_refl|].
        by apply (proj1 (Forall_forall _ _) Hb). }
    pose proof (Hf a.1) as Hfa.
    rewrite !filter_cons, decide_True, decide_True in Hfa by done.
    injection Hfa as -> Htl. f_equal. apply IH; [done|].
    intros t. destruct (decide (t = b.1)) as [->|Ht]; [exact Htl|].
    specialize (Hf t). by rewrite !filter_cons, !decide_False in Hf by congruence.
Qed.

(** [sort_keyed] is the stable sort: any sorted list with the same elements
    of every key, in the same order, is its output. *)
Lemma sort_keyed_spec l l' :
  StronglySorted keyed_le l' →
  (∀ t, filter (λ y, y.1 = t) l' = filter (λ y, y.1 = t) l) →
  l' = sort_keyed l.
Proof.
  intros Hsorted Hstable. apply sorted_keys_unique; [done|apply sort_keyed_sorted|].
  intros t. by rewrite sort_keyed_stable.
Qed.

(** The head of the sorted list is the first element with the least key. *)
Lemma sort_keyed_head l k rest :
  sort_keyed l = k :: rest →
  ∃ before after,
    l = before ++ k :: after
    ∧ (∀ y, y ∈ before → float_lt k.1 y.1 = true)
    ∧ (∀ y, y ∈ after → float_le k.1 y.1).
Proof.
  revert k rest. induction l as [|x l IH]; intros k rest; cbn; [done|].
  fold (sort_keyed l). destruct (sort_keyed l) as [|k' rest'] eqn:Hsort.
  - apply (f_equal length) in Hsort as Hlen.
    rewrite sort_keyed_perm in Hlen. destruct l; [|done].
    cbn. intros [= <- <-]. exists [], []. split_and!; [done|..]; by intros ? ?%elem_of_nil.
  - destruct (IH k' rest' eq_refl) as (before & after & -> & Hbefore & Hafter).
    cbn. destruct (float_lt k'.1 x.1) eqn:Hlt; intros [= <- <-].
    + exists (x :: before), after. split_and!; [done| |done].
      intros y [->|Hy]%elem_of_cons; eauto.
    + exists [], (before ++ k' :: after). split_and!; [done|by intros ? ?%elem_of_nil|].
      intros y Hy. apply (float_le_trans _ k'.1); [done|].
      apply elem_of_app in Hy as [Hy|[->|Hy]%elem_of_cons];
        [by apply float_lt_le, Hbefore|apply float_le_refl|by apply Hafter].
Qed.

End sorting.

(** ** The keeper selection *)

Section keeper.
Implicit Types (fs : FS) (files : list Path).

Lemma get_creation_time_eq fs p :
  Root.get_creation_time fs p = Ok (creation_time fs p).
Proof. unfold Root.get_creation_time, creation_time, stat. by destruct (fs !! p). Qed.

Lemma keys_pure {A} (key : A → result pyfloat) (f : A → pyfloat) (l : list A) acc :
  (∀ x, key x = Ok (f x)) →
  for_each l (λ acc x, k ← key x; Ok (acc ++ [(k, x)])) acc
  = Ok (acc ++ ((λ x, (f x, x)) <$> l)).
Proof.
  intros Hkey. revert acc. induction l as [|x l IH]; intros acc; cbn.
  - by rewrite app_nil_r.
  - rewrite Hkey. cbn. rewrite IH. by rewrite <-(assoc_L (++)).
Qed.

Lemma select_keeper_pure fs files :
  Root.select_keeper fs files
  = match sort_keyed (with_creation_time fs files) with
    | [] => Raise IndexError
    | k :: rest => Ok (k.2, rest.*2)
    end.
Proof.
  unfold Root.select_keeper, sorted.
  rewrite (keys_pure _ (creation_time fs)) by apply get_creation_time_eq.
  cbn -[sort_keyed]. fold (with_creation_time fs files).
  by destruct (sort_keyed (with_creation_time fs files)).
Qed.

Lemma with_creation_time_keys fs files :
  Forall (λ y, y.1 = creation_time fs y.2) (with_creation_time fs files).
Proof. apply Forall_fmap, Forall_true. done. Qed.

Lemma with_creation_time_snd fs files : (with_creation_time fs files).*2 = files.
Proof.
  unfold with_creation_time. rewrite <-list_fmap_compose. apply list_fmap_id.
Qed.

Lemma filter_keyed fs (l : list (pyfloat * Path)) t :
  Forall (λ y, y.1 = creation_time fs y.2) l →
  filter (λ f, creation_time fs f = t) l.*2 = (filter (λ y, y.1 = t) l).*2.
Proof.
  induction 1 as [|y l Hy _ IH]; [done|].
  rewrite fmap_cons, !filter_cons, IH, <-Hy. by case_decide.
Qed.

Lemma keyed_split fs files (before after : list (pyfloat * Path)) k :
  with_creation_time fs files = before ++ k :: after →
  files = before.*2 ++ k.2 :: after.*2 ∧ k.1 = creation_time fs k.2.
Proof.
  intros Heq. split.
  - by rewrite <-(with_creation_time_snd fs files), Heq, fmap_app.
  - pose proof (with_creation_time_keys fs files) as Hall. rewrite Heq in Hall.
    by apply Forall_app in Hall as [_ [? _]%Forall_cons].
Qed.


End keeper.

Example select_keeper_tie :
  Root.select_keeper keeper_fs ["/gone"; "/late"; "/old"; "/tie"]
  = Ok ("/old", ["/tie"; "/late"; "/gone"]).
Proof. vm_compute. reflexivity. Qed.

Example select_keeper_empty : Root.select_keeper keeper_fs [] = Raise IndexError.
Proof. reflexivity. Qed.

(** The end-to-end scenario of the specification: of the pair created at
    [t=1] and [t=2] the first is kept. *)
Example select_keeper_trio : Root.select_keeper trio_fs ["/a"; "/b"] = Ok ("/a", ["/b"]).
Proof. vm_compute. reflexivity. Qed.


(** ** Size formatting *)

Lemma round_half_even_near num den :
  0 < den → 2 * Z.abs (round_half_even num den * den - num) ≤ den.
Proof.
  intros Hden. unfold round_half_even.
  pose proof (Z.div_mod num den ltac:(lia)) as Hdiv.
  pose proof (Z.mod_pos_bound num den Hden) as Hmod.
  repeat case_decide; [lia|lia|destruct (Z.even _); lia].
Qed.

Lemma to_double_small n : 0 ≤ n < 2 ^ 53 → to_double n = n.
Proof.
  intros [Hn0 Hn]. unfold to_double. rewrite decide_True; [done|].
  destruct (decide (n = 0)) as [->|Hne]; [done|].
  assert (Z.log2 n < 53) by (apply Z.log2_lt_pow2; lia). lia.
Qed.

(** Below [2**53] the printed number is the quotient rounded to [d] decimals:
    read as [t / 10**d] it is within half a unit of the last decimal. *)
Lemma format_quotient_near n k d :
  0 ≤ n < 2 ^ 53 → 0 ≤ k →
  ∃ t, format_quotient n k d
       = pretty (t `div` 10 ^ Z.of_nat d) +:+ "."
         +:+ zfill d (pretty (t `mod` 10 ^ Z.of_nat d))
       ∧ 2 * Z.abs (t * 2 ^ k - n * 10 ^ Z.of_nat d) ≤ 2 ^ k.
Proof.
  intros Hn Hk. exists (round_half_even (n * 10 ^ Z.of_nat d) (2 ^ k)). split.
  - unfold format_quotient. rewrite Z.abs_eq, to_double_small, decide_False by lia.
    done.
  - apply round_half_even_near. by apply Z.pow_pos_nonneg.
Qed.

Example format_size_512 : Scripts.format_size 512 = "512 B".
Proof. vm_compute. reflexivity. Qed.

Example format_size_2048 : Scripts.format_size 2048 = "2.0 KB".
Proof. vm_compute. reflexivity. Qed.

Example format_size_5MB : Scripts.format_size (5 * 1024 ^ 2) = "5.00 MB".
Proof. vm_compute. reflexivity. Qed.

Example format_size_3GB : Scripts.format_size (3 * 1024 ^ 3) = "3.00 GB".
Proof. vm_compute. reflexivity. Qed.

(** Rounding: 1587 / 1024 = 1.5498..., and the tie 1075.2 does not occur on
    integers; the largest value below a unit prints in the unit below. *)
Example format_size_rounding :
  Scripts.format_size 1587 = "1.5 KB"
  ∧ Scripts.format_size 0 = "0 B"
  ∧ Scripts.format_size 1023 = "1023 B"
  ∧ Scripts.format_size (1024 ^ 3 - 1) = "1024.00 MB".
Proof. vm_compute. done. Qed.

Lemma format_size_unit n :
  Scripts.format_size n
  = if decide (1024 ^ 3 ≤ n) then scaled n GB +:+ " " +:+ unit_label GB
    else if decide (1024 ^ 2 ≤ n) then scaled n MB +:+ " " +:+ unit_label MB
    else if decide (1024 ≤ n) then scaled n KB +:+ " " +:+ unit_label KB
    else scaled n B +:+ " " +:+ unit_label B.
Proof. unfold Scripts.format_size. by repeat case_decide. Qed.

(** ** Strings built by appending *)

Lemma string_app_cons (x : ascii) (a b : string) :
  String x a +:+ b = String x (a +:+ b).
Proof. reflexivity. Qed.

Lemma string_app_nil_l (a : string) : "" +:+ a = a.
Proof. reflexivity. Qed.

Lemma string_app_assoc (a b c : string) : (a +:+ b) +:+ c = a +:+ (b +:+ c).
Proof.
  induction a as [|x a IH]; [done|]. by rewrite !string_app_cons, IH.
Qed.

Lemma string_app_nil_r (a : string) : a +:+ "" = a.
Proof. induction a as [|x a IH]; [done|]. by rewrite string_app_cons, IH. Qed.

Lemma string_app_length (a b : string) :
  String.length (a +:+ b) = (String.length a + String.length b)%nat.
Proof.
  induction a as [|x a IH]; [done|]. rewrite string_app_cons. cbn. by rewrite IH.
Qed.

Lemma string_app_inv_tail (a b c : string) : a +:+ c = b +:+ c → a = b.
Proof.
  revert b. induction a as [|x a IH]; intros [|y b] Heq; [done|..].
  - apply (f_equal String.length) in Heq.
    rewrite string_app_nil_l, string_app_cons in Heq. cbn in Heq.
    rewrite string_app_length in Heq. lia.
  - apply (f_equal String.length) in Heq.
    rewrite string_app_nil_l, string_app_cons in Heq. cbn in Heq.
    rewrite string_app_length in Heq. lia.
  - rewrite !string_app_cons in Heq. injection Heq as -> Heq. f_equal. by apply IH.
Qed.

Lemma foldl_appends {X} (f : string → X → string) (l : list X) :
  (∀ x, ∃ piece, ∀ acc, f acc x = acc +:+ piece) →
  ∃ rest, ∀ init, foldl f init l = init +:+ rest.
Proof.
  intros Hf. induction l as [|x l [rest IH]]; cbn.
  - exists "". intros init. by rewrite string_app_nil_r.
  - destruct (Hf x) as [piece Hpiece]. exists (piece +:+ rest). intros init.
    by rewrite Hpiece, IH, string_app_assoc.
Qed.

(** ** The report *)

Section report.
Implicit Types (results : run_result) (q : Path) (w : World) (t : datetime).

Lemma root_report_world results q w :
  Root.generate_report results q w
  = (Ok (report_at Root.generate_report (w_now w) results q), w).
Proof. reflexivity. Qed.

Lemma scripts_report_world results q w :
  Scripts.generate_report results q w
  = (Ok (report_at Scripts.generate_report (w_now w) results q), w).
Proof. reflexivity. Qed.

Lemma root_report_groups results :
  ∃ rest, ∀ init,
    foldl (λ report '(i, group),
      let report := report +:+ "### 组 " +:+ pretty i +:+ nl +:+ nl in
      let report := report +:+ "**保留**：`" +:+ keeper group +:+ "`" +:+ nl +:+ nl in
      let report := report +:+ "**移除**：" +:+ nl in
      let report := foldl (λ report removed,
        report +:+ "- `" +:+ original removed +:+ "` → `"
               +:+ str_opt (quarantine removed) +:+ "`" +:+ nl) report (removed group) in
      report +:+ nl) init
      (zip (Z.of_nat <$> seq 1 (length (groups results))) (groups results))
    = init +:+ rest.
Proof.
  apply foldl_appends. intros [i group].
  destruct (foldl_appends (λ report removed,
    report +:+ "- `" +:+ original removed +:+ "` → `"
           +:+ str_opt (quarantine removed) +:+ "`" +:+ nl) (removed group))
    as [inner Hinner]; [by eexists|].
  eexists. intros acc. cbn zeta. rewrite Hinner, !string_app_assoc. reflexivity.
Qed.

(** The text is a fixed prefix, the clock reading and a rest that does not
    depend on the clock; the rest starts with the summary table. *)
Lemma root_report_split results q :
  ∃ rest, ∀ t,
    report_at Root.generate_report t results q
    = "# 微信文档去重报告" +:+ nl +:+ nl +:+ "**执行时间**：" +:+ strftime t +:+ nl
      +:+ nl +:+ "## 统计摘要" +:+ nl +:+ nl +:+ "| 指标 | 数值 |" +:+ nl
      +:+ "|------|------|" +:+ nl
      +:+ "| 重复组数 | " +:+ pretty (Z.of_nat (length (groups results))) +:+ " |" +:+ nl
      +:+ "| 移除文件数 | " +:+ pretty (removed_count results) +:+ " |" +:+ nl
      +:+ "| 节省空间 | " +:+ format_quotient (saved_bytes results) 20 2 +:+ " MB |" +:+ nl
      +:+ rest.
Proof.
  destruct (root_report_groups results) as [body Hbody].
  eexists. intros t. unfold report_at, Root.generate_report.
  unfold mbind, M_bind, now, mret, M_ret. cbn [fst w_now demo_world].
  rewrite Hbody. unfold lines. cbn [fmap list_fmap String.concat].
  rewrite !string_app_nil_l, !string_app_assoc. reflexivity.
Qed.

Lemma scripts_report_groups (by_type : defaultdict string group_info) :
  ∃ rest, ∀ init,
    foldl (λ report '(file_type, groups),
      let report := report +:+ "### " +:+ file_type +:+ nl +:+ nl in
      foldl (λ report '(i, group),
        let keeper_name := name (keeper group) in
        let report := report +:+ "**组 " +:+ pretty i +:+ "** - 保留：`"
                             +:+ keeper_name +:+ "`" +:+ nl in
        let report := foldl (λ report removed,
          let removed_name := name (original removed) in
          report +:+ "- `" +:+ removed_name +:+ "` ("
                 +:+ Scripts.format_size (size removed) +:+ ")" +:+ nl) report (removed group) in
        report +:+ nl) report (zip (Z.of_nat <$> seq 1 (length groups)) groups)) init by_type
    = init +:+ rest.
Proof.
  apply foldl_appends. intros [file_type groups].
  destruct (foldl_appends (λ report '(i, group),
    let keeper_name := name (keeper group) in
    let report := report +:+ "**组 " +:+ pretty i +:+ "** - 保留：`"
                         +:+ keeper_name +:+ "`" +:+ nl in
    let report := foldl (λ report removed,
      let removed_name := name (original removed) in
      report +:+ "- `" +:+ removed_name +:+ "` ("
             +:+ Scripts.format_size (size removed) +:+ ")" +:+ nl) report (removed group) in
    report +:+ nl) (zip (Z.of_nat <$> seq 1 (length groups)) groups)) as [inner Hinner].
  { intros [i group].
    destruct (foldl_appends (λ report removed,
      let removed_name := name (original removed) in
      report +:+ "- `" +:+ removed_name +:+ "` ("
             +:+ Scripts.format_size (size removed) +:+ ")" +:+ nl) (removed group))
      as [lines Hlines]; [by eexists|].
    eexists. intros acc. cbn zeta. rewrite Hlines, !string_app_assoc. reflexivity. }
  eexists. intros acc. cbn zeta. rewrite Hinner, !string_app_assoc. reflexivity.
Qed.

Lemma scripts_report_split results q :
  ∃ rest, ∀ t,
    report_at Scripts.generate_report t results q
    = "# 微信文件去重报告" +:+ nl +:+ nl +:+ "**执行时间**：" +:+ strftime t +:+ nl
      +:+ nl +:+ "## 统计摘要" +:+ nl +:+ nl +:+ "| 指标 | 数值 |" +:+ nl
      +:+ "|------|------|" +:+ nl
      +:+ "| 重复组数 | " +:+ pretty (Z.of_nat (length (groups results))) +:+ " |" +:+ nl
      +:+ "| 移除文件数 | " +:+ pretty (removed_count results) +:+ " |" +:+ nl
      +:+ "| 节省空间 | " +:+ Scripts.format_size (saved_bytes results) +:+ " |" +:+ nl
      +:+ rest.
Proof.
  destruct (scripts_report_groups
    (foldl (λ by_type group,
       let file_type := default "未知" (type group) in
       dd_append file_type group by_type) [] (groups results))) as [body Hbody].
  eexists. intros t. unfold report_at, Scripts.generate_report.
  unfold mbind, M_bind, now, mret, M_ret. cbn [fst w_now demo_world].
  rewrite Hbody. unfold lines. cbn [fmap list_fmap String.concat].
  rewrite !string_app_nil_l, !string_app_assoc. reflexivity.
Qed.

Lemma root_report_clock results q t1 t2 :
  report_at Root.generate_report t1 results q = report_at Root.generate_report t2 results q
  ↔ strftime t1 = strftime t2.
Proof.
  destruct (root_report_split results q) as [rest Hsplit]. rewrite !Hsplit. split.
  - intros Heq. do 4 apply (inj (String.append _)) in Heq.
    by apply string_app_inv_tail in Heq.
  - by intros ->.
Qed.

Lemma scripts_report_clock results q t1 t2 :
  report_at Scripts.generate_report t1 results q
  = report_at Scripts.generate_report t2 results q
  ↔ strftime t1 = strftime t2.
Proof.
  destruct (scripts_report_split results q) as [rest Hsplit]. rewrite !Hsplit. split.
  - intros Heq. do 4 apply (inj (String.append _)) in Heq.
    by apply string_app_inv_tail in Heq.
  - by intros ->.
Qed.

(** C6 (amended). [generate_report] (either variant) performs no file or
    console I/O and never fails: it leaves the world as it is.  It reads the
    clock, and the rendered text is a function of the run result, the
    quarantine path and the clock reading: two calls with the same run
    result and path render the same text exactly when their clock readings
    agree to the second. *)
Theorem generate_report_reads_clock results q :
  (∀ w, Root.generate_report results q w
        = (Ok (report_at Root.generate_report (w_now w) results q), w)
        ∧ Scripts.generate_report results q w
          = (Ok (report_at Scripts.generate_report (w_now w) results q), w))
  ∧ (∀ t1 t2,
       report_at Root.generate_report t1 results q
       = report_at Root.generate_report t2 results q
       ↔ strftime t1 = strftime t2)
  ∧ (∀ t1 t2,
       report_at Scripts.generate_report t1 results q
       = report_at Scripts.generate_report t2 results q
       ↔ strftime t1 = strftime t2).
Proof.
  split_and!.
  - intros w. split; [apply root_report_world|apply scripts_report_world].
  - intros. apply root_report_clock.
  - intros. apply scripts_report_clock.
Qed.

(** C7 (amended). In src/wechat-dedup/scripts/dedup.py a byte count is
    printed by [format_size] in the largest of the units B, KB, MB, GB (powers
    of 1024) of which it holds at least one, and in B below 1024; the
    number in front of KB, MB or GB is the quotient rounded to one or two
    decimals; 512, 2048, 5*1024**2 and 3*1024**3 print as "512 B",
    "2.0 KB", "5.00 MB" and "3.00 GB"; the summary of the report prints the
    saved bytes this way.
    The report of src/dedup.py prints the saved bytes in MB with two
    decimals, whatever their number. *)
Theorem format_size_scaling :
  (∀ n, ∃ u, Scripts.format_size n = scaled n u +:+ " " +:+ unit_label u
             ∧ (1 ≤ n → unit_bytes u ≤ n)
             ∧ (∀ u', unit_bytes u' ≤ n → unit_bytes u' ≤ unit_bytes u))
  ∧ (∀ n k d, 0 ≤ n < 2 ^ 53 → 0 ≤ k →
       ∃ m, format_quotient n k d
            = pretty (m `div` 10 ^ Z.of_nat d) +:+ "."
              +:+ zfill d (pretty (m `mod` 10 ^ Z.of_nat d))
            ∧ 2 * Z.abs (m * 2 ^ k - n * 10 ^ Z.of_nat d) ≤ 2 ^ k)
  ∧ Scripts.format_size 512 = "512 B"
  ∧ Scripts.format_size 2048 = "2.0 KB"
  ∧ Scripts.format_size (5 * 1024 ^ 2) = "5.00 MB"
  ∧ Scripts.format_size (3 * 1024 ^ 3) = "3.00 GB"
  ∧ (∀ results q t, ∃ before after,
       report_at Scripts.generate_report t results q
       = before +:+ "| 节省空间 | " +:+ Scripts.format_size (saved_bytes results)
                +:+ " |" +:+ after)
  ∧ (∀ results q t, ∃ before after,
       report_at Root.generate_report t results q
       = before +:+ "| 节省空间 | " +:+ format_quotient (saved_bytes results) 20 2
                +:+ " MB |" +:+ after).
Proof.
  split_and!.
  - intros n. rewrite format_size_unit.
    destruct (decide (1024 ^ 3 ≤ n)); [|destruct (decide (1024 ^ 2 ≤ n));
      [|destruct (decide (1024 ≤ n))]].
    + exists GB. split_and!; [done|done|]. intros []; cbn; lia.
    + exists MB. split_and!; [done|cbn; lia|]. intros []; cbn; lia.
    + exists KB. split_and!; [done|cbn; lia|]. intros []; cbn; lia.
    + exists B. split_and!; [done|cbn; lia|]. intros []; cbn; lia.
  - intros. by apply format_quotient_near.
  - apply format_size_512.
  - apply format_size_2048.
  - apply format_size_5MB.
  - apply format_size_3GB.
  - intros results q t. destruct (scripts_report_split results q) as [rest Hsplit].
    eexists _, _. rewrite Hsplit.
    rewrite <-!(string_app_assoc _ _ ("| 节省空间 | " +:+ _)). reflexivity.
  - intros results q t. destruct (root_report_split results q) as [rest Hsplit].
    eexists _, _. rewrite Hsplit.
    rewrite <-!(string_app_assoc _ _ ("| 节省空间 | " +:+ _)). reflexivity.
Qed.

End report.

(** Two calls with the same run result and path, a second apart. *)
Lemma generate_report_counterexample :
  (Root.generate_report small_run "/q" (demo_world ∅ morning "")).1
  ≠ (Root.generate_report small_run "/q" (demo_world ∅ a_second_later "")).1.
Proof. refine (proj1 (bool_decide_eq_false _) _). vm_compute. reflexivity. Qed.

(** Within one second the text is the same. *)
Example generate_report_same_second :
  (Root.generate_report small_run "/q" (demo_world ∅ morning "")).1
  = (Root.generate_report small_run "/q" (demo_world ∅ a_moment_later "")).1.
Proof. vm_compute. reflexivity. Qed.

(** The report of src/dedup.py for a run that saved 512 bytes. *)
Lemma format_size_scaling_counterexample :
  contains "512 B" (report_at Root.generate_report morning small_run "/q") = false
  ∧ contains "| 节省空间 | 0.00 MB |" (report_at Root.generate_report morning small_run "/q")
    = true.
Proof. vm_compute. done. Qed.

Example scripts_report_small_run :
  contains "| 节省空间 | 512 B |" (report_at Scripts.generate_report morning small_run "/q")
  = true.
Proof. vm_compute. done. Qed.

(** ** The quarantine mover *)

Section mover.
Implicit Types (fs : FS) (w : World) (fp q p : Path).

Lemma exists_true fs p : exists_ fs p = true ↔ is_Some (fs !! p).
Proof. unfold exists_. apply bool_decide_eq_true. Qed.

Lemma exists_false fs p : exists_ fs p = false ↔ fs !! p = None.
Proof. unfold exists_. rewrite bool_decide_eq_false. symmetry. apply eq_None_not_Some. Qed.

Lemma joinpath_inj q a b : joinpath q a = joinpath q b → a = b.
Proof. unfold joinpath. intros Heq. by do 2 apply (inj (String.append _)) in Heq. Qed.

Lemma joinpath_length q a :
  String.length (joinpath q a) = (String.length q + 1 + String.length a)%nat.
Proof. unfold joinpath. rewrite !string_app_length. cbn. lia. Qed.

Lemma candidate_inj fp q i j : candidate fp q (S i) = candidate fp q (S j) → i = j.
Proof.
  cbn [candidate]. intros Heq%joinpath_inj.
  do 2 apply (inj (String.append _)) in Heq.
  apply string_app_inv_tail, (inj pretty) in Heq. lia.
Qed.

Lemma candidate_length fp q k : (String.length q < String.length (candidate fp q k))%nat.
Proof. destruct k; cbn [candidate]; rewrite joinpath_length; lia. Qed.

Lemma some_candidate_free fs fp q :
  ∃ j, (j < S (S (base.size fs)))%nat ∧ exists_ fs (candidate fp q j) = false.
Proof.
  set (cs := (λ j, candidate fp q (S j)) <$> seq 0 (S (base.size fs))).
  assert (NoDup cs) as Hnd.
  { apply NoDup_fmap_2_strong; [|apply NoDup_seq].
    intros i j _ _. apply candidate_inj. }
  destruct (decide (Forall (λ p, exists_ fs p = true) cs)) as [Hall|Hsome].
  - exfalso.
    assert (list_to_set cs ⊆ dom fs) as Hsub.
    { intros p Hp%elem_of_list_to_set. apply elem_of_dom, exists_true.
      by apply (proj1 (Forall_forall _ _) Hall). }
    apply subseteq_size in Hsub.
    rewrite size_list_to_set, size_dom in Hsub by done.
    unfold cs in Hsub. rewrite length_fmap, length_seq in Hsub. lia.
  - apply not_Forall_Exists in Hsome; [|apply _].
    apply Exists_exists in Hsome as (p & Hp & Hfree). cbn in Hfree.
    apply list_elem_of_fmap in Hp as (j & -> & Hj%elem_of_seq).
    exists (S j). split; [lia|]. by destruct (exists_ fs _).
Qed.

Lemma free_target_first fuel fs fp q k :
  (∃ j, (k ≤ j < k + fuel)%nat ∧ exists_ fs (candidate fp q j) = false) →
  ∃ j, (k ≤ j)%nat
       ∧ Root.free_target fuel fs fp q (candidate fp q k) (Z.of_nat (S k))
         = Ok (candidate fp q j)
       ∧ exists_ fs (candidate fp q j) = false
       ∧ ∀ i, (k ≤ i < j)%nat → exists_ fs (candidate fp q i) = true.
Proof.
  revert k. induction fuel as [|fuel IH]; intros k (j & Hj & Hfree); [lia|].
  cbn [Root.free_target].
  destruct (exists_ fs (candidate fp q k)) eqn:Hk.
  - destruct (IH (S k)) as (j' & Hj' & Hrun & Hfree' & Hbefore).
    { exists j. split; [|done]. destruct (decide (j = k)) as [->|]; [congruence|lia]. }
    exists j'. split; [lia|]. split_and!; [|done|].
    + rewrite <-Hrun. f_equal. lia.
    + intros i Hi. destruct (decide (i = k)) as [->|]; [done|]. apply Hbefore. lia.
  - exists k. split_and!; [lia|done|done|]. intros i Hi. lia.
Qed.

Lemma free_target_total fs fp q :
  ∃ j, Root.free_target (S (S (base.size fs))) fs fp q (joinpath q (name fp)) 1
       = Ok (candidate fp q j)
       ∧ exists_ fs (candidate fp q j) = false
       ∧ ∀ i, (i < j)%nat → exists_ fs (candidate fp q i) = true.
Proof.
  destruct (some_candidate_free fs fp q) as (j & Hj & Hfree).
  destruct (free_target_first (S (S (base.size fs))) fs fp q 0) as (j' & _ & Hrun & ? & Hbefore).
  { exists j. split; [lia|done]. }
  exists j'. split_and!; [done..|]. intros i Hi. apply Hbefore. lia.
Qed.

Lemma file_values_insert fs p e :
  fs !! p = None →
  file_values (<[p := e]> fs)
  ≡ₚ match e with File f => [f] | Dir _ => [] end ++ file_values fs.
Proof.
  intros Hp. unfold file_values. rewrite map_to_list_insert by done. by destruct e.
Qed.

Lemma file_values_delete fs p e :
  fs !! p = Some e →
  file_values fs
  ≡ₚ match e with File f => [f] | Dir _ => [] end ++ file_values (delete p fs).
Proof.
  intros Hp. unfold file_values. rewrite <-(map_to_list_delete fs p e) by done.
  by destruct e.
Qed.

Lemma file_values_rename fs src dst e :
  fs !! src = Some e → fs !! dst = None →
  file_values (<[dst := e]> (delete src fs)) ≡ₚ file_values fs.
Proof.
  intros Hsrc Hdst. rewrite file_values_insert, (file_values_delete fs src e); [done..|].
  rewrite lookup_delete_ne; [done|]. congruence.
Qed.

Lemma parents_from_length pre s d :
  d ∈ parents_from pre s → (String.length d ≤ String.length pre + String.length s)%nat.
Proof.
  revert pre. induction s as [|a s IH]; intros pre; cbn [parents_from].
  - by intros ?%elem_of_nil.
  - intros [Hd|Hd]%elem_of_app.
    + case_decide; [|by apply elem_of_nil in Hd].
      apply list_elem_of_singleton in Hd as ->. lia.
    + apply IH in Hd. rewrite string_app_length in Hd. cbn in *. lia.
Qed.

Lemma candidate_not_in_chain fp q k : candidate fp q k ∉ parents q ++ [q].
Proof.
  pose proof (candidate_length fp q k) as Hlen.
  intros [Hin|Hin]%elem_of_app.
  - apply parents_from_length in Hin. cbn in Hin. lia.
  - apply list_elem_of_singleton in Hin. rewrite Hin in Hlen. lia.
Qed.

Lemma mkdirs_spec (chain : list Path) fs :
  let fs' := foldr (λ d fs, if exists_ fs d then fs else <[d := new_dir]> fs) fs chain in
  (∀ p e, fs !! p = Some e → fs' !! p = Some e)
  ∧ (∀ p, fs !! p = None → p ∉ chain → fs' !! p = None)
  ∧ file_values fs' ≡ₚ file_values fs.
Proof.
  induction chain as [|d chain (Hkeep & Hfree & Hfiles)]; cbn; [done|].
  destruct (exists_ _ d) eqn:Hd.
  - split_and!; [done| |done]. intros p Hp Hin. apply Hfree; [done|].
    intros ?. apply Hin. by right.
  - apply exists_false in Hd. split_and!.
    + intros p e Hp. rewrite lookup_insert_ne; [by apply Hkeep|].
      intros ->. apply Hkeep in Hp. congruence.
    + intros p Hp Hin. rewrite lookup_insert_ne.
      * apply Hfree; [done|]. intros ?. apply Hin. by right.
      * intros ->. apply Hin. by left.
    + by rewrite file_values_insert.
Qed.

(** One call of the mover. *)
Lemma move_to_quarantine_spec w fp q :
  ∃ j r w',
    Root.move_to_quarantine fp q w = (r, w')
    ∧ exists_ (w_fs w) (candidate fp q j) = false
    ∧ (∀ i, (i < j)%nat → exists_ (w_fs w) (candidate fp q i) = true)
    ∧ (r = Ok (candidate fp q j) ∨ r = Raise OSError)
    ∧ (∀ p e, p ≠ fp → w_fs w !! p = Some e → w_fs w' !! p = Some e)
    ∧ file_values (w_fs w') ≡ₚ file_values (w_fs w)
    ∧ (∀ f, w_fs w !! fp = Some (File f) →
            Forall (λ d, is_file (w_fs w) d = false) (parents q ++ [q]) →
            r = Ok (candidate fp q j)
            ∧ w_fs w' !! candidate fp q j = Some (File f)
            ∧ w_fs w' !! fp = None).
Proof.
  destruct (free_target_total (w_fs w) fp q) as (j & Hrun & Hfree & Hbefore).
  exists j. unfold Root.move_to_quarantine, mbind, M_bind, reading, mret, M_ret.
  rewrite Hrun. unfold mkdir.
  destruct (mkdirs_spec (parents q ++ [q]) (w_fs w)) as (Hkeep & Hnew & Hfiles).
  set (fs' := foldr _ (w_fs w) (parents q ++ [q])) in *.
  apply exists_false in Hfree as Hfree'.
  case_bool_decide as Hchain.
  { eexists _, _. split_and!; [done..|by right|done|done|].
    intros f _ Hok. exfalso. apply Exists_exists in Hchain as (d & Hd & Hfile).
    rewrite (proj1 (Forall_forall _ _) Hok d Hd) in Hfile. done. }
  unfold shutil_move. cbn [w_fs log set_fs].
  assert (fs' !! candidate fp q j = None) as Hdst
    by (apply Hnew; [done|apply candidate_not_in_chain]).
  destruct (fs' !! fp) as [e|] eqn:Hsrc.
  - rewrite Hdst. rewrite bool_decide_eq_false_2 by (by intros []). cbn [andb w_fs log set_fs].
    eexists _, _. split_and!; [done..|by left| | |]; cbn [w_fs log set_fs].
    + intros p e' Hp He'. rewrite lookup_insert_ne, lookup_delete_ne by congruence.
      by apply Hkeep.
    + by rewrite file_values_rename.
    + intros f Hf _. apply Hkeep in Hf as Hf'. split_and!; [done| |].
      * rewrite lookup_insert_eq. congruence.
      * rewrite lookup_insert_ne, lookup_delete_eq; [done|]. congruence.
  - cbn [w_fs log set_fs].
    eexists _, _. split_and!; [done..|by right| |done|]; cbn [w_fs log set_fs].
    + intros p e' _ He'. by apply Hkeep.
    + intros f Hf. apply Hkeep in Hf. congruence.
Qed.

Lemma scripts_move_to_quarantine fp q :
  Scripts.move_to_quarantine fp q = Root.move_to_quarantine fp q.
Proof. reflexivity. Qed.

(** A sequence of calls. *)
Lemma move_all_spec (sources : list Path) q w :
  ∃ rs w',
    move_all Root.move_to_quarantine sources q w = (rs, w')
    ∧ length rs = length sources
    ∧ Forall (λ r, r ≠ Raise Diverges) rs
    ∧ file_values (w_fs w') ≡ₚ file_values (w_fs w)
    ∧ (∀ p e, p ∉ sources → w_fs w !! p = Some e → w_fs w' !! p = Some e).
Proof.
  revert w. induction sources as [|src sources IH]; intros w; cbn [move_all].
  - eexists _, _. split_and!; [done..|]. done.
  - destruct (move_to_quarantine_spec w src q)
      as (j & r & w1 & -> & _ & _ & Hr & Hkeep & Hfiles & _).
    destruct (IH w1) as (rs & w2 & -> & Hlen & Hrs & Hfiles' & Hkeep').
    eexists _, _. split_and!; [done|cbn; by rewrite Hlen| |by rewrite Hfiles'|].
    + constructor; [|done]. by destruct Hr as [-> | ->].
    + intros p e Hp He. apply not_elem_of_cons in Hp as [Hne Hp].
      apply Hkeep'; [done|]. by apply Hkeep.
Qed.

(** C4. Every call of [move_to_quarantine] (either variant) picks the first
    free destination of the sequence: the quarantine directory joined with
    the name of the source, then the stem with [_1], [_2], ... before the
    extension.  The search always ends.  The call returns that destination
    or raises [OSError]; either way every other entry of the file system
    stays as it was and the regular files, as a collection, are the same
    before and after, so no existing file is overwritten.  When the source
    is a regular file and the quarantine directory can be created, the call
    succeeds and the file is at the destination and no longer at the source.
    The same holds along every sequence of calls into one quarantine
    directory. *)
Theorem quarantine_never_overwrites w fp q (sources : list Path) :
  (∃ j r w',
     Root.move_to_quarantine fp q w = (r, w')
     ∧ Scripts.move_to_quarantine fp q w = (r, w')
     ∧ exists_ (w_fs w) (candidate fp q j) = false
     ∧ (∀ i, (i < j)%nat → exists_ (w_fs w) (candidate fp q i) = true)
     ∧ (r = Ok (candidate fp q j) ∨ r = Raise OSError)
     ∧ (∀ p e, p ≠ fp → w_fs w !! p = Some e → w_fs w' !! p = Some e)
     ∧ file_values (w_fs w') ≡ₚ file_values (w_fs w)
     ∧ (∀ f, w_fs w !! fp = Some (File f) →
             Forall (λ d, is_file (w_fs w) d = false) (parents q ++ [q]) →
             r = Ok (candidate fp q j)
             ∧ w_fs w' !! candidate fp q j = Some (File f)
             ∧ w_fs w' !! fp = None))
  ∧ (∃ rs w',
       move_all Root.move_to_quarantine sources q w = (rs, w')
       ∧ move_all Scripts.move_to_quarantine sources q w = (rs, w')
       ∧ length rs = length sources
       ∧ Forall (λ r, r ≠ Raise Diverges) rs
       ∧ file_values (w_fs w') ≡ₚ file_values (w_fs w)
       ∧ (∀ p e, p ∉ sources → w_fs w !! p = Some e → w_fs w' !! p = Some e)).
Proof.
  split.
  - destruct (move_to_quarantine_spec w fp q) as (j & r & w' & Hrun & Hrest).
    exists j, r, w'. split; [exact Hrun|]. split; [exact Hrun|exact Hrest].
  - destruct (move_all_spec sources q w) as (rs & w' & Hrun & Hrest).
    exists rs, w'. split; [exact Hrun|]. split; [exact Hrun|exact Hrest].
Qed.

End mover.

(** ** Runs *)

Lemma logged_refl w : logged w w [].
Proof. unfold logged. by rewrite app_nil_r. Qed.

Lemma logged_trans w1 w2 w3 l1 l2 :
  logged w1 w2 l1 → logged w2 w3 l2 → logged w1 w3 (l1 ++ l2).
Proof. unfold logged. intros H1 H2. by rewrite H2, H1, (assoc_L (++)). Qed.

Section grows.
Context {A B : Type}.

Lemma bind_run (m : M A) (k : A → M B) w :
  (m ≫= k) w = match m w with
               | (Ok a, w') => k a w'
               | (Raise e, w') => (Raise e, w')
               end.
Proof. reflexivity. Qed.

Lemma grows_ret (a : A) : grows (mret a).
Proof. intros w. exists []. apply logged_refl. Qed.

Lemma grows_bind (m : M A) (k : A → M B) :
  grows m → (∀ a, grows (k a)) → grows (m ≫= k).
Proof.
  intros Hm Hk w. rewrite bind_run. destruct (Hm w) as [l1 Hl1].
  destruct (m w) as [[a|e] w1]; [|by exists l1].
  destruct (Hk a w1) as [l2 Hl2]. exists (l1 ++ l2). by eapply logged_trans.
Qed.

Lemma grows_reading (f : FS → result A) : grows (reading f).
Proof. intros w. exists []. apply logged_refl. Qed.

End grows.

Lemma grows_for_eachM {A B} (l : list B) (body : A → B → M A) s :
  (∀ s x, grows (body s x)) → grows (for_eachM l body s).
Proof.
  intros Hbody. revert s. induction l as [|x l IH]; intros s; cbn.
  - apply grows_ret.
  - apply grows_bind; [apply Hbody|apply IH].
Qed.

Lemma grows_print m : grows (print m).
Proof. intros w. by eexists. Qed.

Lemma grows_now : grows now.
Proof. intros w. exists []. apply logged_refl. Qed.

Lemma grows_mkdir p : grows (mkdir p).
Proof. intros w. unfold mkdir. case_bool_decide; by eexists. Qed.

Lemma grows_shutil_move src dst : grows (shutil_move src dst).
Proof.
  intros w. unfold shutil_move. destruct (w_fs w !! src); [|by eexists].
  destruct (_ && _); by eexists.
Qed.

Lemma grows_write_text p text : grows (write_text p text).
Proof. intros w. unfold write_text. destruct (w_fs w !! p) as [[]|]; by eexists. Qed.

Lemma grows_if {A} (b : bool) (m1 m2 : M A) :
  grows m1 → grows m2 → grows (if b then m1 else m2).
Proof. by destruct b. Qed.

Lemma grows_decide {A} P `{Decision P} (m1 m2 : M A) :
  grows m1 → grows m2 → grows (if decide P then m1 else m2).
Proof. by case_decide. Qed.

Create HintDb grows discriminated.
#[local] Hint Resolve grows_ret grows_bind grows_reading grows_for_eachM grows_print
  grows_now grows_mkdir grows_shutil_move grows_write_text grows_if grows_decide : grows.

Lemma grows_move_to_quarantine fp q : grows (Root.move_to_quarantine fp q).
Proof.
  unfold Root.move_to_quarantine. apply grows_bind; [|auto 10 with grows].
  intros w. exists []. apply logged_refl.
Qed.
#[local] Hint Resolve grows_move_to_quarantine : grows.

Lemma grows_root_move_removed home done removed :
  grows (Root.move_removed home done removed).
Proof. unfold Root.move_removed. apply grows_bind; [auto with grows|]. intros []; auto 10 with grows. Qed.

Lemma grows_scripts_move_removed home results state removed :
  grows (Scripts.move_removed home results state removed).
Proof.
  unfold Scripts.move_removed. destruct state as [done moved_count].
  apply grows_bind; [auto with grows|]. intros []; [|auto with grows].
  apply grows_bind; [apply grows_move_to_quarantine|]. intros new_path.
  auto 10 with grows.
Qed.
#[local] Hint Resolve grows_root_move_removed grows_scripts_move_removed : grows.

Lemma grows_root_execute home results : grows (Root.execute home results).
Proof. unfold Root.execute. auto 10 with grows. Qed.

Lemma grows_scripts_execute home results : grows (Scripts.execute home results).
Proof.
  unfold Scripts.execute. apply grows_bind; [|intros []; auto with grows].
  apply grows_for_eachM. intros [done moved_count] group.
  apply grows_bind; [auto with grows|]. intros []. auto with grows.
Qed.

Lemma grows_root_report results q : grows (Root.generate_report results q).
Proof. intros w. rewrite root_report_world. exists []. apply logged_refl. Qed.

Lemma grows_scripts_report results q : grows (Scripts.generate_report results q).
Proof. intros w. rewrite scripts_report_world. exists []. apply logged_refl. Qed.

(** ** The plan never fails *)

Lemma for_each_total {A S} (l : list A) (body : S → A → result S) s :
  (∀ s x, x ∈ l → ∃ s', body s x = Ok s') → ∃ s', for_each l body s = Ok s'.
Proof.
  revert s. induction l as [|x l IH]; intros s Hbody; cbn; [by eexists|].
  destruct (Hbody s x) as [s' ->]; [left|]. cbn. apply IH.
  intros s'' y Hy. apply Hbody. by right.
Qed.

Lemma bind_total {A B} (m : result A) (k : A → result B) :
  (∃ a, m = Ok a) → (∀ a, ∃ b, k a = Ok b) → ∃ b, m ≫= k = Ok b.
Proof. intros [a ->] Hk. apply Hk. Qed.

Lemma root_scan_total fs paths : ∃ documents, Root.scan_documents fs paths = Ok documents.
Proof.
  unfold Root.scan_documents. apply for_each_total. intros documents base _.
  destruct (negb _); [by eexists|]. apply for_each_total. intros docs p _.
  destruct (_ && _); by eexists.
Qed.

Lemma scripts_scan_total fs base targets min_size :
  ∃ scan_results, Scripts.scan_documents fs base targets min_size = Ok scan_results.
Proof.
  unfold Scripts.scan_documents. destruct (negb _); [by eexists|].
  apply for_each_total. intros results [target_name config] _.
  apply bind_total; [|intros []; by eexists].
  apply for_each_total. intros files target_dir _. destruct (negb _); [by eexists|].
  apply for_each_total. intros files' p _.
  destruct (negb (is_file fs p)); [by eexists|].
  destruct (negb (bool_decide _)); [by eexists|].
  unfold stat. destruct (fs !! p); cbn; [|by eexists].
  case_bool_decide; by eexists.
Qed.

Lemma select_keeper_members fs files :
  files ≠ [] →
  ∃ keeper rest, Root.select_keeper fs files = Ok (keeper, rest) ∧ keeper :: rest ≡ₚ files.
Proof.
  intros Hne. rewrite select_keeper_pure.
  destruct (sort_keyed (with_creation_time fs files)) as [|k rest] eqn:Hsort.
  - apply (f_equal length) in Hsort. rewrite sort_keyed_perm in Hsort.
    unfold with_creation_time in Hsort. rewrite length_fmap in Hsort. by destruct files.
  - exists k.2, rest.*2. split; [done|].
    rewrite <-(with_creation_time_snd fs files), <-(sort_keyed_perm (with_creation_time _ _)).
    by rewrite Hsort.
Qed.

Section planning.
Context `{Hashlib}.
Implicit Types (fs : FS).

Lemma duplicates_members fs documents gs h g :
  Root.find_duplicates fs documents = Ok gs → (h, g) ∈ gs →
  g ≠ [] ∧ ∀ p, p ∈ g → is_Some (fs !! p).
Proof.
  rewrite find_duplicates_pure. intros [= <-] [-> Hlen]%elem_of_duplicates. split.
  - intros Hnil. rewrite Hnil in Hlen. cbn in Hlen. lia.
  - intros p [_ Hp]%list_elem_of_filter.
    apply elem_of_hashing_pass in Hp as (_ & s & Hs & _).
    unfold size_of in Hs. by destruct (fs !! p).
Qed.

Lemma root_plan_total fs (duplicates : defaultdict string Path) :
  (∀ h g, (h, g) ∈ duplicates → g ≠ [] ∧ ∀ p, p ∈ g → is_Some (fs !! p)) →
  ∃ results, Root.plan fs duplicates = Ok results.
Proof.
  intros Hdup. unfold Root.plan. apply for_each_total.
  intros results [h files] [Hne Hfiles]%Hdup.
  destruct (select_keeper_members fs files Hne) as (keeper & rest & -> & Hperm).
  cbn -[for_each]. rewrite get_creation_time_eq. cbn -[for_each].
  assert (keeper ∈ files) as Hk by (rewrite <-Hperm; left).
  destruct (Hfiles _ Hk) as [e He]. unfold creation_time. rewrite He. cbn -[for_each].
  apply bind_total; [|intros []; by eexists].
  apply for_each_total. intros [group_info results'] f Hf.
  assert (f ∈ files) as Hf' by (rewrite <-Hperm; by right).
  destruct (Hfiles _ Hf') as [e' He']. unfold stat. rewrite He'. by eexists.
Qed.

Lemma scripts_analyse_total fs scan_results :
  ∃ all_duplicates,
    Scripts.analyse fs scan_results = Ok all_duplicates
    ∧ ∀ name duplicates description h (g : list Path),
        (name, (duplicates, description)) ∈ all_duplicates → (h, g) ∈ duplicates → g ≠ [].
Proof.
  unfold Scripts.analyse.
  assert (∀ (l : list (string * (list Path * string)))
            (acc : list (string * (defaultdict string Path * string))),
    (∀ name duplicates description h (g : list Path),
       (name, (duplicates, description)) ∈ acc → (h, g) ∈ duplicates → g ≠ []) →
    ∃ all_duplicates,
      for_each l (λ all_duplicates '(target_name, (files, description)),
        duplicates ← Scripts.find_duplicates fs files;
        match duplicates with
        | [] => Ok all_duplicates
        | _ => Ok (all_duplicates ++ [(target_name, (duplicates, description))])
        end) acc = Ok all_duplicates
      ∧ ∀ name duplicates description h (g : list Path),
          (name, (duplicates, description)) ∈ all_duplicates → (h, g) ∈ duplicates → g ≠ [])
    as Hloop.
  { induction l as [|[target_name [files description]] l IH]; intros acc Hacc;
      cbn [for_each]; [by eexists|].
    change (Scripts.find_duplicates fs files) with (Root.find_duplicates fs files).
    destruct (Root.find_duplicates fs files) as [duplicates|e] eqn:Hdup;
      [|by rewrite find_duplicates_pure in Hdup].
    cbn [mbind result_bind]. destruct duplicates as [|d duplicates]; cbn [mbind result_bind].
    - by apply IH.
    - apply IH. intros name dups desc h g [Hin|Hin]%elem_of_app Hg; [by eapply Hacc|].
      apply list_elem_of_singleton in Hin. simplify_eq.
      by eapply duplicates_members. }
  apply Hloop. intros ????? Hin. by apply elem_of_nil in Hin.
Qed.

Lemma scripts_plan_total fs (all_duplicates : list (string * (defaultdict string Path * string))) :
  (∀ name duplicates description h (g : list Path),
     (name, (duplicates, description)) ∈ all_duplicates → (h, g) ∈ duplicates → g ≠ []) →
  ∃ results, Scripts.plan fs all_duplicates = Ok results.
Proof.
  intros Hdup. unfold Scripts.plan. apply for_each_total.
  intros results [name [duplicates description]] Hin.
  apply for_each_total. intros results' [h files] Hfiles.
  change (Scripts.select_keeper fs files) with (Root.select_keeper fs files).
  destruct (select_keeper_members fs files) as (keeper & rest & -> & _); [by eauto|].
  cbn -[for_each]. apply bind_total; [|intros []; by eexists].
  apply for_each_total. intros [group_info results''] f _.
  unfold stat. case_match; cbn; by eexists.
Qed.

End planning.

(** ** The confirmation gate *)

Lemma logged_inj w w' l1 l2 : logged w w' l1 → logged w w' l2 → l1 = l2.
Proof. unfold logged. intros -> ?. by simplify_list_eq. Qed.

Lemma confirm_block (proceed : M unit) w :
  grows proceed →
  ∃ r w',
    (answer ← input;
     if decide (lower (strip answer) ≠ "y") then print MsgCancelled else proceed) w
    = (r, w')
    ∧ ((w_answer w = None ∧ r = Raise EOFError
        ∧ w_fs w' = w_meanwhile w (w_fs w) ∧ logged w w' [EvInput])
       ∨ (∃ s, w_answer w = Some s ∧ lower (strip s) ≠ "y" ∧ r = Ok ()
               ∧ w_fs w' = w_meanwhile w (w_fs w)
               ∧ logged w w' [EvInput; EvPrint MsgCancelled])
       ∨ (affirmative (w_answer w) ∧ ∃ rest, logged w w' (EvInput :: rest))).
Proof.
  intros Hgrows. rewrite bind_run. unfold input.
  destruct (w_answer w) as [s|] eqn:Hanswer.
  - case_decide as Hs.
    + eexists _, _. split; [done|]. right. left. exists s. split_and!; [done..|].
      unfold logged. cbn. by rewrite <-(assoc_L (++)).
    + set (w1 := log EvInput (set_fs (w_meanwhile w (w_fs w)) w)).
      destruct (Hgrows w1) as [l Hl]. destruct (proceed w1) as [r w'] eqn:Hrun.
      exists r, w'. split; [done|]. right. right. split; [by exists s|].
      exists l. unfold logged in *. cbn in Hl. rewrite Hl. by rewrite <-(assoc_L (++)).
  - eexists _, _. split; [done|]. left. by split_and!.
Qed.

Lemma run_cases_gated (main : M unit) :
  (∀ w, ∃ r w', main w = (r, w') ∧ run_cases w r w') → gated main.
Proof.
  intros Hmain w. destruct (Hmain w) as (r & w' & Hrun & Hcases).
  exists r, w'. split; [done|]. split.
  - intros before e after Hlog He.
    destruct Hcases as [(_ & _ & m & Hl)|[(_ & _ & _ & Hl)|[(s & _ & _ & _ & _ & Hl)
      |(Haff & rest & Hl)]]];
      pose proof (logged_inj _ _ _ _ Hlog Hl) as Heq.
    + destruct before as [|? [|? ?]]; by simplify_eq/=.
    + destruct before as [|? [|? ?]]; by simplify_eq/=.
    + destruct before as [|? [|? [|? ?]]]; by simplify_eq/=.
    + destruct before as [|e' before]; simplify_eq/=. split; [left|done].
  - intros s Hs Hno.
    destruct Hcases as [(-> & Hfs & m & Hm)|[(Hnone & _)|[(s' & _ & _ & -> & Hfs & Hl)
      |([s' [Hs' Hy]] & _)]]].
    + split_and!; [done|by left|]. eexists. split; [done|]. by repeat constructor.
    + congruence.
    + split_and!; [done|by right|]. eexists. split; [done|]. by repeat constructor.
    + congruence.
Qed.

Section gate.
Context `{Hashlib} (home : Path).

Lemma root_main_cases w : ∃ r w', Root.main home w = (r, w') ∧ run_cases w r w'.
Proof.
  unfold Root.main. rewrite bind_run. unfold reading at 1.
  destruct (root_scan_total (w_fs w) (Root.WECHAT_PATHS home)) as [documents ->].
  case_decide.
  { eexists _, _. split; [done|]. left. split_and!; [done..|]. by eexists. }
  rewrite bind_run. unfold reading at 1.
  destruct (Root.find_duplicates (w_fs w) documents) as [duplicates|e] eqn:Hdup;
    [|by rewrite find_duplicates_pure in Hdup].
  case_decide.
  { eexists _, _. split; [done|]. left. split_and!; [done..|]. by eexists. }
  rewrite bind_run. unfold reading at 1.
  destruct (root_plan_total (w_fs w) duplicates) as [results ->];
    [by eauto using duplicates_members|].
  edestruct (confirm_block) as (r & w' & Hrun & Hcases); [|exists r, w'; split;
    [exact Hrun|right; exact Hcases]].
  apply grows_bind; [apply grows_mkdir|]. intros _.
  apply grows_bind; [apply grows_root_execute|]. intros results'.
  apply grows_bind; [apply grows_root_report|]. intros report.
  apply grows_bind; [apply grows_write_text|]. intros _. apply grows_print.
Qed.

Lemma scripts_main_cases w : ∃ r w', Scripts.main home w = (r, w') ∧ run_cases w r w'.
Proof.
  unfold Scripts.main. rewrite bind_run. unfold reading at 1.
  destruct (scripts_scan_total (w_fs w) (Scripts.WECHAT_BASE home) Scripts.SCAN_TARGETS
    Scripts.MIN_FILE_SIZE) as [scan_results ->].
  case_decide.
  { eexists _, _. split; [done|]. left. split_and!; [done..|]. by eexists. }
  rewrite bind_run. unfold reading at 1.
  destruct (scripts_analyse_total (w_fs w) scan_results) as (all_duplicates & -> & Hall).
  case_decide.
  { eexists _, _. split; [done|]. left. split_and!; [done..|]. by eexists. }
  rewrite bind_run. unfold reading at 1.
  destruct (scripts_plan_total (w_fs w) all_duplicates Hall) as [results ->].
  edestruct (confirm_block) as (r & w' & Hrun & Hcases); [|exists r, w'; split;
    [exact Hrun|right; exact Hcases]].
  apply grows_bind; [apply grows_mkdir|]. intros _.
  apply grows_bind; [apply grows_scripts_execute|]. intros [results' moved_count].
  apply grows_bind; [apply grows_scripts_report|]. intros report.
  apply grows_bind; [apply grows_write_text|]. intros _.
  case_decide; apply grows_print.
Qed.


End gate.

(** ** A source that vanished before its move *)

Section vanished.
Context (home : Path).

Lemma root_move_removed_vanished w done removed :
  exists_ (w_fs w) (original removed) = false →
  Root.move_removed home done removed w = (Ok (done ++ [removed]), w).
Proof.
  intros Hgone. unfold Root.move_removed. rewrite bind_run. unfold reading.
  by rewrite Hgone.
Qed.

Lemma scripts_move_removed_vanished w results done moved_count removed :
  exists_ (w_fs w) (original removed) = false →
  Scripts.move_removed home results (done, moved_count) removed w
  = (Ok (done ++ [removed], moved_count), w).
Proof.
  intros Hgone. unfold Scripts.move_removed. rewrite bind_run. unfold reading.
  by rewrite Hgone.
Qed.

Lemma root_execute_count results w r w' :
  Root.execute home results w = (Ok r, w') → removed_count r = removed_count results.
Proof.
  unfold Root.execute. rewrite bind_run.
  destruct (for_eachM _ _ _ w) as [[groups'|e] w1]; [|done]. by intros [= <- _].
Qed.

Lemma scripts_execute_count results w r n w' :
  Scripts.execute home results w = (Ok (r, n), w') →
  removed_count r = removed_count results.
Proof.
  unfold Scripts.execute. rewrite bind_run.
  destruct (for_eachM _ _ _ w) as [[[groups' moved]|e] w1]; [|done]. by intros [= <- _].
Qed.


End vanished.



Example vanished_source_scripts :
  ∃ text w',
    @Scripts.main demo_md5 "/h" vanishing_world_scripts = (Ok (), w')
    ∧ w_log w' = [EvInput; EvMkdir "/h/微信重复文件_待删除";
                  EvWriteText "/h/微信重复文件_待删除/去重报告.md" text;
                  EvPrint (MsgMismatch 1 0)]
    ∧ contains "| 移除文件数 | 1 |" text = true.
Proof.
  let v := eval vm_compute in (@Scripts.main demo_md5 "/h" vanishing_world_scripts) in
  assert (@Scripts.main demo_md5 "/h" vanishing_world_scripts = v) as Hrun
    by (vm_compute; reflexivity).
  eexists _, _. split; [exact Hrun|]. split; [reflexivity|]. vm_compute; reflexivity.
Qed.

(** A declined run: the answer is not ['y'], nothing is touched. *)
Example declined_run :
  ∃ w', @Root.main demo_md5 "/h"
          {| w_fs := w_fs vanishing_world; w_now := morning; w_answer := Some "no";
             w_meanwhile := λ fs, fs; w_log := [] |} = (Ok (), w')
        ∧ w_fs w' = w_fs vanishing_world
        ∧ w_log w' = [EvInput; EvPrint MsgCancelled].
Proof.
  eexists. split_and!; [vm_compute; reflexivity|reflexivity..].
Qed.

(** A collision in the quarantine directory: [a.pdf] and [a_1.pdf] are
    taken, the file goes to [a_2.pdf] and the two are left as they were. *)
Example move_to_quarantine_collision :
  ∃ w', Root.move_to_quarantine "/w/a.pdf" "/q" (demo_world crowded_fs morning "")
        = (Ok "/q/a_2.pdf", w')
        ∧ w_fs w' !! "/q/a.pdf" = crowded_fs !! "/q/a.pdf"
        ∧ w_fs w' !! "/q/a_1.pdf" = crowded_fs !! "/q/a_1.pdf"
        ∧ w_fs w' !! "/q/a_2.pdf" = crowded_fs !! "/w/a.pdf"
        ∧ w_fs w' !! "/w/a.pdf" = None.
Proof.
  eexists. split; [vm_compute; reflexivity|]. split_and!; vm_compute; reflexivity.
Qed.

Lemma quarantine_never_overwrites_witness :
  ∃ j r w',
    Root.move_to_quarantine "/w/a.pdf" "/q" (demo_world crowded_fs morning "") = (r, w')
    ∧ r = Ok (candidate "/w/a.pdf" "/q" j)
    ∧ w_fs w' !! "/w/a.pdf" = None.
Proof.
  destruct (proj1 (quarantine_never_overwrites (demo_world crowded_fs morning "")
    "/w/a.pdf" "/q" [])) as (j & r & w' & Hrun & _ & _ & _ & _ & _ & _ & Hfile).
  exists j, r, w'. split; [exact Hrun|].
  destruct (Hfile {| f_stat := {| st_size := 1; st_birthtime := None; st_mtime := 0 |};
                     f_data := String.list_byte_of_string "3"; f_access := Readable |})
    as (Hr & _ & Hsrc).
  - vm_compute. reflexivity.
  - apply (bool_decide_unpack _). vm_compute. exact I.
  - split; [exact Hr|exact Hsrc].
Defined.


(** * Further properties of the code *)

(** ** Scanning in src/dedup.py *)

Lemma strip_prefix_spec pre s r : strip_prefix pre s = Some r ↔ s = pre +:+ r.
Proof.
  revert s. induction pre as [|a pre IH]; intros s; cbn.
  - rewrite string_app_nil_l. split; [by intros [= ->]|by intros ->].
  - destruct s as [|b s]; [by rewrite string_app_cons|].
    rewrite string_app_cons. case_decide as Hab.
    + subst b. rewrite IH. split; [by intros ->|by intros [= ->]].
    + split; [done|]. intros [= ? _]. by subst.
Qed.

Lemma is_under_spec base p :
  is_under base p = true ↔ ∃ r, r ≠ "" ∧ p = joinpath base r.
Proof.
  unfold is_under, joinpath. split.
  - destruct (strip_prefix _ p) as [[|a r]|] eqn:Hs; try done. intros _.
    apply strip_prefix_spec in Hs. exists (String a r). split; [done|].
    by rewrite Hs, string_app_assoc.
  - intros (r & Hr & ->). rewrite <- string_app_assoc.
    rewrite (proj2 (strip_prefix_spec _ _ r) eq_refl). by destruct r.
Qed.

Lemma elem_of_rglob fs base p :
  p ∈ rglob fs base
  ↔ (∃ s, fs !! base = Some (Dir s)) ∧ is_Some (fs !! p) ∧ is_under base p = true.
Proof.
  unfold rglob. destruct (fs !! base) as [[f|s]|] eqn:Hb.
  - split; [by intros ?%elem_of_nil|]. by intros [[? [=]] _].
  - rewrite list_elem_of_filter, list_elem_of_fmap. split.
    + intros [Hu ([k e] & -> & He%elem_of_map_to_list)]. eauto.
    + intros (_ & [e He] & Hu). split; [done|]. exists (p, e). split; [done|].
      by apply elem_of_map_to_list.
  - split; [by intros ?%elem_of_nil|]. by intros [[? [=]] _].
Qed.

Lemma rglob_NoDup fs base : NoDup (rglob fs base).
Proof.
  unfold rglob. repeat case_match; try apply NoDup_nil_2.
  apply NoDup_filter, NoDup_fst_map_to_list.
Qed.

Lemma for_each_filter {A} (b : A → bool) (l acc : list A) :
  for_each l (λ acc x, if b x then Ok (acc ++ [x]) else Ok acc) acc
  = Ok (acc ++ filter (λ x, b x = true) l).
Proof.
  revert acc. induction l as [|x l IH]; intros acc.
  - cbn. by rewrite app_nil_r.
  - rewrite filter_cons. cbn [for_each]. destruct (b x) eqn:Hb.
    + rewrite decide_True by done. cbn [mbind result_bind]. rewrite IH.
      by rewrite <- (assoc_L (++)).
    + rewrite decide_False by (by intros [=]). cbn [mbind result_bind]. by rewrite IH.
Qed.

Lemma root_scan_pure fs paths :
  Root.scan_documents fs paths
  = Ok (concat ((λ base, filter (λ p, is_document fs p = true) (rglob fs base)) <$> paths)).
Proof.
  unfold Root.scan_documents.
  enough (∀ acc, for_each paths (λ documents base_path,
    if negb (exists_ fs base_path) then Ok documents
    else
      for_each (rglob fs base_path) (λ documents filepath,
        if is_file fs filepath
           && bool_decide (lower (suffix filepath) ∈ [".pdf"; ".doc"; ".docx"])
        then Ok (documents ++ [filepath])
        else Ok documents) documents) acc
    = Ok (acc ++ concat ((λ base, filter (λ p, is_document fs p = true) (rglob fs base)) <$> paths)))
    as Hgen by apply (Hgen []).
  induction paths as [|base paths IH]; intros acc; cbn.
  - by rewrite app_nil_r.
  - destruct (exists_ fs base) eqn:Hex; cbn.
    + rewrite (for_each_filter (is_document fs)). cbn. rewrite IH.
      by rewrite (assoc_L (++)).
    + rewrite IH. apply exists_false in Hex. unfold rglob. by rewrite Hex.
Qed.


Lemma concat_NoDup {A} (ls : list (list A)) :
  (∀ l, l ∈ ls → NoDup l) →
  (∀ i j l1 l2 x, ls !! i = Some l1 → ls !! j = Some l2 → i ≠ j → x ∈ l1 → x ∈ l2 → False) →
  NoDup (concat ls).
Proof.
  induction ls as [|l ls IH]; intros Hnd Hdisj; cbn; [apply NoDup_nil_2|].
  apply NoDup_app. split_and!.
  - apply Hnd. left.
  - intros x Hx (l' & Hx' & (j & Hj)%list_elem_of_lookup_1)%elem_of_concat.
    apply (Hdisj 0%nat (S j) l l' x); done.
  - apply IH.
    + intros l' Hl'. apply Hnd. by right.
    + intros i j l1 l2 x Hi Hj Hij. apply (Hdisj (S i) (S j)); [done|done|lia].
Qed.

Section roots.
Context `{Hashlib} (home : Path).

Lemma wechat_paths_disjoint i j b1 b2 p :
  Root.WECHAT_PATHS home !! i = Some b1 → Root.WECHAT_PATHS home !! j = Some b2 →
  i ≠ j → is_under b1 p = true → is_under b2 p = true → False.
Proof.
  intros Hi Hj Hij (r1 & _ & ->)%is_under_spec (r2 & _ & Heq)%is_under_spec.
  unfold Root.WECHAT_PATHS in *.
  destruct i as [|[|i]], j as [|[|j]]; simplify_eq/=;
    unfold joinpath in Heq; rewrite !string_app_assoc in Heq;
    apply (inj (String.append home)) in Heq; cbv [String.append] in Heq;
    discriminate.
Qed.

Lemma root_scan_NoDup fs documents :
  Root.scan_documents fs (Root.WECHAT_PATHS home) = Ok documents → NoDup documents.
Proof.
  rewrite root_scan_pure.
  set (ls := (λ base, filter (λ p, is_document fs p = true) (rglob fs base))
             <$> Root.WECHAT_PATHS home).
  intros Heq. assert (documents = concat ls) as -> by congruence. subst ls.
  apply concat_NoDup.
  - intros l (base & -> & _)%list_elem_of_fmap. apply NoDup_filter, rglob_NoDup.
  - intros i j l1 l2 x Hi Hj Hij Hx1 Hx2.
    rewrite list_lookup_fmap in Hi, Hj.
    destruct (Root.WECHAT_PATHS home !! i) as [b1|] eqn:Hb1; [|done].
    destruct (Root.WECHAT_PATHS home !! j) as [b2|] eqn:Hb2; [|done].
    simplify_eq/=.
    apply list_elem_of_filter in Hx1 as [_ (_ & _ & Hu1)%elem_of_rglob].
    apply list_elem_of_filter in Hx2 as [_ (_ & _ & Hu2)%elem_of_rglob].
    by apply (wechat_paths_disjoint i j b1 b2 x).
Qed.

Lemma find_duplicates_NoDup fs documents gs :
  NoDup documents → Root.find_duplicates fs documents = Ok gs → NoDup (concat gs.*2).
Proof.
  intros Hnd. rewrite find_duplicates_pure. intros [= <-].
  eapply sublist_NoDup; [by apply hash_groups_NoDup|].
  apply sublist_concat, fmap_sublist, sublist_filter.
Qed.

(** X2. The two roots that src/dedup.py scans do not overlap, so its scan
    lists no file twice, whatever the file system holds; the duplicate
    groups found from that scan therefore have no file in common and hold
    no file twice. *)
Theorem root_scan_lists_once (fs : FS) :
  ∃ documents gs,
    Root.scan_documents fs (Root.WECHAT_PATHS home) = Ok documents
    ∧ NoDup documents
    ∧ Root.find_duplicates fs documents = Ok gs
    ∧ NoDup (concat gs.*2).
Proof.
  destruct (root_scan_total fs (Root.WECHAT_PATHS home)) as [documents Hscan].
  exists documents. eexists. split; [done|].
  pose proof (root_scan_NoDup fs documents Hscan) as Hnd.
  split; [done|]. split; [apply find_duplicates_pure|].
  apply (find_duplicates_NoDup fs documents); [done|apply find_duplicates_pure].
Qed.

End roots.

(** ** Scanning in src/wechat-dedup/scripts/dedup.py *)

Lemma for_each_ext {A S} (l : list A) (body body' : S → A → result S) s :
  (∀ s x, x ∈ l → body s x = body' s x) → for_each l body s = for_each l body' s.
Proof.
  revert s. induction l as [|x l IH]; intros s Hbody; [done|].
  cbn. rewrite Hbody by left. destruct (body' s x); [|done]. cbn. apply IH.
  intros s' y Hy. apply Hbody. by right.
Qed.

Lemma scripts_scan_files fs base config min_size :
  for_each (glob fs base (Scripts.pattern config)) (λ files target_dir,
    if negb (exists_ fs target_dir) then Ok files
    else
      for_each (rglob fs target_dir) (λ files filepath,
        if negb (is_file fs filepath) then Ok files
        else if negb (bool_decide (lower (suffix filepath) ∈ Scripts.extensions config))
        then Ok files
        else
          small ← try_except_OSError
            (st ← stat fs filepath; Ok (bool_decide (st_size st < min_size)))
            (Ok true);
          if (small : bool) then Ok files else Ok (files ++ [filepath])) files) []
  = Ok (scanned_files fs base config min_size).
Proof.
  unfold scanned_files. generalize (glob fs base (Scripts.pattern config)) as dirs.
  intros dirs.
  enough (∀ acc, for_each dirs (λ files target_dir,
    if negb (exists_ fs target_dir) then Ok files
    else
      for_each (rglob fs target_dir) (λ files filepath,
        if negb (is_file fs filepath) then Ok files
        else if negb (bool_decide (lower (suffix filepath) ∈ Scripts.extensions config))
        then Ok files
        else
          small ← try_except_OSError
            (st ← stat fs filepath; Ok (bool_decide (st_size st < min_size)))
            (Ok true);
          if (small : bool) then Ok files else Ok (files ++ [filepath])) files) acc
    = Ok (acc ++ concat ((λ target_dir,
             filter (λ p, is_scanned fs (Scripts.extensions config) min_size p = true)
               (rglob fs target_dir)) <$> dirs))) as Hgen
    by apply (Hgen []).
  induction dirs as [|d dirs IH]; intros acc; cbn [for_each fmap list_fmap concat].
  - by rewrite app_nil_r.
  - assert (for_each (rglob fs d) (λ files filepath,
        if negb (is_file fs filepath) then Ok files
        else if negb (bool_decide (lower (suffix filepath) ∈ Scripts.extensions config))
        then Ok files
        else
          small ← try_except_OSError
            (st ← stat fs filepath; Ok (bool_decide (st_size st < min_size)))
            (Ok true);
          if (small : bool) then Ok files else Ok (files ++ [filepath])) acc
      = Ok (acc ++ filter (λ p, is_scanned fs (Scripts.extensions config) min_size p = true)
                     (rglob fs d))) as Hinner.
    { rewrite <- (for_each_filter (is_scanned fs (Scripts.extensions config) min_size)).
      apply for_each_ext. intros files p _. unfold is_scanned, size_of, stat, is_file.
      destruct (fs !! p) as [[f|s]|]; cbn; try done.
      destruct (bool_decide (lower (suffix p) ∈ _)); cbn; [|done].
      case_bool_decide; case_bool_decide; try done; lia. }
    destruct (exists_ fs d) eqn:Hex; cbn [negb].
    + rewrite Hinner. cbn [mbind result_bind]. rewrite IH. by rewrite (assoc_L (++)).
    + cbn [mbind result_bind]. rewrite IH. apply exists_false in Hex.
      unfold rglob at 2. by rewrite Hex.
Qed.

Lemma scripts_scan_pure fs base targets min_size :
  Scripts.scan_documents fs base targets min_size
  = Ok (if exists_ fs base then
          omap (λ '(target_name, config),
                  match scanned_files fs base config min_size with
                  | [] => None
                  | files => Some (target_name, (files, Scripts.description config))
                  end) targets
        else []).
Proof.
  unfold Scripts.scan_documents. destruct (exists_ fs base); [|done]. cbn [negb].
  enough (∀ acc, for_each targets (λ results '(target_name, config),
      files ← for_each (glob fs base (Scripts.pattern config)) (λ files target_dir,
        if negb (exists_ fs target_dir) then Ok files
        else
          for_each (rglob fs target_dir) (λ files filepath,
            if negb (is_file fs filepath) then Ok files
            else if negb (bool_decide (lower (suffix filepath) ∈ Scripts.extensions config))
            then Ok files
            else
              small ← try_except_OSError
                (st ← stat fs filepath; Ok (bool_decide (st_size st < min_size)))
                (Ok true);
              if (small : bool) then Ok files else Ok (files ++ [filepath])) files) [];
      match files with
      | [] => Ok results
      | _ => Ok (results ++ [(target_name, (files, Scripts.description config))])
      end) acc
    = Ok (acc ++ omap (λ '(target_name, config),
                  match scanned_files fs base config min_size with
                  | [] => None
                  | files => Some (target_name, (files, Scripts.description config))
                  end) targets)) as Hgen by apply (Hgen []).
  induction targets as [|[target_name config] targets IH]; intros acc.
  - cbn. by rewrite app_nil_r.
  - cbn [for_each omap list_omap]. rewrite scripts_scan_files. cbn [mbind result_bind].
    destruct (scanned_files fs base config min_size) as [|p files].
    + cbn [mbind result_bind]. apply IH.
    + cbn [mbind result_bind]. rewrite IH. by rewrite <- (assoc_L (++)).
Qed.

Lemma is_scanned_spec fs extensions min_size p :
  is_scanned fs extensions min_size p = true
  ↔ ∃ f, fs !! p = Some (File f) ∧ lower (suffix p) ∈ extensions
         ∧ min_size ≤ st_size (f_stat f).
Proof.
  unfold is_scanned, is_file, size_of. destruct (fs !! p) as [[f|s]|]; cbn.
  - rewrite andb_true_iff, !bool_decide_eq_true. split; [|by intros (? & [= <-] & ? & ?)].
    intros [? ?]. eauto.
  - split; [done|]. by intros (? & [=] & _).
  - split; [done|]. by intros (? & [=] & _).
Qed.

Lemma elem_of_scanned_files fs base config min_size p :
  p ∈ scanned_files fs base config min_size
  ↔ ∃ target_dir r f,
      target_dir ∈ glob fs base (Scripts.pattern config)
      ∧ (∃ s, fs !! target_dir = Some (Dir s))
      ∧ p = joinpath target_dir r ∧ r ≠ ""
      ∧ fs !! p = Some (File f)
      ∧ lower (suffix p) ∈ Scripts.extensions config
      ∧ min_size ≤ st_size (f_stat f).
Proof.
  unfold scanned_files. rewrite elem_of_concat. split.
  - intros (l & Hp & (d & -> & Hd)%list_elem_of_fmap).
    apply list_elem_of_filter in Hp as [(f & Hf & Hext & Hsize)%is_scanned_spec Hp].
    apply elem_of_rglob in Hp as (Hdir & _ & (r & Hr & ->)%is_under_spec).
    exists d, r, f. done.
  - intros (d & r & f & Hd & Hdir & -> & Hr & Hf & Hext & Hsize).
    eexists. split; [|apply list_elem_of_fmap; eauto].
    apply list_elem_of_filter. split; [apply is_scanned_spec; eauto|].
    apply elem_of_rglob. split_and!; [done|by rewrite Hf|]. apply is_under_spec. eauto.
Qed.

Lemma omap_sublist_fst {A B} (g : string * A → option (string * B)) (l : list (string * A)) :
  (∀ x y, g x = Some y → y.1 = x.1) → (omap g l).*1 `sublist_of` l.*1.
Proof.
  intros Hg. induction l as [|x l IH]; cbn; [done|].
  destruct (g x) as [y|] eqn:Hy; cbn.
  - rewrite (Hg _ _ Hy). by apply sublist_skip.
  - by apply sublist_cons.
Qed.


(** ** No file is scanned twice *)

Lemma split_first_spec c s x r :
  split_first c s = Some (x, r) → s = x +:+ String c r ∧ split_first c x = None.
Proof.
  revert x. induction s as [|a s IH]; intros x; cbn [split_first]; [done|].
  case_decide as Hac.
  - intros [= <- <-]. by subst.
  - destruct (split_first c s) as [[x' r']|] eqn:Hs; cbn [mbind option_bind]; [|done].
    intros [= <- <-]. destruct (IH x' eq_refl) as [-> Hx'].
    split; [by rewrite string_app_cons|]. cbn [split_first]. rewrite decide_False by done.
    by rewrite Hx'.
Qed.

Lemma split_first_app c x r :
  split_first c x = None → split_first c (x +:+ String c r) = Some (x, r).
Proof.
  induction x as [|a x IH]; cbn [split_first].
  - intros _. rewrite string_app_nil_l. cbn [split_first]. by rewrite decide_True.
  - case_decide; [done|]. destruct (split_first c x) as [[]|] eqn:Hx; [done|].
    intros _. rewrite string_app_cons. cbn [split_first]. rewrite decide_False by done.
    by rewrite IH.
Qed.

Lemma matches_star_spec base rest d :
  matches_star base rest d = true →
  ∃ X, d = base +:+ "/" +:+ X +:+ "/" +:+ rest ∧ split_first "/" X = None.
Proof.
  unfold matches_star.
  destruct (strip_prefix (base +:+ "/") d) as [t|] eqn:Ht; cbn; [|done].
  destruct (split_first "/" t) as [[[|a X] r]|] eqn:Hs; try done.
  intros ->%bool_decide_eq_true.
  apply strip_prefix_spec in Ht as ->. apply split_first_spec in Hs as [-> HX].
  exists (String a X). split; [|done]. by rewrite !string_app_assoc.
Qed.

Lemma matches_star_disjoint base rest d1 d2 p :
  matches_star base rest d1 = true → matches_star base rest d2 = true →
  is_under d1 p = true → is_under d2 p = true → d1 = d2.
Proof.
  intros (X1 & -> & HX1)%matches_star_spec (X2 & -> & HX2)%matches_star_spec
    (r1 & _ & ->)%is_under_spec (r2 & _ & Heq)%is_under_spec.
  unfold joinpath in Heq. rewrite !string_app_assoc in Heq.
  apply (inj (String.append base)) in Heq.
  rewrite !string_app_cons, !string_app_nil_l in Heq. injection Heq as Heq.
  assert (split_first "/" (X1 +:+ String "/" (rest +:+ String "/" r1))
          = split_first "/" (X2 +:+ String "/" (rest +:+ String "/" r2))) as Hs
    by (by rewrite Heq).
  rewrite !split_first_app in Hs by done. by simplify_eq.
Qed.

Lemma glob_NoDup fs base pattern : NoDup (glob fs base pattern).
Proof.
  unfold glob. destruct (strip_prefix "*/" pattern).
  - apply NoDup_filter, NoDup_fst_map_to_list.
  - destruct (exists_ fs _); [apply NoDup_singleton|apply NoDup_nil_2].
Qed.

Lemma glob_disjoint fs base pattern d1 d2 p :
  d1 ∈ glob fs base pattern → d2 ∈ glob fs base pattern →
  is_under d1 p = true → is_under d2 p = true → d1 = d2.
Proof.
  unfold glob. destruct (strip_prefix "*/" pattern) as [rest|].
  - intros [H1 _]%list_elem_of_filter [H2 _]%list_elem_of_filter.
    by apply (matches_star_disjoint base rest).
  - destruct (exists_ fs _).
    + by intros ->%list_elem_of_singleton ->%list_elem_of_singleton.
    + by intros ?%elem_of_nil.
Qed.

Lemma scanned_files_NoDup fs base config min_size :
  NoDup (scanned_files fs base config min_size).
Proof.
  unfold scanned_files. apply concat_NoDup.
  - intros l (d & -> & _)%list_elem_of_fmap. apply NoDup_filter, rglob_NoDup.
  - intros i j l1 l2 p Hi Hj Hij Hp1 Hp2. rewrite list_lookup_fmap in Hi, Hj.
    destruct (glob fs base (Scripts.pattern config) !! i) as [d1|] eqn:Hd1; [|done].
    destruct (glob fs base (Scripts.pattern config) !! j) as [d2|] eqn:Hd2; [|done].
    simplify_eq/=.
    apply list_elem_of_filter in Hp1 as [_ (_ & _ & Hu1)%elem_of_rglob].
    apply list_elem_of_filter in Hp2 as [_ (_ & _ & Hu2)%elem_of_rglob].
    assert (d1 = d2) as ->.
    { eapply glob_disjoint; eauto using list_elem_of_lookup_2. }
    apply Hij. eapply NoDup_lookup; [apply (glob_NoDup fs base (Scripts.pattern config))|done..].
Qed.

Lemma scanned_files_extension fs base config min_size p :
  p ∈ scanned_files fs base config min_size → lower (suffix p) ∈ Scripts.extensions config.
Proof. intros (? & ? & ? & ? & ? & ? & ? & ? & ? & ?)%elem_of_scanned_files. done. Qed.

Lemma scripts_scan_concat fs base (targets : list (string * Scripts.target)) min_size :
  concat ((λ r : string * (list Path * string), r.2.1)
          <$> omap (λ '(target_name, config),
                      match scanned_files fs base config min_size with
                      | [] => None
                      | files => Some (target_name, (files, Scripts.description config))
                      end) targets)
  = concat ((λ t, scanned_files fs base t.2 min_size) <$> targets).
Proof.
  induction targets as [|[n c] targets IH]; [done|]. cbn.
  destruct (scanned_files fs base c min_size) eqn:HF; cbn; by rewrite IH.
Qed.

Section targets.
Context (home : Path).

Lemma scan_targets_extensions i j n1 c1 n2 c2 e :
  Scripts.SCAN_TARGETS !! i = Some (n1, c1) → Scripts.SCAN_TARGETS !! j = Some (n2, c2) →
  i ≠ j → e ∈ Scripts.extensions c1 → e ∈ Scripts.extensions c2 → False.
Proof.
  unfold Scripts.SCAN_TARGETS. intros Hi Hj Hij H1 H2.
  destruct i as [|[|[|i]]], j as [|[|[|j]]]; simplify_eq/=;
    repeat (apply elem_of_cons in H1 as [->|H1]; [|]);
    try (by apply elem_of_nil in H1);
    repeat (apply elem_of_cons in H2 as [?|H2]; [done|]);
    by apply elem_of_nil in H2.
Qed.

Lemma scripts_scan_NoDup fs min_size scan_results :
  Scripts.scan_documents fs (Scripts.WECHAT_BASE home) Scripts.SCAN_TARGETS min_size
  = Ok scan_results →
  NoDup (concat ((λ r : string * (list Path * string), r.2.1) <$> scan_results)).
Proof.
  rewrite scripts_scan_pure. intros Heq.
  match type of Heq with Ok ?l = _ => assert (scan_results = l) as -> by congruence end.
  clear Heq. destruct (exists_ fs _); [|apply NoDup_nil_2].
  rewrite scripts_scan_concat. apply concat_NoDup.
  - intros l (t & -> & _)%list_elem_of_fmap. apply scanned_files_NoDup.
  - intros i j l1 l2 p Hi Hj Hij Hp1 Hp2. rewrite list_lookup_fmap in Hi, Hj.
    destruct (Scripts.SCAN_TARGETS !! i) as [[n1 c1]|] eqn:Ht1; [|done].
    destruct (Scripts.SCAN_TARGETS !! j) as [[n2 c2]|] eqn:Ht2; [|done].
    simplify_eq/=.
    apply scanned_files_extension in Hp1, Hp2.
    by apply (scan_targets_extensions i j n1 c1 n2 c2 (lower (suffix p))).
Qed.

(** X4. With the three targets of src/wechat-dedup/scripts/dedup.py the scan
    lists every file at most once: the directories that one pattern
    matches are not nested in one another, and the extension sets of the
    targets are pairwise disjoint, so no file is counted under two
    categories.  The names of the entries are pairwise different. *)
Theorem scripts_scan_lists_once (fs : FS) (min_size : Z) :
  ∃ results,
    Scripts.scan_documents fs (Scripts.WECHAT_BASE home) Scripts.SCAN_TARGETS min_size
    = Ok results
    ∧ NoDup results.*1
    ∧ NoDup (concat ((λ r, r.2.1) <$> results)).
Proof.
  destruct (scripts_scan_total fs (Scripts.WECHAT_BASE home) Scripts.SCAN_TARGETS min_size)
    as [results Hscan].
  exists results. split; [done|]. split; [|by apply (scripts_scan_NoDup fs min_size)].
  rewrite scripts_scan_pure in Hscan.
  match type of Hscan with Ok ?l = _ => assert (results = l) as -> by congruence end.
  eapply sublist_NoDup; [|].
  2: { destruct (exists_ fs _); [|apply sublist_nil_l].
       apply omap_sublist_fst. intros [n c] y. destruct (scanned_files _ _ _ _); [done|].
       by intros [= <-]. }
  apply (bool_decide_unpack _). vm_compute. exact I.
Qed.

End targets.

(** ** The digest and the chunk size *)

Section hasher_extras.
Context `{Hashlib}.

Lemma read_chunks_streaming fuel rest chunk_size hasher :
  streaming → chunk_size ≠ 0 → (length rest < fuel)%nat →
  Root.read_chunks fuel {| h_rest := rest; h_budget := None |} chunk_size hasher
  = Ok (match rest with [] => hasher | _ => md5_update hasher rest end).
Proof.
  intros Hlaw Hcs. revert rest hasher.
  induction fuel as [|fuel IH]; intros rest hasher Hlen; [lia|].
  cbn [Root.read_chunks]. unfold read. cbn [h_budget h_rest fmap option_fmap option_map mbind result_bind].
  set (k := if decide (chunk_size < 0) then length rest else Z.to_nat chunk_size).
  destruct rest as [|b rest]; [by rewrite take_nil|].
  assert (k ≠ 0)%nat as Hk by (unfold k; case_decide; cbn; lia).
  destruct k as [|k]; [done|]. rewrite firstn_cons, skipn_cons.
  rewrite IH by (rewrite length_drop; cbn in Hlen; lia).
  f_equal. destruct (drop k rest) eqn:Hdrop.
  - rewrite <- (take_drop k rest) at 2. by rewrite Hdrop, app_nil_r.
  - rewrite Hlaw. rewrite <- Hdrop. cbn. by rewrite take_drop.
Qed.


Lemma read_chunks_zero fuel f hasher :
  h_budget f ≠ Some 0%nat →
  Root.read_chunks (S fuel) f 0 hasher = Ok hasher.
Proof.
  intros Hb. cbn [Root.read_chunks]. unfold read.
  destruct (h_budget f) as [[|b]|]; [done|..]; by rewrite decide_False by lia.
Qed.

(** X6. With [chunk_size = 0] the first [read] returns no bytes and the
    loop of [get_file_hash] (either variant) ends at once: every readable
    file, whatever its content, gets the digest of the empty input. *)
Theorem get_file_hash_chunk_size_zero (fs : FS) (p : Path) (data : list byte) :
  readable fs p data →
  Root.get_file_hash fs p 0 = Ok (Some (md5_hexdigest md5_new))
  ∧ Scripts.get_file_hash fs p 0 = Ok (Some (md5_hexdigest md5_new)).
Proof.
  intros (f & Hf & Hacc & Hdata).
  change (Scripts.get_file_hash fs p 0) with (Root.get_file_hash fs p 0).
  split; unfold Root.get_file_hash, open_rb; rewrite Hf, Hacc;
    cbn [mbind result_bind h_rest]; by rewrite read_chunks_zero.
Qed.

End hasher_extras.


Lemma get_file_hash_chunk_size_zero_witness :
  @Root.get_file_hash demo_md5 trio_fs "/a" 0 = Ok (Some "md5:")
  ∧ @Scripts.get_file_hash demo_md5 trio_fs "/a" 0 = Ok (Some "md5:").
Proof.
  apply (@get_file_hash_chunk_size_zero demo_md5 trio_fs "/a" (String.list_byte_of_string "xyz")).
  eexists. split; [by vm_compute|]. split; reflexivity.
Defined.

(** ** The members of a duplicate group *)

Section finder_extras.
Context `{Hashlib}.
Implicit Types (fs : FS) (documents : list Path) (p q : Path).

Lemma hash_groups_keys_NoDup fs documents : NoDup (hash_groups fs documents).*1.
Proof. apply group_by_key_NoDup. apply NoDup_nil_2. Qed.

Lemma present_nonempty h : present (Some h) ↔ h ≠ "".
Proof. unfold present. destruct h; cbn; split; done. Qed.

Lemma duplicates_in_documents fs documents gs h g p :
  Root.find_duplicates fs documents = Ok gs → (h, g) ∈ gs → p ∈ g → p ∈ documents.
Proof.
  rewrite find_duplicates_pure. intros [= <-] [-> _]%elem_of_duplicates.
  intros [_ Hp]%list_elem_of_filter. by apply elem_of_hashing_pass in Hp as [? _].
Qed.

(** X7. In the result of [find_duplicates] the key of a group is the digest
    of each of its members and is not the empty string.  The group holds
    exactly the records of the input whose [stat] succeeds, whose size is
    shared by at least two records and whose digest is the key; all of them
    are regular files.  No two groups have the same key. *)
Theorem duplicate_group_members fs documents gs h g :
  Root.find_duplicates fs documents = Ok gs → (h, g) ∈ gs →
  h ≠ ""
  ∧ (∀ p, p ∈ g ↔ hashed fs documents p ∧ digest fs p = Some h)
  ∧ (∀ p, p ∈ g → p ∈ documents ∧ ∃ f, fs !! p = Some (File f))
  ∧ (∀ g', (h, g') ∈ gs → g' = g).
Proof.
  rewrite find_duplicates_pure. intros [= <-] Hg.
  pose proof Hg as [-> Hlen]%elem_of_duplicates.
  assert (h ≠ "") as Hh.
  { destruct (filter _ _) as [|p g] eqn:Hf in Hlen; [cbn in Hlen; lia|].
    assert (p ∈ filter (λ x, hash_key fs x = Some h) (hashing_pass fs documents)) as Hp
      by (rewrite Hf; left).
    apply list_elem_of_filter in Hp as [[Hd Hp]%hash_key_Some _].
    rewrite Hd in Hp. by apply present_nonempty. }
  split_and!; [done|..].
  - intros p. rewrite list_elem_of_filter, elem_of_hashing_pass, hash_key_Some.
    split; [by intros [[? ?] ?]|]. intros [? Hd]. split_and!; [done| |done].
    rewrite Hd. by apply present_nonempty.
  - intros p [[Hd Hp]%hash_key_Some [Hin _]%elem_of_hashing_pass]%list_elem_of_filter.
    split; [done|]. by apply present_digest_is_file.
  - intros g' [-> _]%elem_of_duplicates. done.
Qed.

Lemma hashed_perm fs documents documents' p :
  documents ≡ₚ documents' → hashed fs documents p → hashed fs documents' p.
Proof.
  intros Hperm (Hp & s & Hs & Hlen). split; [by rewrite <- Hperm|].
  exists s. split; [done|]. by rewrite <- Hperm.
Qed.

Lemma hashing_pass_perm fs documents documents' :
  NoDup documents → documents ≡ₚ documents' →
  hashing_pass fs documents ≡ₚ hashing_pass fs documents'.
Proof.
  intros Hnd Hperm. apply list.NoDup_Permutation.
  - by apply hashing_pass_NoDup.
  - apply hashing_pass_NoDup. by rewrite <- Hperm.
  - intros p. rewrite !elem_of_hashing_pass. split; apply hashed_perm; done.
Qed.

(** X8. For an input without repeated paths the grouping does not depend on
    the order of the input: permuting the input gives the same digests as
    keys, and under each key the same files up to their order.  Both
    variants agree. *)
Theorem find_duplicates_order_independent fs documents documents' :
  NoDup documents → documents ≡ₚ documents' →
  ∃ gs gs',
    Root.find_duplicates fs documents = Ok gs
    ∧ Root.find_duplicates fs documents' = Ok gs'
    ∧ Scripts.find_duplicates fs documents' = Ok gs'
    ∧ gs.*1 ≡ₚ gs'.*1
    ∧ ∀ h g g', (h, g) ∈ gs → (h, g') ∈ gs' → g ≡ₚ g'.
Proof.
  intros Hnd Hperm. eexists _, _.
  change (Scripts.find_duplicates fs documents') with (Root.find_duplicates fs documents').
  split_and!; [apply find_duplicates_pure..| |].
  - assert (∀ docs h, h ∈ (filter (λ hf, 2 ≤ length hf.2)%nat (hash_groups fs docs)).*1
        ↔ (2 ≤ length (filter (λ x, hash_key fs x = Some h) (hashing_pass fs docs)))%nat)
      as Hkeys.
    { intros docs h. rewrite list_elem_of_fmap. split.
      - intros ([h' g] & -> & [-> ?]%elem_of_duplicates). done.
      - intros Hlen. eexists (h, _). split; [done|]. by apply elem_of_duplicates. }
    apply list.NoDup_Permutation.
    + eapply sublist_NoDup; [apply hash_groups_keys_NoDup|].
      apply fmap_sublist, sublist_filter.
    + eapply sublist_NoDup; [apply hash_groups_keys_NoDup|].
      apply fmap_sublist, sublist_filter.
    + intros h. rewrite !Hkeys. by rewrite (hashing_pass_perm fs documents documents').
  - intros h g g' [-> _]%elem_of_duplicates [-> _]%elem_of_duplicates.
    by rewrite (hashing_pass_perm fs documents documents').
Qed.

End finder_extras.

Lemma duplicate_group_members_witness :
  "md5:xyz" ≠ ""
  ∧ (∀ p, p ∈ ["/a"; "/b"]
        ↔ hashed trio_fs ["/a"; "/b"; "/c"] p ∧ @digest demo_md5 trio_fs p = Some "md5:xyz")
  ∧ (∀ p, p ∈ ["/a"; "/b"] → p ∈ ["/a"; "/b"; "/c"] ∧ ∃ f, trio_fs !! p = Some (File f))
  ∧ (∀ g', ("md5:xyz", g') ∈ [("md5:xyz", ["/a"; "/b"])] → g' = ["/a"; "/b"]).
Proof.
  apply (@duplicate_group_members demo_md5 trio_fs ["/a"; "/b"; "/c"]
           [("md5:xyz", ["/a"; "/b"])] "md5:xyz" ["/a"; "/b"]).
  - vm_compute. reflexivity.
  - left.
Defined.

Lemma find_duplicates_order_independent_witness :
  ∃ gs gs',
    @Root.find_duplicates demo_md5 trio_fs ["/a"; "/b"; "/c"] = Ok gs
    ∧ @Root.find_duplicates demo_md5 trio_fs ["/c"; "/b"; "/a"] = Ok gs'
    ∧ @Scripts.find_duplicates demo_md5 trio_fs ["/c"; "/b"; "/a"] = Ok gs'
    ∧ gs.*1 ≡ₚ gs'.*1
    ∧ ∀ h g g', (h, g) ∈ gs → (h, g') ∈ gs' → g ≡ₚ g'.
Proof.
  apply (@find_duplicates_order_independent demo_md5 trio_fs).
  - apply (bool_decide_unpack _). vm_compute. exact I.
  - change ["/c"; "/b"; "/a"] with (reverse ["/a"; "/b"; "/c"]).
    symmetry. apply reverse_Permutation.
Defined.

(** ** The order of the removals *)

Lemma sorted_by_creation_time fs (l : list (pyfloat * Path)) :
  StronglySorted keyed_le l → Forall (λ y, y.1 = creation_time fs y.2) l →
  StronglySorted (created_before fs) l.*2.
Proof.
  induction 1 as [|y l Hl IH Hy]; intros Hkeys; [constructor|].
  apply Forall_cons in Hkeys as [Hk Hkeys]. cbn. constructor; [by apply IH|].
  apply Forall_fmap. rewrite Forall_forall in Hy, Hkeys. apply Forall_forall.
  intros z Hz. unfold created_before. cbn. rewrite <- Hk, <- (Hkeys z Hz).
  by apply Hy.
Qed.

Lemma select_keeper_raises fs files e :
  Root.select_keeper fs files = Raise e → e = IndexError ∧ files = [].
Proof.
  rewrite select_keeper_pure.
  pose proof (sort_keyed_perm (with_creation_time fs files)) as Hperm.
  destruct (sort_keyed (with_creation_time fs files)) as [|k rest]; [|done].
  intros [= <-]. split; [done|]. apply Permutation_nil_l in Hperm.
  unfold with_creation_time in Hperm. symmetry in Hperm. by apply fmap_nil_inv in Hperm.
Qed.


(** ** The plan *)

Lemma for_each_Forall2 {A S B} (proj : S → list B) (R : A → B → Prop)
    (l : list A) (body : S → A → result S) s s' :
  (∀ s x s', x ∈ l → body s x = Ok s' → ∃ b, proj s' = proj s ++ [b] ∧ R x b) →
  for_each l body s = Ok s' →
  ∃ bs, proj s' = proj s ++ bs ∧ Forall2 R l bs.
Proof.
  revert s. induction l as [|x l IH]; intros s Hbody; cbn.
  - intros [= <-]. exists []. by rewrite app_nil_r.
  - destruct (body s x) as [s1|e] eqn:Hx; [|done]. cbn. intros Hl.
    destruct (Hbody s x s1) as (b & Hb & HR); [left|done|].
    destruct (IH s1) as (bs & Hbs & HF); [|done|].
    { intros s2 y s3 Hy. apply Hbody. by right. }
    exists (b :: bs). split; [|by constructor].
    by rewrite Hbs, Hb, <- (assoc_L (++)).
Qed.

Lemma for_each_invariant {A S} (I : S → Prop) (l : list A) (body : S → A → result S) s s' :
  I s → (∀ s x s', x ∈ l → I s → body s x = Ok s' → I s') →
  for_each l body s = Ok s' → I s'.
Proof.
  revert s. induction l as [|x l IH]; intros s Hs Hbody; cbn.
  - by intros [= <-].
  - destruct (body s x) as [s1|e] eqn:Hx; [|done]. cbn. apply IH.
    + eapply Hbody; [left|done..].
    + intros s2 y s3 Hy. apply Hbody. by right.
Qed.

Lemma for_each_raises {A S} (l : list A) (body : S → A → result S) s e :
  for_each l body s = Raise e → ∃ s' x, x ∈ l ∧ body s' x = Raise e.
Proof.
  revert s. induction l as [|x l IH]; intros s; cbn; [done|].
  destruct (body s x) as [s1|e'] eqn:Hx; cbn.
  - intros (s' & y & Hy & Hr)%IH. exists s', y. split; [by right|done].
  - intros [= ->]. exists s, x. split; [left|done].
Qed.

Lemma total_size_app l1 l2 : total_size (l1 ++ l2) = total_size l1 + total_size l2.
Proof. unfold total_size. induction l1 as [|r l1 IH]; cbn; [done|]. rewrite IH. lia. Qed.

Lemma planned_removals_snoc gs n s g :
  planned_removals {| groups := gs ++ [g]; removed_count := n; saved_bytes := s |}
  = concat (removed <$> gs) ++ removed g.
Proof.
  unfold planned_removals. cbn. rewrite fmap_app, concat_app. cbn. by rewrite app_nil_r.
Qed.

Lemma consistent_snoc results g :
  consistent results →
  consistent {| groups := groups results ++ [g];
                removed_count := removed_count results + Z.of_nat (length (removed g));
                saved_bytes := saved_bytes results + total_size (removed g) |}.
Proof.
  intros [Hc Hs]. unfold consistent. rewrite planned_removals_snoc. cbn.
  rewrite length_app, total_size_app. fold (planned_removals results). lia.
Qed.

Lemma planned_record_Some fs f e :
  fs !! f = Some e →
  planned_record fs f
  = Some {| original := f; quarantine := None; size := st_size (entry_stat e) |}.
Proof. intros He. unfold planned_record, size_of. by rewrite He. Qed.

Lemma planned_record_None fs f : fs !! f = None → planned_record fs f = None.
Proof. intros He. unfold planned_record, size_of. by rewrite He. Qed.

Lemma planned_records_all fs (l : list Path) :
  Forall (λ f, is_Some (fs !! f)) l →
  length (omap (planned_record fs) l) = length l
  ∧ original <$> omap (planned_record fs) l = l.
Proof.
  induction 1 as [|f l [e He] _ [IH1 IH2]]; [done|]. cbn [omap list_omap].
  rewrite (planned_record_Some _ _ _ He). cbn [fmap list_fmap length original].
  split; [by rewrite IH1|]. f_equal. exact IH2.
Qed.

Lemma planned_records_spec fs (l : list Path) :
  Forall (λ r, quarantine r = None ∧ size_of fs (original r) = Some (size r))
    (omap (planned_record fs) l)
  ∧ original <$> omap (planned_record fs) l = filter (λ f, is_Some (fs !! f)) l.
Proof.
  induction l as [|f l [IH1 IH2]]; [done|]. cbn [omap list_omap]. rewrite filter_cons.
  destruct (fs !! f) as [e|] eqn:He.
  - rewrite (planned_record_Some _ _ _ He). rewrite decide_True by done. split.
    + constructor; [|done]. cbn. unfold size_of. by rewrite He.
    + cbn [fmap list_fmap original]. f_equal. exact IH2.
  - rewrite (planned_record_None _ _ He). rewrite decide_False by (by intros [? [=]]). done.
Qed.

Lemma bind_Ok {A B} (a : A) (k : A → result B) : Ok a ≫= k = k a.
Proof. reflexivity. Qed.

Lemma bind_Raise {A B} e (k : A → result B) : Raise e ≫= k = Raise e.
Proof. reflexivity. Qed.

Lemma stat_Some fs f e : fs !! f = Some e → stat fs f = Ok (entry_stat e).
Proof. intros He. unfold stat. by rewrite He. Qed.

Lemma stat_None fs f : fs !! f = None → stat fs f = Raise OSError.
Proof. intros He. unfold stat. by rewrite He. Qed.

Section plan.
Implicit Types (fs : FS) (results : run_result).

(** the inner loop of the plan of src/dedup.py *)
Lemma root_plan_removals fs (to_remove : list Path) group_info results :
  for_each to_remove (λ '(group_info, results) f,
    st ← stat fs f;
    let size := st_size st in
    let results :=
      {| groups := groups results; removed_count := removed_count results;
         saved_bytes := saved_bytes results + size |} in
    Ok ({| type := type group_info; keeper := RunResult.keeper group_info;
           removed := removed group_info
             ++ [{| original := f; quarantine := None; size := size |}] |},
        results)) (group_info, results)
  = if decide (Forall (λ f, is_Some (fs !! f)) to_remove)
    then Ok ({| type := type group_info; keeper := keeper group_info;
                removed := removed group_info ++ omap (planned_record fs) to_remove |},
             {| groups := groups results; removed_count := removed_count results;
                saved_bytes := saved_bytes results
                               + total_size (omap (planned_record fs) to_remove) |})
    else Raise OSError.
Proof.
  revert group_info results.
  induction to_remove as [|f l IH]; intros [ty k rm] [gs n s].
  - cbn. rewrite decide_True by constructor. by rewrite app_nil_r, Z.add_0_r.
  - cbn [for_each omap list_omap].
    destruct (fs !! f) as [e|] eqn:He;
      [rewrite (planned_record_Some _ _ _ He), (stat_Some _ _ _ He), !bind_Ok
      |rewrite (planned_record_None _ _ He), (stat_None _ _ He), !bind_Raise].
    + etrans; [apply IH|]. cbn [type keeper removed groups removed_count saved_bytes].
      destruct (decide (Forall _ l)) as [Hl|Hl].
      * rewrite decide_True by (constructor; [by eexists|done]).
        rewrite <- (assoc_L (++)). cbn [total_size foldr RunResult.size app]. do 3 f_equal. 
        fold (total_size (omap (planned_record fs) l)). lia.
      * rewrite decide_False; [done|]. by intros [_ ?]%Forall_cons.
    + rewrite decide_False; [done|]. intros [[? Hf] _]%Forall_cons. congruence.
Qed.

(** the inner loop of the plan of src/wechat-dedup/scripts/dedup.py *)
Lemma scripts_plan_removals fs (to_remove : list Path) group_info results :
  for_each to_remove (λ '(group_info, results) f,
    try_except_OSError
      (st ← stat fs f;
       let size := st_size st in
       let results :=
         {| groups := groups results; removed_count := removed_count results;
            saved_bytes := saved_bytes results + size |} in
       Ok ({| type := type group_info; keeper := RunResult.keeper group_info;
              removed := removed group_info
                ++ [{| original := f; quarantine := None; size := size |}] |},
           results))
      (Ok (group_info, results))) (group_info, results)
  = Ok ({| type := type group_info; keeper := keeper group_info;
           removed := removed group_info ++ omap (planned_record fs) to_remove |},
        {| groups := groups results; removed_count := removed_count results;
           saved_bytes := saved_bytes results
                          + total_size (omap (planned_record fs) to_remove) |}).
Proof.
  revert group_info results.
  induction to_remove as [|f l IH]; intros [ty k rm] [gs n s].
  - cbn. by rewrite app_nil_r, Z.add_0_r.
  - cbn [for_each omap list_omap].
    destruct (fs !! f) as [e|] eqn:He;
      [rewrite (planned_record_Some _ _ _ He), (stat_Some _ _ _ He), !bind_Ok
      |rewrite (planned_record_None _ _ He), (stat_None _ _ He), !bind_Raise];
      cbn [try_except_OSError]; rewrite ?bind_Ok.
    + etrans; [apply IH|]. cbn [type keeper removed groups removed_count saved_bytes].
      rewrite <- (assoc_L (++)). cbn [total_size foldr RunResult.size app]. do 3 f_equal.
      fold (total_size (omap (planned_record fs) l)). lia.
    + apply IH.
Qed.

End plan.

(** *** The plan of src/dedup.py *)

Lemma bind_eq {A B} (m m' : result A) (k : A → result B) : m = m' → m ≫= k = m' ≫= k.
Proof. by intros ->. Qed.

Section plan_spec.
Implicit Types (fs : FS) (results : run_result).

Lemma keeper_missing fs files k rest :
  Root.select_keeper fs files = Ok (k, rest) → fs !! k = None →
  ∀ p, p ∈ files → fs !! p = None.
Proof.
  rewrite select_keeper_pure.
  destruct (sort_keyed (with_creation_time fs files)) as [|y l] eqn:Hs; [done|].
  intros [= <- <-] Hk p Hp.
  pose proof (sort_keyed_sorted (with_creation_time fs files)) as Hsorted.
  pose proof (sort_keyed_perm (with_creation_time fs files)) as Hperm.
  pose proof (with_creation_time_keys fs files) as Hkeys.
  rewrite <- Hperm, Hs in Hkeys. rewrite Hs in Hsorted, Hperm.
  assert ((creation_time fs p, p) ∈ y :: l) as Hin.
  { rewrite Hperm. unfold with_creation_time. apply list_elem_of_fmap. eauto. }
  apply Forall_cons in Hkeys as [Hy _].
  assert (float_le y.1 (creation_time fs p)) as Hle.
  { apply elem_of_cons in Hin as [<-|Hin]; [apply float_le_refl|].
    apply StronglySorted_inv in Hsorted as [_ Hall].
    rewrite Forall_forall in Hall. apply (Hall _ Hin). }
  rewrite Hy in Hle. unfold creation_time in Hle. rewrite Hk in Hle.
  destruct (fs !! p); [done|done].
Qed.

Lemma root_plan_step fs results (files : list Path) :
  ('(keeper, to_remove) ← Root.select_keeper fs files;
   let group_info := {| type := None; keeper := keeper; removed := [] |} in
   created ← Root.get_creation_time fs keeper;
   _ ← fromtimestamp created;
   '(group_info, results) ← for_each to_remove (λ '(group_info, results) f,
     st ← stat fs f;
     let size := st_size st in
     let results :=
       {| groups := groups results; removed_count := removed_count results;
          saved_bytes := saved_bytes results + size |} in
     Ok ({| type := type group_info; keeper := RunResult.keeper group_info;
            removed := removed group_info
              ++ [{| original := f; quarantine := None; size := size |}] |},
         results)) (group_info, results);
   Ok {| groups := groups results ++ [group_info];
         removed_count := removed_count results + Z.of_nat (length to_remove);
         saved_bytes := saved_bytes results |})
  = match Root.select_keeper fs files with
    | Raise e => Raise e
    | Ok (keeper, to_remove) =>
        if decide (fs !! keeper = None) then Raise OverflowError
        else if decide (Forall (λ f, is_Some (fs !! f)) to_remove)
        then Ok {| groups := groups results
                     ++ [{| type := None; keeper := keeper;
                            removed := omap (planned_record fs) to_remove |}];
                   removed_count := removed_count results + Z.of_nat (length to_remove);
                   saved_bytes := saved_bytes results
                                  + total_size (omap (planned_record fs) to_remove) |}
        else Raise OSError
    end.
Proof.
  destruct (Root.select_keeper fs files) as [[k rest]|e]; [|done].
  rewrite bind_Ok. cbv beta iota zeta. rewrite get_creation_time_eq, bind_Ok.
  unfold creation_time. destruct (fs !! k) as [e|] eqn:Hk.
  - rewrite decide_False by done. cbn [fromtimestamp]. rewrite bind_Ok.
    etrans; [apply bind_eq, root_plan_removals|].
    cbn [type keeper removed app].
    destruct (decide (Forall _ rest)); [|done]. rewrite bind_Ok. done.
  - by rewrite decide_True.
Qed.

Lemma select_keeper_keeps fs files k rest :
  Root.select_keeper fs files = Ok (k, rest) → k :: rest ≡ₚ files.
Proof.
  intros Hk. destruct files as [|f files]; [done|].
  destruct (select_keeper_members fs (f :: files)) as (k' & rest' & Hk' & Hperm); [done|].
  rewrite Hk in Hk'. by simplify_eq.
Qed.

Lemma root_plan_ok_step fs s (x : string * list Path) s' :
  (let '(hash_val, files) := x in
   match Root.select_keeper fs files with
   | Raise e => Raise e
   | Ok (keeper, to_remove) =>
       if decide (fs !! keeper = None) then Raise OverflowError
       else if decide (Forall (λ f, is_Some (fs !! f)) to_remove)
       then Ok {| groups := groups s
                    ++ [{| type := None; keeper := keeper;
                           removed := omap (planned_record fs) to_remove |}];
                  removed_count := removed_count s + Z.of_nat (length to_remove);
                  saved_bytes := saved_bytes s
                                 + total_size (omap (planned_record fs) to_remove) |}
       else Raise OSError
   end) = Ok s' →
  ∃ k rest,
    Root.select_keeper fs x.2 = Ok (k, rest)
    ∧ is_Some (fs !! k) ∧ Forall (λ f, is_Some (fs !! f)) rest
    ∧ s' = {| groups := groups s
                ++ [{| type := None; keeper := k;
                       removed := omap (planned_record fs) rest |}];
              removed_count := removed_count s
                               + Z.of_nat (length (omap (planned_record fs) rest));
              saved_bytes := saved_bytes s
                             + total_size (omap (planned_record fs) rest) |}.
Proof.
  destruct x as [h files]. cbn [snd].
  destruct (Root.select_keeper fs files) as [[k rest]|e]; [|done].
  destruct (decide (fs !! k = None)) as [|Hk]; [done|].
  destruct (decide (Forall _ rest)) as [Hrest|]; [|done]. intros [= <-].
  exists k, rest. split_and!; [done| |done|].
  - by apply not_eq_None_Some.
  - by rewrite (proj1 (planned_records_all fs rest Hrest)).
Qed.

Lemma root_plan_groups fs (duplicates : defaultdict string Path) results :
  Root.plan fs duplicates = Ok results →
  Forall2 (λ hf g, planned_group fs None hf.2 g
                   ∧ keeper g :: (original <$> removed g) ≡ₚ hf.2
                   ∧ Forall (λ f, is_Some (fs !! f)) hf.2)
    duplicates (groups results).
Proof.
  unfold Root.plan. intros Hplan.
  apply (for_each_Forall2 groups
    (λ hf g, planned_group fs None hf.2 g
             ∧ keeper g :: (original <$> removed g) ≡ₚ hf.2
             ∧ Forall (λ f, is_Some (fs !! f)) hf.2)) in Hplan as (bs & Hbs & HF);
    [by rewrite Hbs|].
  intros s [h files] s' _ Hbody.
  pose proof (eq_trans (eq_sym (root_plan_step fs s files)) Hbody) as Hbody'.
  apply (root_plan_ok_step fs s (h, files)) in Hbody' as (k & rest & Hk & Hke & Hrest & ->).
  cbn [snd] in *. eexists. split; [done|]. cbn [keeper removed].
  rewrite (proj2 (planned_records_all fs rest Hrest)).
  pose proof (select_keeper_keeps _ _ _ _ Hk) as Hperm. split_and!.
  - exists rest. done.
  - done.
  - rewrite <- Hperm. by constructor.
Qed.

(** X10. When the plan of src/dedup.py (step 3 of [main]) succeeds, it has
    one group for every duplicate group, in the same order: the keeper is
    the one that [select_keeper] picks, the removals are all other files
    of the group, and every file of the group still exists.  Every removal
    record has no quarantine path yet and the size that [stat] reports.
    The removed count is the number of removal records and the saved bytes
    are the sum of their sizes. *)
Theorem root_plan_spec fs (duplicates : defaultdict string Path) results :
  Root.plan fs duplicates = Ok results →
  Forall2 (λ hf g, planned_group fs None hf.2 g
                   ∧ keeper g :: (original <$> removed g) ≡ₚ hf.2
                   ∧ Forall (λ f, is_Some (fs !! f)) hf.2)
    duplicates (groups results)
  ∧ Forall (λ r, quarantine r = None ∧ size_of fs (original r) = Some (size r))
      (planned_removals results)
  ∧ removed_count results = Z.of_nat (length (planned_removals results))
  ∧ saved_bytes results = total_size (planned_removals results).
Proof.
  intros Hplan. split; [by apply root_plan_groups|].
  unfold Root.plan in Hplan. split; [|change (consistent results)].
  - apply (for_each_invariant
      (λ s, Forall (λ r, quarantine r = None ∧ size_of fs (original r) = Some (size r))
              (planned_removals s))) in Hplan; [done|constructor|].
    intros s [h files] s' _ Hs Hbody.
    pose proof (eq_trans (eq_sym (root_plan_step fs s files)) Hbody) as Hbody'.
    apply (root_plan_ok_step fs s (h, files)) in Hbody' as (k & rest & _ & _ & _ & ->).
    rewrite planned_removals_snoc. apply Forall_app. split; [done|].
    apply planned_records_spec.
  - apply (for_each_invariant consistent) in Hplan; [done|done|].
    intros s [h files] s' _ Hs Hbody.
    pose proof (eq_trans (eq_sym (root_plan_step fs s files)) Hbody) as Hbody'.
    apply (root_plan_ok_step fs s (h, files)) in Hbody' as (k & rest & _ & _ & _ & ->).
    exact (consistent_snoc s {| type := None; keeper := k;
                                removed := omap (planned_record fs) rest |} Hs).
Qed.


End plan_spec.

(** *** The plan of src/wechat-dedup/scripts/dedup.py *)

Lemma for_each_Forall2_concat {A S B C} (proj : S → list B) (F : A → list C)
    (R : C → B → Prop) (l : list A) (body : S → A → result S) s s' :
  (∀ s x s', x ∈ l → body s x = Ok s' → ∃ bs, proj s' = proj s ++ bs ∧ Forall2 R (F x) bs) →
  for_each l body s = Ok s' →
  ∃ bs, proj s' = proj s ++ bs ∧ Forall2 R (concat (F <$> l)) bs.
Proof.
  revert s. induction l as [|x l IH]; intros s Hbody; cbn.
  - intros [= <-]. exists []. by rewrite app_nil_r.
  - destruct (body s x) as [s1|e] eqn:Hx; [|done]. cbn. intros Hl.
    destruct (Hbody s x s1) as (b & Hb & HR); [left|done|].
    destruct (IH s1) as (bs & Hbs & HF); [|done|].
    { intros s2 y s3 Hy. apply Hbody. by right. }
    exists (b ++ bs). split; [|by apply Forall2_app].
    by rewrite Hbs, Hb, <- (assoc_L (++)).
Qed.

Lemma for_each_sum {A S} (m : S → Z) (c : A → Z) (l : list A)
    (body : S → A → result S) s s' :
  (∀ s x s', x ∈ l → body s x = Ok s' → m s' = m s + c x) →
  for_each l body s = Ok s' →
  m s' = m s + foldr (λ x n, c x + n) 0 l.
Proof.
  revert s. induction l as [|x l IH]; intros s Hbody; cbn.
  - intros [= <-]. lia.
  - destruct (body s x) as [s1|e] eqn:Hx; [|done]. cbn. intros Hl.
    rewrite (IH s1); [|intros s2 y s3 Hy; apply Hbody; by right|done].
    rewrite (Hbody s x s1); [lia|left|done].
Qed.

Lemma expected_removals_app a b :
  expected_removals (a ++ b) = expected_removals a + expected_removals b.
Proof. unfold expected_removals. induction a as [|x a IH]; cbn; [done|]. rewrite IH. lia. Qed.

Lemma planned_records_length fs (l : list Path) :
  (length (omap (planned_record fs) l) ≤ length l)%nat.
Proof.
  rewrite <- (length_fmap original), (proj2 (planned_records_spec fs l)).
  apply length_filter.
Qed.

Section scripts_plan.
Implicit Types (fs : FS) (results : run_result).

Lemma scripts_plan_step fs results (description : string) (files : list Path) :
  ('(keeper, to_remove) ← Scripts.select_keeper fs files;
   let group_info := {| type := Some description; keeper := keeper; removed := [] |} in
   '(group_info, results) ← for_each to_remove (λ '(group_info, results) f,
     try_except_OSError
       (st ← stat fs f;
        let size := st_size st in
        let results :=
          {| groups := groups results; removed_count := removed_count results;
             saved_bytes := saved_bytes results + size |} in
        Ok ({| type := type group_info; keeper := RunResult.keeper group_info;
               removed := removed group_info
                 ++ [{| original := f; quarantine := None; size := size |}] |},
            results))
       (Ok (group_info, results))) (group_info, results);
   Ok {| groups := groups results ++ [group_info];
         removed_count := removed_count results + Z.of_nat (length to_remove);
         saved_bytes := saved_bytes results |})
  = match Root.select_keeper fs files with
    | Raise e => Raise e
    | Ok (keeper, to_remove) =>
        Ok {| groups := groups results
                ++ [{| type := Some description; keeper := keeper;
                       removed := omap (planned_record fs) to_remove |}];
              removed_count := removed_count results + Z.of_nat (length to_remove);
              saved_bytes := saved_bytes results
                             + total_size (omap (planned_record fs) to_remove) |}
    end.
Proof.
  change (Scripts.select_keeper fs files) with (Root.select_keeper fs files).
  destruct (Root.select_keeper fs files) as [[k rest]|e]; [|done].
  rewrite bind_Ok. cbv beta iota zeta.
  etrans; [apply bind_eq, scripts_plan_removals|]. done.
Qed.

Lemma scripts_plan_group fs s (description : string) (files : list Path) s' :
  match Root.select_keeper fs files with
  | Raise e => Raise e
  | Ok (keeper, to_remove) =>
      Ok {| groups := groups s
              ++ [{| type := Some description; keeper := keeper;
                     removed := omap (planned_record fs) to_remove |}];
            removed_count := removed_count s + Z.of_nat (length to_remove);
            saved_bytes := saved_bytes s
                           + total_size (omap (planned_record fs) to_remove) |}
  end = Ok s' →
  ∃ k rest,
    Root.select_keeper fs files = Ok (k, rest)
    ∧ s' = {| groups := groups s
                ++ [{| type := Some description; keeper := k;
                       removed := omap (planned_record fs) rest |}];
              removed_count := removed_count s + Z.of_nat (length rest);
              saved_bytes := saved_bytes s + total_size (omap (planned_record fs) rest) |}.
Proof.
  destruct (Root.select_keeper fs files) as [[k rest]|e]; [|done].
  intros [= <-]. eauto.
Qed.

Lemma scripts_plan_groups fs
    (all_duplicates : list (string * (defaultdict string Path * string))) results :
  Scripts.plan fs all_duplicates = Ok results →
  Forall2 (λ dg g, planned_group fs (Some dg.1) dg.2 g)
    (all_groups all_duplicates) (groups results).
Proof.
  unfold Scripts.plan. intros Hplan.
  apply (for_each_Forall2_concat groups
    (λ x : string * (list (string * list Path) * string),
       (λ hf : string * list Path, (x.2.2, hf.2)) <$> x.2.1)
    (λ dg g, planned_group fs (Some dg.1) dg.2 g)) in Hplan as (bs & Hbs & HF);
    [by rewrite Hbs|].
  intros s [name [dups description]] s' _ Hinner. cbn [fst snd].
  apply (for_each_Forall2 groups
    (λ hf g, planned_group fs (Some description) hf.2 g)) in Hinner as (bs & Hbs & HF).
  { exists bs. split; [done|]. by apply Forall2_fmap_l. }
  intros s1 [h files] s2 _ Hbody.
  pose proof (eq_trans (eq_sym (scripts_plan_step fs s1 description files)) Hbody) as Hbody'.
  apply scripts_plan_group in Hbody' as (k & rest & Hk & ->).
  eexists. split; [done|]. exists rest. done.
Qed.

(** X12. When the plan of src/wechat-dedup/scripts/dedup.py (step 3 of
    [main]) succeeds, it has one group for every duplicate group of every
    target, in order, typed with the description of the target and with
    the keeper that [select_keeper] picks; a removal whose [stat] fails
    gets no record.  Every record has no quarantine path yet and the size
    that [stat] reports.  The removed count is one less than the number of
    files of each group, summed over the groups, so it is at least the
    number of records; the saved bytes are the sum of the recorded sizes. *)
Theorem scripts_plan_spec fs
    (all_duplicates : list (string * (defaultdict string Path * string))) results :
  Scripts.plan fs all_duplicates = Ok results →
  Forall2 (λ dg g, planned_group fs (Some dg.1) dg.2 g)
    (all_groups all_duplicates) (groups results)
  ∧ Forall (λ r, quarantine r = None ∧ size_of fs (original r) = Some (size r))
      (planned_removals results)
  ∧ removed_count results = expected_removals (all_groups all_duplicates).*2
  ∧ Z.of_nat (length (planned_removals results)) ≤ removed_count results
  ∧ saved_bytes results = total_size (planned_removals results).
Proof.
  intros Hplan. split; [by apply scripts_plan_groups|].
  unfold Scripts.plan in Hplan. split_and!.
  - apply (for_each_invariant
      (λ s, Forall (λ r, quarantine r = None ∧ size_of fs (original r) = Some (size r))
              (planned_removals s))) in Hplan; [done|constructor|].
    intros s [name [dups description]] s' _ Hs Hinner.
    apply (for_each_invariant
      (λ s, Forall (λ r, quarantine r = None ∧ size_of fs (original r) = Some (size r))
              (planned_removals s))) in Hinner; [done|done|].
    intros s1 [h files] s2 _ Hs1 Hbody.
    pose proof (eq_trans (eq_sym (scripts_plan_step fs s1 description files)) Hbody) as Hbody'.
    apply scripts_plan_group in Hbody' as (k & rest & Hk & ->).
    rewrite planned_removals_snoc. apply Forall_app. split; [done|].
    apply planned_records_spec.
  - apply (for_each_sum removed_count
      (λ x : string * (list (string * list Path) * string),
         expected_removals ((λ hf : string * list Path, hf.2) <$> x.2.1))) in Hplan.
    + cbn [removed_count] in Hplan. rewrite Hplan, Z.add_0_l.
      clear Hplan. induction all_duplicates as [|[name [dups description]] l IH]; [done|].
      cbn [foldr]. rewrite IH. unfold all_groups. cbn [fmap list_fmap concat fst snd].
      rewrite fmap_app, expected_removals_app. f_equal.
      by rewrite <- list_fmap_compose.
    + intros s [name [dups description]] s' _ Hinner. cbn [fst snd].
      apply (for_each_sum removed_count
        (λ hf : string * list Path, Z.of_nat (length hf.2) - 1)) in Hinner.
      { rewrite Hinner. f_equal. unfold expected_removals. by rewrite foldr_fmap. }
      intros s1 [h files] s2 _ Hbody.
      pose proof (eq_trans (eq_sym (scripts_plan_step fs s1 description files)) Hbody) as Hbody'.
      apply scripts_plan_group in Hbody' as (k & rest & Hk & ->).
      apply select_keeper_keeps, Permutation_length in Hk. cbn in *. lia.
  - apply (for_each_invariant
      (λ s, saved_bytes s = total_size (planned_removals s)
            ∧ Z.of_nat (length (planned_removals s)) ≤ removed_count s)) in Hplan;
      [by destruct Hplan|done|].
    intros s [name [dups description]] s' _ Hs Hinner.
    apply (for_each_invariant
      (λ s, saved_bytes s = total_size (planned_removals s)
            ∧ Z.of_nat (length (planned_removals s)) ≤ removed_count s)) in Hinner;
      [done|done|].
    intros s1 [h files] s2 _ [Hs1 Hc1] Hbody.
    pose proof (eq_trans (eq_sym (scripts_plan_step fs s1 description files)) Hbody) as Hbody'.
    apply scripts_plan_group in Hbody' as (k & rest & Hk & ->).
    rewrite planned_removals_snoc. cbn [saved_bytes removed_count removed].
    rewrite total_size_app, length_app. fold (planned_removals s1).
    pose proof (planned_records_length fs rest). lia.
  - apply (for_each_invariant
      (λ s, saved_bytes s = total_size (planned_removals s))) in Hplan; [done|done|].
    intros s [name [dups description]] s' _ Hs Hinner.
    apply (for_each_invariant
      (λ s, saved_bytes s = total_size (planned_removals s))) in Hinner; [done|done|].
    intros s1 [h files] s2 _ Hs1 Hbody.
    pose proof (eq_trans (eq_sym (scripts_plan_step fs s1 description files)) Hbody) as Hbody'.
    apply scripts_plan_group in Hbody' as (k & rest & Hk & ->).
    rewrite planned_removals_snoc. cbn [saved_bytes removed].
    rewrite total_size_app. fold (planned_removals s1). lia.
Qed.

(** X13. The plan of src/wechat-dedup/scripts/dedup.py is not stopped by
    files that vanished after the analysis: it succeeds whenever every
    duplicate group is non-empty, and its only failure is the [IndexError]
    of [select_keeper] on an empty group. *)
Theorem scripts_plan_outcome fs
    (all_duplicates : list (string * (defaultdict string Path * string))) :
  match Scripts.plan fs all_duplicates with
  | Ok results => ∀ d g, (d, g) ∈ all_groups all_duplicates → g ≠ []
  | Raise e => e = IndexError ∧ ∃ d, (d, []) ∈ all_groups all_duplicates
  end.
Proof.
  destruct (Scripts.plan fs all_duplicates) as [results|e] eqn:Hplan.
  - apply scripts_plan_groups in Hplan as HF. intros d g [i Hi]%list_elem_of_lookup_1.
    destruct (Forall2_lookup_l _ _ _ _ _ HF Hi) as (gi & _ & rest & Hsel & _).
    cbn [snd] in Hsel. apply select_keeper_keeps in Hsel.
    intros ->. by apply Permutation_nil_r in Hsel.
  - unfold Scripts.plan in Hplan.
    apply for_each_raises in Hplan as (s & [name [dups description]] & Hin & Hinner).
    apply for_each_raises in Hinner as (s1 & [h files] & Hin' & Hbody).
    pose proof (eq_trans (eq_sym (scripts_plan_step fs s1 description files)) Hbody) as Hbody'.
    destruct (Root.select_keeper fs files) as [[k rest]|e'] eqn:Hk; [done|].
    injection Hbody' as <-. destruct (select_keeper_raises _ _ _ Hk) as [-> ->].
    split; [done|]. exists description. unfold all_groups. apply elem_of_concat.
    eexists. split; [|apply list_elem_of_fmap_2; exact Hin]. cbn [fst snd].
    apply list_elem_of_fmap. by exists (h, []).
Qed.

End scripts_plan.

(** ** What the move loop changes *)

Lemma moves_only_refl sources fs : moves_only sources fs fs.
Proof. by split. Qed.

Lemma moves_only_trans sources fs1 fs2 fs3 :
  moves_only sources fs1 fs2 → moves_only sources fs2 fs3 → moves_only sources fs1 fs3.
Proof.
  intros [H1 P1] [H2 P2]. split; [|by rewrite P2].
  intros p e Hp He. apply H2; [done|]. by apply H1.
Qed.

Lemma moves_only_weaken sources sources' fs fs' :
  sources ⊆ sources' → moves_only sources fs fs' → moves_only sources' fs fs'.
Proof.
  intros Hsub [H1 P1]. split; [|done]. intros p e Hp. apply H1. intros Hin. by apply Hp, Hsub.
Qed.

Lemma for_eachM_moves {A S} (sources : list Path) (l : list A) (body : S → A → M S) s w :
  (∀ s x w, x ∈ l → moves_only sources (w_fs w) (w_fs (body s x w).2)) →
  moves_only sources (w_fs w) (w_fs (for_eachM l body s w).2).
Proof.
  revert s w. induction l as [|x l IH]; intros s w Hbody; cbn [for_eachM].
  - apply moves_only_refl.
  - rewrite bind_run. pose proof (Hbody s x w ltac:(left)) as Hx.
    destruct (body s x w) as [[s1|e] w1]; [|done].
    eapply moves_only_trans; [exact Hx|]. apply IH.
    intros s2 y w2 Hy. apply Hbody. by right.
Qed.

Lemma for_eachM_prefix {A S} (P : list A → S → Prop)
    (l : list A) (body : S → A → M S) s w s' w' :
  P [] s →
  (∀ pre x s w s' w', x ∈ l → P pre s → body s x w = (Ok s', w') → P (pre ++ [x]) s') →
  for_eachM l body s w = (Ok s', w') → P l s'.
Proof.
  intros Hs Hbody.
  enough (∀ pre, P pre s → for_eachM l body s w = (Ok s', w') → P (pre ++ l) s') as Hgen
    by apply (Hgen []), Hs.
  clear Hs. revert s w Hbody. induction l as [|x l IH]; intros s w Hbody pre Hpre;
    cbn [for_eachM].
  - intros [= <- <-]. by rewrite app_nil_r.
  - rewrite bind_run. destruct (body s x w) as [[s1|e] w1] eqn:Hx; [|done]. intros Hl.
    rewrite (cons_middle x pre l), (assoc_L (++)). apply (IH s1 w1); [|by eapply Hbody; [left|..]|done].
    intros pre' y s2 w2 s3 w3 Hy. apply Hbody. by right.
Qed.

Section execute.
Context (home : Path).
Implicit Types (w : World) (results : run_result).

Lemma root_move_removed_spec done removed w :
  moves_only [original removed] (w_fs w) (w_fs (Root.move_removed home done removed w).2)
  ∧ ∀ s' w', Root.move_removed home done removed w = (Ok s', w') →
      ∃ r', s' = done ++ [r'] ∧ moved_record (Root.QUARANTINE_DIR home) removed r'.
Proof.
  unfold Root.move_removed. rewrite bind_run. unfold reading.
  destruct (exists_ (w_fs w) (original removed)).
  - rewrite bind_run.
    destruct (move_to_quarantine_spec w (original removed) (Root.QUARANTINE_DIR home))
      as (j & r & w1 & -> & _ & _ & Hr & Hkeep & Hfiles & _).
    destruct Hr as [-> | ->]; cbn.
    + split.
      * split; [|done]. intros p e Hp. apply Hkeep. intros ->. apply Hp. left.
      * intros s' w' [= <- <-]. eexists. split; [done|]. right. eauto.
    + split; [|done]. split; [|done]. intros p e Hp. apply Hkeep. intros ->. apply Hp. left.
  - cbn. split; [apply moves_only_refl|]. intros s' w' [= <- <-].
    eexists. split; [done|]. by left.
Qed.

Lemma scripts_move_removed_spec results done moved_count removed w :
  moves_only [original removed] (w_fs w)
    (w_fs (Scripts.move_removed home results (done, moved_count) removed w).2)
  ∧ ∀ s' w', Scripts.move_removed home results (done, moved_count) removed w = (Ok s', w') →
      s' = (done ++ [removed], moved_count)
      ∨ ∃ j, s' = (done ++ [{| original := original removed;
                               quarantine := Some (candidate (original removed)
                                                     (Scripts.QUARANTINE_DIR home) j);
                               size := size removed |}], moved_count + 1).
Proof.
  unfold Scripts.move_removed. rewrite bind_run. unfold reading.
  destruct (exists_ (w_fs w) (original removed)).
  - rewrite bind_run.
    destruct (move_to_quarantine_spec w (original removed) (Scripts.QUARANTINE_DIR home))
      as (j & r & w1 & Hrun & _ & _ & Hr & Hkeep & Hfiles & _).
    change (Scripts.move_to_quarantine (original removed) (Scripts.QUARANTINE_DIR home) w)
      with (Root.move_to_quarantine (original removed) (Scripts.QUARANTINE_DIR home) w).
    rewrite Hrun.
    assert (moves_only [original removed] (w_fs w) (w_fs w1)) as Hmoves.
    { split; [|done]. intros p e Hp. apply Hkeep. intros ->. apply Hp. left. }
    destruct Hr as [-> | ->]; [|done].
    rewrite bind_run. repeat case_decide; cbn; (split; [done|]);
      intros s' w' [= <- <-]; right; eauto.
  - cbn. split; [apply moves_only_refl|]. intros s' w' [= <- <-]. by left.
Qed.

End execute.

(** *** The records after the move loop *)

Lemma planned_removals_group results g r :
  g ∈ groups results → r ∈ removed g → r ∈ planned_removals results.
Proof.
  intros Hg Hr. unfold planned_removals. apply elem_of_concat. exists (removed g).
  split; [done|]. by apply list_elem_of_fmap_2.
Qed.

Section execute_spec.
Context (home : Path).
Implicit Types (w : World) (results : run_result).

Lemma root_execute_group_moves results done group w :
  group ∈ groups results →
  moves_only (original <$> planned_removals results) (w_fs w)
    (w_fs ((removed' ← for_eachM (removed group) (Root.move_removed home) [];
            mret (done ++ [{| type := type group; keeper := keeper group;
                              removed := removed' |}])) w).2).
Proof.
  intros Hg. rewrite bind_run.
  pose proof (for_eachM_moves (original <$> planned_removals results) (removed group)
                (Root.move_removed home) [] w) as Hmoves.
  destruct (for_eachM (removed group) (Root.move_removed home) [] w) as [[removed'|e] w1];
    apply Hmoves; intros s x w2 Hx;
    (eapply moves_only_weaken; [|apply root_move_removed_spec]);
    intros p ->%list_elem_of_singleton; apply list_elem_of_fmap_2;
    by eapply planned_removals_group.
Qed.

Lemma root_execute_moves results w :
  moves_only (original <$> planned_removals results) (w_fs w)
    (w_fs (Root.execute home results w).2).
Proof.
  unfold Root.execute. rewrite bind_run.
  pose proof (for_eachM_moves (original <$> planned_removals results) (groups results)
      (λ done group,
         removed' ← for_eachM (removed group) (Root.move_removed home) [];
         mret (done ++ [{| type := type group; keeper := keeper group;
                           removed := removed' |}])) [] w) as Hmoves.
    match type of Hmoves with _ → moves_only _ _ (w_fs (?run).2) =>
      destruct run as [[groups'|e] w1] end;
      apply Hmoves; intros; by apply root_execute_group_moves.
Qed.

(** X14. The move loop of src/dedup.py changes the file system only at the
    original paths of the planned removals: every other entry stays what it
    was and the regular files, as a collection, are the same before and
    after, whether the loop completes or stops on an error.  When it
    completes, the result has the same groups, keepers, removal paths and
    sizes in the same order; a record is unchanged or has received as
    quarantine path one of the destinations of the mover; the removed count
    and the saved bytes are those of the plan. *)
Theorem root_execute_spec results w :
  moves_only (original <$> planned_removals results) (w_fs w)
    (w_fs (Root.execute home results w).2)
  ∧ ∀ results' w',
      Root.execute home results w = (Ok results', w') →
      Forall2 (moved_group (Root.QUARANTINE_DIR home)) (groups results) (groups results')
      ∧ removed_count results' = removed_count results
      ∧ saved_bytes results' = saved_bytes results.
Proof.
  split; [apply root_execute_moves|]. unfold Root.execute. rewrite bind_run.
  - match goal with |- context [for_eachM (groups results) ?body [] w] =>
      destruct (for_eachM (groups results) body [] w) as [[groups'|e] w1] eqn:Hrun end;
      [|done].
    intros results' w' [= <- <-]. cbn [groups removed_count saved_bytes].
    split; [|done].
    apply (for_eachM_prefix (λ pre done, Forall2 (moved_group (Root.QUARANTINE_DIR home)) pre done))
      in Hrun; [done|constructor|].
    intros pre g done w2 done' w3 _ Hpre. rewrite bind_run.
    destruct (for_eachM (removed g) (Root.move_removed home) [] w2)
      as [[removed'|e] w4] eqn:Hinner; [|done].
    intros [= <- <-]. apply Forall2_app; [done|]. constructor; [|constructor].
    split_and!; [done..|]. cbn [removed].
    apply (for_eachM_prefix (λ pre done, Forall2 (moved_record (Root.QUARANTINE_DIR home)) pre done))
      in Hinner; [done|constructor|].
    intros pre' r done0 w5 done1 w6 _ Hpre' Hstep.
    apply root_move_removed_spec in Hstep as (r' & -> & Hr').
    apply Forall2_app; [done|]. by constructor.
Qed.

Lemma scripts_execute_group_moves results (done : list group_info) (moved_count : Z) group w :
  group ∈ groups results →
  moves_only (original <$> planned_removals results) (w_fs w)
    (w_fs (('(removed', moved_count) ←
              for_eachM (removed group) (Scripts.move_removed home results) ([], moved_count);
            mret (done ++ [{| type := type group; keeper := keeper group;
                              removed := removed' |}], moved_count)) w).2).
Proof.
  intros Hg. rewrite bind_run.
  pose proof (for_eachM_moves (original <$> planned_removals results) (removed group)
                (Scripts.move_removed home results) ([], moved_count) w) as Hmoves.
  destruct (for_eachM (removed group) (Scripts.move_removed home results) ([], moved_count) w)
    as [[[removed' n]|e] w1];
    apply Hmoves; intros [s n'] x w2 Hx;
    (eapply moves_only_weaken; [|apply scripts_move_removed_spec]);
    intros p ->%list_elem_of_singleton; apply list_elem_of_fmap_2;
    by eapply planned_removals_group.
Qed.

Lemma scripts_execute_moves results w :
  moves_only (original <$> planned_removals results) (w_fs w)
    (w_fs (Scripts.execute home results w).2).
Proof.
  unfold Scripts.execute. rewrite bind_run.
  pose proof (for_eachM_moves (original <$> planned_removals results) (groups results)
      (λ '(done, moved_count) group,
         '(removed', moved_count) ←
           for_eachM (removed group) (Scripts.move_removed home results) ([], moved_count);
         mret (done ++ [{| type := type group; keeper := keeper group;
                           removed := removed' |}], moved_count)) ([], 0) w) as Hmoves.
    match type of Hmoves with _ → moves_only _ _ (w_fs (?run).2) =>
      destruct run as [[[groups' n]|e] w1] end;
      apply Hmoves; intros [done n'] g w2 Hg; by apply scripts_execute_group_moves.
Qed.

(** X15. The move loop of src/wechat-dedup/scripts/dedup.py changes the file
    system only at the original paths of the planned removals, whether it
    completes or stops on an error.  When it completes, the result has the
    same groups, keepers, removal paths and sizes in the same order, and
    the counters of the plan; the count of moved files lies between zero
    and the number of records and, for a plan whose records have no
    quarantine path yet, is the number of records that received one. *)
Theorem scripts_execute_spec results w :
  moves_only (original <$> planned_removals results) (w_fs w)
    (w_fs (Scripts.execute home results w).2)
  ∧ ∀ results' moved_count w',
      Scripts.execute home results w = (Ok (results', moved_count), w') →
      Forall2 (moved_group (Scripts.QUARANTINE_DIR home)) (groups results) (groups results')
      ∧ removed_count results' = removed_count results
      ∧ saved_bytes results' = saved_bytes results
      ∧ 0 ≤ moved_count ≤ Z.of_nat (length (planned_removals results))
      ∧ (Forall (λ r, quarantine r = None) (planned_removals results) →
         moved_count = Z.of_nat (length (quarantined results'))).
Proof.
  split; [apply scripts_execute_moves|]. unfold Scripts.execute. rewrite bind_run.
  - match goal with |- context [for_eachM (groups results) ?body ([], 0) w] =>
      destruct (for_eachM (groups results) body ([], 0) w) as [[[groups' n]|e] w1] eqn:Hrun end;
      [|done].
    intros results' moved_count w' [= <- <- <-]. cbn [groups removed_count saved_bytes].
    apply (for_eachM_prefix (λ pre (s : list group_info * Z),
      Forall2 (moved_group (Scripts.QUARANTINE_DIR home)) pre s.1
      ∧ 0 ≤ s.2 ≤ Z.of_nat (length (concat (removed <$> pre)))
      ∧ (Forall (λ r, quarantine r = None) (concat (removed <$> pre)) →
         s.2 = Z.of_nat (length (filter (λ r, is_Some (quarantine r))
                                   (concat (removed <$> s.1))))))) in Hrun.
    + destruct Hrun as (HF & Hn & Hcount). done.
    + cbn. split_and!; [constructor|lia|lia|done].
    + intros pre g [done n0] w2 [done' n1] w3 _ (Hpre & Hn0 & Hcount). cbn [fst snd] in *.
      rewrite bind_run.
      destruct (for_eachM (removed g) (Scripts.move_removed home results) ([], n0) w2)
        as [[[removed' n2]|e] w4] eqn:Hinner; [|done].
      intros [= <- <- <-].
      apply (for_eachM_prefix (λ pre (s : list removed_info * Z),
        Forall2 (moved_record (Scripts.QUARANTINE_DIR home)) pre s.1
        ∧ n0 ≤ s.2 ≤ n0 + Z.of_nat (length pre)
        ∧ (Forall (λ r, quarantine r = None) pre →
           s.2 = n0 + Z.of_nat (length (filter (λ r, is_Some (quarantine r)) s.1)))))
        in Hinner.
      * destruct Hinner as (HF & Hn2 & Hcount2). cbn [fst snd] in *.
        rewrite !fmap_app, !concat_app, !length_app. cbn [fmap list_fmap concat removed].
        rewrite !app_nil_r. split_and!.
        -- apply Forall2_app; [done|]. by constructor.
        -- lia.
        -- lia.
        -- intros [Hpre_none Hg_none]%Forall_app.
           rewrite filter_app, length_app, Hcount2, Hcount by done. lia.
      * cbn. split_and!; [constructor|lia|lia|]. intros _. lia.
      * intros pre' r [done0 n3] w5 [done1 n4] w6 _ (Hpre' & Hn3 & Hcount3) Hstep.
        cbn [fst snd] in *.
        apply scripts_move_removed_spec in Hstep as [Hs|[j Hs]]; simplify_eq;
          cbn [fst snd]; rewrite length_app; cbn [length].
        -- split_and!; [apply Forall2_app; [done|]; constructor; [by left|constructor]|lia|lia|].
           intros [Hpre_none [Hr_none _]%Forall_cons]%Forall_app.
           rewrite filter_app, length_app, Hcount3 by done.
           rewrite filter_cons, decide_False; [cbn; lia|].
           rewrite Hr_none. by intros [? [=]].
        -- split_and!; [apply Forall2_app; [done|]; constructor; [right; eauto|constructor]
                       |lia|lia|].
           intros [Hpre_none _]%Forall_app.
           rewrite filter_app, length_app, Hcount3 by done.
           rewrite filter_cons, decide_True by (cbn; eauto). cbn. lia.
Qed.

End execute_spec.

(** ** The keepers stay in place *)

Section keeps.
Context {A B : Type} (p : Path).

Lemma keeps_bind (m : M A) (k : A → M B) :
  keeps p m → (∀ a, keeps p (k a)) → keeps p (m ≫= k).
Proof.
  intros Hm Hk w e He. rewrite bind_run. specialize (Hm w e He).
  destruct (m w) as [[a|err] w1]; [by apply Hk|done].
Qed.

Lemma keeps_print m : keeps p (print m).
Proof. by intros w e. Qed.

Lemma keeps_mkdir d : keeps p (mkdir d).
Proof.
  intros w e He. unfold mkdir. case_bool_decide; [done|]. cbn.
  by apply (mkdirs_spec (parents d ++ [d]) (w_fs w)).
Qed.

Lemma keeps_write_text d text : p ≠ d → keeps p (write_text d text).
Proof.
  intros Hne w e He. unfold write_text.
  destruct (w_fs w !! d) as [[]|]; cbn; by rewrite ?lookup_insert_ne.
Qed.

Lemma keeps_moves_only (m : M A) sources :
  p ∉ sources → (∀ w, moves_only sources (w_fs w) (w_fs (m w).2)) → keeps p m.
Proof. intros Hp Hm w e He. by apply (Hm w). Qed.

End keeps.

Lemma NoDup_concat_lookup {A} (ls : list (list A)) i j l1 l2 x :
  NoDup (concat ls) → ls !! i = Some l1 → ls !! j = Some l2 → i ≠ j →
  x ∈ l1 → x ∈ l2 → False.
Proof.
  revert i j. induction ls as [|l ls IH]; intros i j Hnd Hi Hj Hij H1 H2; [done|].
  cbn in Hnd. apply NoDup_app in Hnd as (_ & Hdisj & Hls).
  destruct i as [|i], j as [|j]; simplify_eq/=.
  - apply (Hdisj x H1). apply elem_of_concat. eauto using list_elem_of_lookup_2.
  - apply (Hdisj x H2). apply elem_of_concat. eauto using list_elem_of_lookup_2.
  - apply (IH i j); (done || lia).
Qed.

Lemma NoDup_concat_elem {A} (ls : list (list A)) l :
  NoDup (concat ls) → l ∈ ls → NoDup l.
Proof.
  induction ls as [|l' ls IH]; intros Hnd Hl; [by apply elem_of_nil in Hl|].
  cbn in Hnd. apply NoDup_app in Hnd as (Hl' & _ & Hls).
  apply elem_of_cons in Hl as [->|Hl]; [done|by apply IH].
Qed.

(** No keeper of a plan is among its removals, when no file is in two
    groups or twice in one. *)
Lemma keepers_not_removed (ls : list (list Path)) (gs : list group_info) :
  NoDup (concat ls) →
  Forall2 (λ files g, ∃ rest, keeper g :: rest ≡ₚ files
                              ∧ original <$> removed g ⊆ rest) ls gs →
  ∀ g g', g ∈ gs → g' ∈ gs → keeper g ∉ original <$> removed g'.
Proof.
  intros Hnd HF g g' [i Hi]%list_elem_of_lookup_1 [j Hj]%list_elem_of_lookup_1 Hin.
  destruct (Forall2_lookup_r _ _ _ _ _ HF Hi) as (l1 & Hl1 & rest1 & Hp1 & Hs1).
  destruct (Forall2_lookup_r _ _ _ _ _ HF Hj) as (l2 & Hl2 & rest2 & Hp2 & Hs2).
  destruct (decide (i = j)) as [->|Hij].
  - simplify_eq. apply Hs1 in Hin.
    assert (NoDup (keeper g :: rest1)) as Hnd1.
    { rewrite Hp1. eapply NoDup_concat_elem; eauto using list_elem_of_lookup_2. }
    by apply NoDup_cons in Hnd1 as [? _].
  - apply Hs2 in Hin. apply (NoDup_concat_lookup ls i j l1 l2 (keeper g)); [done..| |].
    + rewrite <- Hp1. left.
    + rewrite <- Hp2. by right.
Qed.

Section root_keepers.
Context `{Hashlib} (home : Path).

Lemma root_scan_below fs documents p :
  Root.scan_documents fs (Root.WECHAT_PATHS home) = Ok documents → p ∈ documents →
  ∃ r, p = home +:+ "/Library/" +:+ r.
Proof.
  rewrite root_scan_pure.
  set (ls := (λ base, filter (λ p, is_document fs p = true) (rglob fs base))
             <$> Root.WECHAT_PATHS home).
  intros Heq. assert (documents = concat ls) as -> by congruence. subst ls.
  intros (l & Hp & (base & -> & Hbase)%list_elem_of_fmap)%elem_of_concat.
  apply list_elem_of_filter in Hp as [_ (_ & _ & (r & _ & ->)%is_under_spec)%elem_of_rglob].
  unfold Root.WECHAT_PATHS in Hbase.
  repeat (apply elem_of_cons in Hbase as [->|Hbase]); [..|by apply elem_of_nil in Hbase];
    unfold joinpath; rewrite !string_app_assoc; eexists; f_equal;
    rewrite !string_app_cons, !string_app_nil_l; reflexivity.
Qed.

End root_keepers.

(** *** A run of src/dedup.py *)

Section root_keepers.
Context `{Hashlib} (home : Path).

Lemma keeps_root_tail p results :
  p ∉ original <$> planned_removals results →
  p ≠ Root.REPORT_FILE home →
  keeps p (_ ← mkdir (Root.QUARANTINE_DIR home);
           results ← Root.execute home results;
           report ← Root.generate_report results (Root.QUARANTINE_DIR home);
           _ ← write_text (Root.REPORT_FILE home) report;
           print MsgDone).
Proof.
  intros Hp Hreport.
  apply keeps_bind; [apply keeps_mkdir|]. intros _.
  apply keeps_bind.
  { apply (keeps_moves_only _ _ (original <$> planned_removals results)); [done|].
    intros w. apply root_execute_moves. }
  intros results'. apply keeps_bind.
  { intros w e He. by rewrite root_report_world. }
  intros report. apply keeps_bind; [by apply keeps_write_text|]. intros _.
  apply keeps_print.
Qed.

(** X16. A run of [main] of src/dedup.py never touches a keeper.  For every
    duplicate group that the run finds, the file that [select_keeper]
    picks is, after the run, at its path with the entry it had before,
    provided no other process changed it while the prompt waited; this
    holds however the run ends: declined, completed, or aborted by an
    error in the middle of the moves.  So of every group one copy stays in
    place. *)
Theorem root_main_keeps_keepers w documents gs h g keeper to_remove e :
  Root.scan_documents (w_fs w) (Root.WECHAT_PATHS home) = Ok documents →
  Root.find_duplicates (w_fs w) documents = Ok gs → (h, g) ∈ gs →
  Root.select_keeper (w_fs w) g = Ok (keeper, to_remove) →
  w_fs w !! keeper = Some e → w_meanwhile w (w_fs w) !! keeper = Some e →
  w_fs (Root.main home w).2 !! keeper = Some e.
Proof.
  intros Hscan Hdup Hg Hk He He'.
  unfold Root.main. rewrite bind_run. unfold reading at 1. rewrite Hscan.
  case_decide; [done|].
  rewrite bind_run. unfold reading at 1. rewrite Hdup.
  case_decide; [done|].
  rewrite bind_run. unfold reading at 1.
  destruct (Root.plan (w_fs w) gs) as [results|err] eqn:Hplan; [|done].
  rewrite bind_run. unfold input.
  destruct (w_answer w) as [answer|]; [|done].
  case_decide; [done|].
  apply root_plan_groups in Hplan as HF.
  assert (keeper ∈ g) as Hkg.
  { rewrite <- (select_keeper_keeps _ _ _ _ Hk). left. }
  assert (∃ gi, gi ∈ groups results ∧ RunResult.keeper gi = keeper) as (gi & Hgi & Hkeeper).
  { apply list_elem_of_lookup_1 in Hg as [i Hi].
    destruct (Forall2_lookup_l _ _ _ _ _ HF Hi) as (gi & Hgi & (rest & Hsel & _) & _).
    cbn [snd] in Hsel. exists gi. split; [by eapply list_elem_of_lookup_2|].
    rewrite Hk in Hsel. by simplify_eq. }
  apply keeps_root_tail; [| |done].
  - intros (r & Hr & (g' & Hin & Hg')%elem_of_concat)%list_elem_of_fmap.
    apply list_elem_of_fmap in Hg' as (gj & -> & Hgj).
    apply (keepers_not_removed gs.*2 (groups results)) with (g := gi) (g' := gj);
      [| |done|done|].
    + apply (find_duplicates_NoDup (w_fs w) documents); [|done].
      by apply (root_scan_NoDup home (w_fs w)).
    + apply Forall2_fmap_l. eapply Forall2_impl; [exact HF|].
      intros [h' files] g0 (_ & Hperm & _). cbn [snd] in *. eauto.
    + rewrite Hkeeper, Hr. by apply list_elem_of_fmap_2.
  - destruct (root_scan_below home (w_fs w) documents keeper Hscan) as [r Hr].
    { by apply (duplicates_in_documents (w_fs w) documents gs h g keeper). }
    rewrite Hr. unfold Root.REPORT_FILE, Root.QUARANTINE_DIR, joinpath.
    rewrite !string_app_assoc. intros Heq%(inj (String.append home)).
    cbv [String.append] in Heq. discriminate.
Qed.

End root_keepers.

(** *** The groups of all targets *)

Section scripts_keepers.
Context `{Hashlib} (home : Path).

Lemma scripts_analyse_pure fs (scan_results : list (string * (list Path * string))) :
  Scripts.analyse fs scan_results
  = Ok (omap (λ '(target_name, (files, description)),
                match filter (λ hf, 2 ≤ length hf.2)%nat (hash_groups fs files) with
                | [] => None
                | duplicates => Some (target_name, (duplicates, description))
                end) scan_results).
Proof.
  unfold Scripts.analyse.
  enough (∀ acc, for_each scan_results (λ all_duplicates '(target_name, (files, description)),
      duplicates ← Scripts.find_duplicates fs files;
      match duplicates with
      | [] => Ok all_duplicates
      | _ => Ok (all_duplicates ++ [(target_name, (duplicates, description))])
      end) acc
    = Ok (acc ++ omap (λ '(target_name, (files, description)),
                match filter (λ hf, 2 ≤ length hf.2)%nat (hash_groups fs files) with
                | [] => None
                | duplicates => Some (target_name, (duplicates, description))
                end) scan_results)) as Hgen by apply (Hgen []).
  induction scan_results as [|[name [files description]] l IH]; intros acc.
  - cbn. by rewrite app_nil_r.
  - cbn [for_each omap list_omap].
    change (Scripts.find_duplicates fs files) with (Root.find_duplicates fs files).
    rewrite find_duplicates_pure, bind_Ok.
    destruct (filter _ (hash_groups fs files)) as [|d dups].
    + rewrite bind_Ok. apply IH.
    + rewrite bind_Ok, IH. by rewrite <- (assoc_L (++)).
Qed.

Lemma scripts_analyse_groups fs (scan_results : list (string * (list Path * string)))
    all_duplicates :
  Scripts.analyse fs scan_results = Ok all_duplicates →
  concat (all_groups all_duplicates).*2
  = concat ((λ x : string * (list Path * string),
               concat (filter (λ hf, 2 ≤ length hf.2)%nat (hash_groups fs x.2.1)).*2)
            <$> scan_results)
  ∧ ∀ name dups description,
      (name, (dups, description)) ∈ all_duplicates →
      ∃ files, (name, (files, description)) ∈ scan_results
               ∧ Root.find_duplicates fs files = Ok dups.
Proof.
  rewrite scripts_analyse_pure. intros Heq.
  match type of Heq with Ok ?l = _ => assert (all_duplicates = l) as -> by congruence end.
  clear Heq. split.
  - induction scan_results as [|[name [files description]] l IH]; [done|].
    cbn [omap list_omap fmap list_fmap concat fst snd]. rewrite <- IH.
    destruct (filter _ (hash_groups fs files)) as [|d dups] eqn:Hd; [done|].
    unfold all_groups. cbn [fmap list_fmap concat fst snd].
    rewrite fmap_app, concat_app. f_equal.
    rewrite fmap_cons. cbn [concat snd]. f_equal. by rewrite <- list_fmap_compose.
  - intros name dups description ([n [files d]] & Hin & Hsome)%list_elem_of_omap.
    destruct (filter _ (hash_groups fs files)) as [|d0 dups0] eqn:Hd; [done|].
    simplify_eq. exists files. split; [done|]. by rewrite find_duplicates_pure, Hd.
Qed.

Lemma duplicates_sublist fs files :
  ∀ p, p ∈ concat (filter (λ hf, 2 ≤ length hf.2)%nat (hash_groups fs files)).*2 → p ∈ files.
Proof.
  intros p (g & Hp & ([h g'] & -> & Hg)%list_elem_of_fmap)%elem_of_concat.
  apply elem_of_duplicates in Hg as [-> _].
  apply list_elem_of_filter in Hp as [_ Hp]. by apply elem_of_hashing_pass in Hp as [? _].
Qed.

Lemma scripts_groups_NoDup fs min_size scan_results all_duplicates :
  Scripts.scan_documents fs (Scripts.WECHAT_BASE home) Scripts.SCAN_TARGETS min_size
  = Ok scan_results →
  Scripts.analyse fs scan_results = Ok all_duplicates →
  NoDup (concat (all_groups all_duplicates).*2).
Proof.
  intros Hscan%scripts_scan_NoDup [-> _]%scripts_analyse_groups.
  apply concat_NoDup.
  - intros l ([n [files d]] & -> & Hin)%list_elem_of_fmap. cbn [fst snd].
    eapply sublist_NoDup; [apply hash_groups_NoDup|].
    + eapply NoDup_concat_elem; [exact Hscan|].
      apply list_elem_of_fmap. by exists (n, (files, d)).
    + apply sublist_concat, fmap_sublist, sublist_filter.
  - intros i j l1 l2 p Hi Hj Hij Hp1 Hp2. rewrite list_lookup_fmap in Hi, Hj.
    destruct (scan_results !! i) as [[n1 [f1 d1]]|] eqn:H1; [|done].
    destruct (scan_results !! j) as [[n2 [f2 d2]]|] eqn:H2; [|done].
    simplify_eq/=. apply duplicates_sublist in Hp1, Hp2.
    apply (NoDup_concat_lookup _ i j f1 f2 p Hscan); [| |done..];
      rewrite list_lookup_fmap; by rewrite ?H1, ?H2.
Qed.

End scripts_keepers.

(** *** A run of src/wechat-dedup/scripts/dedup.py *)

Lemma glob_below fs base pattern d :
  d ∈ glob fs base pattern → ∃ t, d = base +:+ "/" +:+ t.
Proof.
  unfold glob. destruct (strip_prefix "*/" pattern) as [rest|].
  - intros [(X & -> & _)%matches_star_spec _]%list_elem_of_filter. eauto.
  - destruct (exists_ fs _); [|by intros ?%elem_of_nil].
    intros ->%list_elem_of_singleton. by eexists.
Qed.

Section scripts_keepers.
Context `{Hashlib} (home : Path).

Lemma scripts_scan_below fs targets min_size scan_results name files description p :
  Scripts.scan_documents fs (Scripts.WECHAT_BASE home) targets min_size = Ok scan_results →
  (name, (files, description)) ∈ scan_results → p ∈ files →
  ∃ r, p = home +:+ "/Library/" +:+ r.
Proof.
  rewrite scripts_scan_pure. intros Heq.
  match type of Heq with Ok ?l = _ => assert (scan_results = l) as -> by congruence end.
  clear Heq. destruct (exists_ fs _); [|by intros ?%elem_of_nil].
  intros ([n c] & _ & Hsome)%list_elem_of_omap Hp.
  destruct (scanned_files fs _ c min_size) as [|p0 l] eqn:Hfiles; [done|].
  simplify_eq. rewrite <- Hfiles in Hp.
  apply elem_of_scanned_files in Hp as (d & r & f & Hd & _ & -> & _).
  apply glob_below in Hd as [t ->]. unfold Scripts.WECHAT_BASE, joinpath.
  rewrite !string_app_assoc. eexists. f_equal.
Qed.

Lemma keeps_scripts_tail p results :
  p ∉ original <$> planned_removals results →
  p ≠ Scripts.REPORT_FILE home →
  keeps p (_ ← mkdir (Scripts.QUARANTINE_DIR home);
           '(results, moved_count) ← Scripts.execute home results;
           report ← Scripts.generate_report results (Scripts.QUARANTINE_DIR home);
           _ ← write_text (Scripts.REPORT_FILE home) report;
           if decide (moved_count ≠ removed_count results)
           then print (MsgMismatch (removed_count results) moved_count)
           else print MsgDone).
Proof.
  intros Hp Hreport.
  apply keeps_bind; [apply keeps_mkdir|]. intros _.
  apply keeps_bind.
  { apply (keeps_moves_only _ _ (original <$> planned_removals results)); [done|].
    intros w. apply scripts_execute_moves. }
  intros [results' moved_count]. apply keeps_bind.
  { intros w e He. by rewrite scripts_report_world. }
  intros report. apply keeps_bind; [by apply keeps_write_text|]. intros _.
  case_decide; apply keeps_print.
Qed.

(** X17. A run of [main] of src/wechat-dedup/scripts/dedup.py never touches
    a keeper either: for every duplicate group of every target, the file
    that [select_keeper] picks is, after the run, at its path with the
    entry it had before, provided no other process changed it while the
    prompt waited, however the run ends. *)
Theorem scripts_main_keeps_keepers w scan_results all_duplicates target_name
    duplicates description h g keeper to_remove e :
  Scripts.scan_documents (w_fs w) (Scripts.WECHAT_BASE home) Scripts.SCAN_TARGETS
    Scripts.MIN_FILE_SIZE = Ok scan_results →
  Scripts.analyse (w_fs w) scan_results = Ok all_duplicates →
  (target_name, (duplicates, description)) ∈ all_duplicates → (h, g) ∈ duplicates →
  Scripts.select_keeper (w_fs w) g = Ok (keeper, to_remove) →
  w_fs w !! keeper = Some e → w_meanwhile w (w_fs w) !! keeper = Some e →
  w_fs (Scripts.main home w).2 !! keeper = Some e.
Proof.
  intros Hscan Han Hd Hg Hk He He'.
  unfold Scripts.main. rewrite bind_run. unfold reading at 1. rewrite Hscan.
  case_decide; [done|].
  rewrite bind_run. unfold reading at 1. rewrite Han.
  case_decide; [done|].
  rewrite bind_run. unfold reading at 1.
  destruct (Scripts.plan (w_fs w) all_duplicates) as [results|err] eqn:Hplan; [|done].
  rewrite bind_run. unfold input.
  destruct (w_answer w) as [answer|]; [|done].
  case_decide; [done|].
  apply scripts_plan_groups in Hplan as HF.
  change (Scripts.select_keeper (w_fs w) g) with (Root.select_keeper (w_fs w) g) in Hk.
  assert (keeper ∈ g) as Hkg.
  { rewrite <- (select_keeper_keeps _ _ _ _ Hk). left. }
  assert ((description, g) ∈ all_groups all_duplicates) as Hin.
  { unfold all_groups. apply elem_of_concat. eexists. split; [|by apply list_elem_of_fmap_2].
    cbn [fst snd]. apply list_elem_of_fmap. by exists (h, g). }
  assert (∃ gi, gi ∈ groups results ∧ RunResult.keeper gi = keeper) as (gi & Hgi & Hkeeper).
  { apply list_elem_of_lookup_1 in Hin as [i Hi].
    destruct (Forall2_lookup_l _ _ _ _ _ HF Hi) as (gi & Hgi & (rest & Hsel & _)).
    cbn [snd] in Hsel. exists gi. split; [by eapply list_elem_of_lookup_2|].
    rewrite Hk in Hsel. by simplify_eq. }
  apply keeps_scripts_tail; [| |done].
  - intros (r & Hr & (g' & Hin' & Hg')%elem_of_concat)%list_elem_of_fmap.
    apply list_elem_of_fmap in Hg' as (gj & -> & Hgj).
    apply (keepers_not_removed (all_groups all_duplicates).*2 (groups results))
      with (g := gi) (g' := gj); [| |done|done|].
    + by apply (scripts_groups_NoDup home (w_fs w) Scripts.MIN_FILE_SIZE scan_results).
    + apply Forall2_fmap_l. eapply Forall2_impl; [exact HF|].
      intros [d files] g0 (rest & Hsel & _ & Hrem). cbn [snd] in *.
      exists rest. split; [by eapply select_keeper_keeps|].
      rewrite Hrem, (proj2 (planned_records_spec (w_fs w) rest)).
      intros x [_ ?]%list_elem_of_filter. done.
    + rewrite Hkeeper, Hr. by apply list_elem_of_fmap_2.
  - destruct (scripts_analyse_groups (w_fs w) scan_results all_duplicates Han) as [_ Hfiles].
    destruct (Hfiles _ _ _ Hd) as (files & Hin_scan & Hdup).
    destruct (scripts_scan_below (w_fs w) Scripts.SCAN_TARGETS Scripts.MIN_FILE_SIZE
                scan_results target_name files description keeper Hscan Hin_scan) as [r Hr].
    { by apply (duplicates_in_documents (w_fs w) files duplicates h g keeper). }
    rewrite Hr. unfold Scripts.REPORT_FILE, Scripts.QUARANTINE_DIR, joinpath.
    rewrite !string_app_assoc. intros Heq%(inj (String.append home)).
    cbv [String.append] in Heq. discriminate.
Qed.

End scripts_keepers.

(** ** Nothing to do, or a prompt *)

Section prompt.
Context `{Hashlib} (home : Path).

Lemma confirm_block_prompts (proceed : M unit) w :
  grows proceed →
  ∃ rest, logged w ((answer ← input;
                     if decide (lower (strip answer) ≠ "y") then print MsgCancelled
                     else proceed) w).2 (EvInput :: rest).
Proof.
  intros Hgrows. destruct (confirm_block proceed w Hgrows) as (r & w' & -> & Hcases).
  cbn [snd]. destruct Hcases as [(_ & _ & _ & Hl)|[(s & _ & _ & _ & _ & Hl)|(_ & rest & Hl)]];
    eauto.
Qed.


End prompt.

(** ** The lines of the report *)

Lemma within_end before piece : within piece (before +:+ piece).
Proof. exists before, "". by rewrite string_app_nil_r. Qed.

Lemma within_app_l piece x y : within piece x → within piece (x +:+ y).
Proof. intros (b & a & ->). exists b, (a +:+ y). by rewrite !string_app_assoc. Qed.

Lemma within_app_r piece x y : within piece y → within piece (x +:+ y).
Proof. intros (b & a & ->). exists (x +:+ b), a. by rewrite !string_app_assoc. Qed.

Lemma foldl_within {X} (f : string → X → string) (l : list X) x piece init :
  (∀ y, ∃ p, ∀ acc, f acc y = acc +:+ p) →
  x ∈ l → (∀ acc, within piece (f acc x)) → within piece (foldl f init l).
Proof.
  intros Hf (l1 & l2 & ->)%list_elem_of_split Hx.
  rewrite foldl_app. cbn [foldl].
  destruct (foldl_appends f l2 Hf) as [rest ->]. apply within_app_l, Hx.
Qed.

Lemma elem_of_enumerate {A B} (f : nat → B) (l : list A) x :
  x ∈ l → ∃ i, (i, x) ∈ zip (f <$> seq 1 (length l)) l.
Proof.
  intros [k Hk]%list_elem_of_lookup_1. exists (f (1 + k)%nat).
  apply (list_elem_of_lookup_2 _ k). apply lookup_zip_with_Some.
  exists (f (1 + k)%nat), x. split_and!; [done| |done].
  rewrite list_lookup_fmap, lookup_seq_lt by (by eapply lookup_lt_Some). done.
Qed.

Section report_lines.
Implicit Types (results : run_result) (q : Path) (t : datetime).

Lemma root_report_body results q t :
  ∃ head,
    report_at Root.generate_report t results q
    = foldl (λ report '(i, group),
        let report := report +:+ "### 组 " +:+ pretty i +:+ nl +:+ nl in
        let report := report +:+ "**保留**：`" +:+ keeper group +:+ "`" +:+ nl +:+ nl in
        let report := report +:+ "**移除**：" +:+ nl in
        let report := foldl (λ report removed,
          report +:+ "- `" +:+ original removed +:+ "` → `"
                 +:+ str_opt (quarantine removed) +:+ "`" +:+ nl) report (removed group) in
        report +:+ nl) head
        (zip (Z.of_nat <$> seq 1 (length (groups results))) (groups results))
      +:+ lines [""; "---"; "";
                 "> 这些文件已移动到隔离文件夹，30天后请自行确认删除。";
                 "> 如需恢复，请从隔离文件夹中找回。"].
Proof. eexists. reflexivity. Qed.

Lemma root_report_step (x : Z * group_info) :
  ∃ p, ∀ acc,
    (let '(i, group) := x in
     let report := acc +:+ "### 组 " +:+ pretty i +:+ nl +:+ nl in
     let report := report +:+ "**保留**：`" +:+ keeper group +:+ "`" +:+ nl +:+ nl in
     let report := report +:+ "**移除**：" +:+ nl in
     let report := foldl (λ report removed,
       report +:+ "- `" +:+ original removed +:+ "` → `"
              +:+ str_opt (quarantine removed) +:+ "`" +:+ nl) report (removed group) in
     report +:+ nl) = acc +:+ p.
Proof.
  destruct x as [i group].
  destruct (foldl_appends (λ report removed,
    report +:+ "- `" +:+ original removed +:+ "` → `"
           +:+ str_opt (quarantine removed) +:+ "`" +:+ nl) (removed group))
    as [inner Hinner]; [by eexists|].
  eexists. intros acc. cbn zeta. rewrite Hinner, !string_app_assoc. reflexivity.
Qed.

(** X19. The report of src/dedup.py lists every group and every planned
    removal of the run result: for each group a line naming the keeper
    with its full path, and for each removal record a line with the
    original path and the quarantine path (printed as [None] for a file
    that was not moved). *)
Theorem root_report_lists_removals results q t g r :
  g ∈ groups results → r ∈ removed g →
  within ("**保留**：`" +:+ keeper g +:+ "`" +:+ nl)
    (report_at Root.generate_report t results q)
  ∧ within ("- `" +:+ original r +:+ "` → `" +:+ str_opt (quarantine r) +:+ "`" +:+ nl)
      (report_at Root.generate_report t results q).
Proof.
  intros Hg Hr. destruct (root_report_body results q t) as [head ->].
  destruct (elem_of_enumerate Z.of_nat (groups results) g Hg) as [i Hi].
  split; apply within_app_l.
  - apply (foldl_within _ _ (i, g)); [apply root_report_step|done|]. intros acc.
    cbn zeta. apply within_app_l.
    destruct (foldl_appends (λ report removed,
      report +:+ "- `" +:+ original removed +:+ "` → `"
             +:+ str_opt (quarantine removed) +:+ "`" +:+ nl) (removed g))
      as [inner ->]; [by eexists|].
    do 2 apply within_app_l. apply within_app_r.
    exists "", nl. by rewrite string_app_nil_l, !string_app_assoc.
  - apply (foldl_within _ _ (i, g)); [apply root_report_step|done|]. intros acc.
    cbn zeta. apply within_app_l.
    apply (foldl_within _ _ r); [by eexists|done|]. intros acc'. apply within_end.
Qed.

Lemma scripts_report_body results q t :
  ∃ head,
    report_at Scripts.generate_report t results q
    = foldl (λ report '(file_type, groups),
        let report := report +:+ "### " +:+ file_type +:+ nl +:+ nl in
        foldl (λ report '(i, group),
          let keeper_name := name (keeper group) in
          let report := report +:+ "**组 " +:+ pretty i +:+ "** - 保留：`"
                               +:+ keeper_name +:+ "`" +:+ nl in
          let report := foldl (λ report removed,
            let removed_name := name (original removed) in
            report +:+ "- `" +:+ removed_name +:+ "` ("
                   +:+ Scripts.format_size (size removed) +:+ ")" +:+ nl) report (removed group) in
          report +:+ nl) report (zip (Z.of_nat <$> seq 1 (length groups)) groups)) head
        (group_by_key (λ group, Some (default "未知" (type group))) [] (groups results))
      +:+ "---" +:+ nl +:+ nl +:+ "> 文件已移动到隔离文件夹，确认后可删除。" +:+ nl.
Proof. eexists. reflexivity. Qed.

Lemma scripts_report_group_step (x : Z * group_info) :
  ∃ p, ∀ acc,
    (let '(i, group) := x in
     let keeper_name := name (keeper group) in
     let report := acc +:+ "**组 " +:+ pretty i +:+ "** - 保留：`"
                       +:+ keeper_name +:+ "`" +:+ nl in
     let report := foldl (λ report removed,
       let removed_name := name (original removed) in
       report +:+ "- `" +:+ removed_name +:+ "` ("
              +:+ Scripts.format_size (size removed) +:+ ")" +:+ nl) report (removed group) in
     report +:+ nl) = acc +:+ p.
Proof.
  destruct x as [i group].
  destruct (foldl_appends (λ report removed,
    let removed_name := name (original removed) in
    report +:+ "- `" +:+ removed_name +:+ "` ("
           +:+ Scripts.format_size (size removed) +:+ ")" +:+ nl) (removed group))
    as [inner Hinner]; [by eexists|].
  eexists. intros acc. cbn zeta. rewrite Hinner, !string_app_assoc. reflexivity.
Qed.

Lemma scripts_report_type_step (x : string * list group_info) :
  ∃ p, ∀ acc,
    (let '(file_type, groups) := x in
     let report := acc +:+ "### " +:+ file_type +:+ nl +:+ nl in
     foldl (λ report '(i, group),
       let keeper_name := name (keeper group) in
       let report := report +:+ "**组 " +:+ pretty i +:+ "** - 保留：`"
                            +:+ keeper_name +:+ "`" +:+ nl in
       let report := foldl (λ report removed,
         let removed_name := name (original removed) in
         report +:+ "- `" +:+ removed_name +:+ "` ("
                +:+ Scripts.format_size (size removed) +:+ ")" +:+ nl) report (removed group) in
       report +:+ nl) report (zip (Z.of_nat <$> seq 1 (length groups)) groups)) = acc +:+ p.
Proof.
  destruct x as [file_type groups].
  destruct (foldl_appends (λ report '(i, group),
    let keeper_name := name (keeper group) in
    let report := report +:+ "**组 " +:+ pretty i +:+ "** - 保留：`"
                         +:+ keeper_name +:+ "`" +:+ nl in
    let report := foldl (λ report removed,
      let removed_name := name (original removed) in
      report +:+ "- `" +:+ removed_name +:+ "` ("
             +:+ Scripts.format_size (size removed) +:+ ")" +:+ nl) report (removed group) in
    report +:+ nl) (zip (Z.of_nat <$> seq 1 (length groups)) groups)) as [inner Hinner];
    [apply scripts_report_group_step|].
  eexists. intros acc. cbn zeta. rewrite Hinner, !string_app_assoc. reflexivity.
Qed.

(** X20. The report of src/wechat-dedup/scripts/dedup.py lists every group
    and every planned removal of the run result: a heading with the type
    of the group ([未知] for a group without type), a line naming the keeper
    and for each removal record a line with the formatted size.  Files are
    shown by their name only, without directory and without quarantine
    path. *)
Theorem scripts_report_lists_removals results q t g r :
  g ∈ groups results → r ∈ removed g →
  within ("### " +:+ default "未知" (type g) +:+ nl)
    (report_at Scripts.generate_report t results q)
  ∧ within ("保留：`" +:+ name (keeper g) +:+ "`" +:+ nl)
      (report_at Scripts.generate_report t results q)
  ∧ within ("- `" +:+ name (original r) +:+ "` ("
            +:+ Scripts.format_size (size r) +:+ ")" +:+ nl)
      (report_at Scripts.generate_report t results q).
Proof.
  intros Hg Hr. destruct (scripts_report_body results q t) as [head ->].
  set (key := λ group : group_info, Some (default "未知" (type group))).
  set (bucket := filter (λ x, key x = Some (default "未知" (type g))) (groups results)).
  assert (g ∈ bucket) as Hgb by (by apply list_elem_of_filter).
  assert ((default "未知" (type g), bucket) ∈ group_by_key key [] (groups results)) as Hb.
  { apply elem_of_group_by_key. split; [done|]. intros Hnil. rewrite Hnil in Hgb.
    by apply elem_of_nil in Hgb. }
  destruct (elem_of_enumerate Z.of_nat bucket g Hgb) as [i Hi].
  split_and!; apply within_app_l;
    (apply (foldl_within _ _ (default "未知" (type g), bucket));
       [apply scripts_report_type_step|done|]); intros acc; cbn zeta.
  - destruct (foldl_appends (λ report '(i, group),
      let keeper_name := name (keeper group) in
      let report := report +:+ "**组 " +:+ pretty i +:+ "** - 保留：`"
                           +:+ keeper_name +:+ "`" +:+ nl in
      let report := foldl (λ report removed,
        let removed_name := name (original removed) in
        report +:+ "- `" +:+ removed_name +:+ "` ("
               +:+ Scripts.format_size (size removed) +:+ ")" +:+ nl) report (removed group) in
      report +:+ nl) (zip (Z.of_nat <$> seq 1 (length bucket)) bucket)) as [inner ->];
      [apply scripts_report_group_step|].
    apply within_app_l, within_app_r. exists "", nl.
    by rewrite string_app_nil_l, !string_app_assoc.
  - apply (foldl_within _ _ (i, g)); [apply scripts_report_group_step|done|]. intros acc'.
    cbn zeta. apply within_app_l.
    destruct (foldl_appends (λ report removed,
      let removed_name := name (original removed) in
      report +:+ "- `" +:+ removed_name +:+ "` ("
             +:+ Scripts.format_size (size removed) +:+ ")" +:+ nl) (removed g))
      as [inner ->]; [by eexists|].
    apply within_app_l. apply within_app_r.
    exists ("**组 " +:+ pretty i +:+ "** - "), "".
    by rewrite string_app_nil_r, !string_app_assoc.
  - apply (foldl_within _ _ (i, g)); [apply scripts_report_group_step|done|]. intros acc'.
    cbn zeta. apply within_app_l.
    apply (foldl_within _ _ r); [by eexists|done|]. intros acc''. apply within_end.
Qed.

End report_lines.

(** ** The names in the quarantine *)

Lemma chars_app a b : chars (a +:+ b) = chars a ++ chars b.
Proof.
  induction a as [|x a IH]; [done|]. rewrite string_app_cons. cbn. f_equal. exact IH.
Qed.

Lemma after_last_None c s : after_last c s = None ↔ c ∉ chars s.
Proof.
  induction s as [|a s IH]; cbn [after_last chars String.list_ascii_of_string].
  - split; [intros _; apply not_elem_of_nil|done].
  - fold (chars s). rewrite not_elem_of_cons, <- IH.
    destruct (after_last c s); [split; [done|by intros [_ ?]]|].
    case_decide; [split; [done|]; by intros [? _]|]. split; [|done]. intros _. split; [|done].
    congruence.
Qed.

Lemma before_last_None c s : before_last c s = None ↔ after_last c s = None.
Proof.
  induction s as [|a s IH]; cbn [after_last before_last]; [done|].
  destruct (before_last c s), (after_last c s); try done.
  - discriminate (proj2 IH eq_refl).
  - discriminate (proj1 IH eq_refl).
  - by case_decide.
Qed.

Lemma after_last_Some c s r :
  after_last c s = Some r →
  (c ∉ chars r) ∧ ∃ b, s = b +:+ String c r ∧ before_last c s = Some b.
Proof.
  revert r. induction s as [|a s IH]; intros r; cbn [after_last before_last]; [done|].
  destruct (after_last c s) as [r'|] eqn:Ha.
  - intros [= <-]. destruct (IH r' eq_refl) as (Hr & b & -> & Hb). split; [done|].
    exists (String a b). split; [by rewrite string_app_cons|]. by rewrite Hb.
  - case_decide as Hac; [|done]. intros [= <-]. subst a. split; [by apply after_last_None|].
    exists "". split; [done|]. apply before_last_None in Ha. by rewrite Ha.
Qed.

Lemma after_last_app c b r :
  c ∉ chars r →
  after_last c (b +:+ String c r) = Some r ∧ before_last c (b +:+ String c r) = Some b.
Proof.
  intros Hr. induction b as [|a b [IHa IHb]].
  - rewrite string_app_nil_l. cbn [after_last before_last].
    apply after_last_None in Hr as Ha. apply before_last_None in Ha as Hb.
    rewrite Ha, Hb. by rewrite !decide_True by done.
  - rewrite string_app_cons. cbn [after_last before_last]. by rewrite IHa, IHb.
Qed.

Lemma name_component p : component (name p).
Proof.
  unfold component, name. destruct (after_last "/" p) as [r|] eqn:Hp; cbn.
  - by apply after_last_Some in Hp as [? _].
  - by apply after_last_None.
Qed.

Lemma name_joinpath q n : component n → name (joinpath q n) = n.
Proof.
  intros Hn. unfold name, joinpath. rewrite string_app_cons, string_app_nil_l.
  by rewrite (proj1 (after_last_app "/" q n Hn)).
Qed.

Lemma suffix_cases p :
  suffix p = "" ∧ stem p = name p
  ∨ ∃ b s a ext,
      stem p = String b s ∧ suffix p = String "." (String a ext)
      ∧ ("."%char ∉ chars (String a ext)) ∧ name p = stem p +:+ suffix p.
Proof.
  unfold suffix, stem.
  destruct (after_last "." (name p)) as [[|a ext]|] eqn:Ha.
  - left. by destruct (before_last "." (name p)) as [[|??]|].
  - apply after_last_Some in Ha as (Hext & b & Hname & ->).
    destruct b as [|b s]; [by left|]. right. exists b, s, a, ext. by split_and!.
  - left. by destruct (before_last "." (name p)) as [[|??]|].
Qed.

Lemma pretty_N_char_digit d : pretty_N_char d ∈ chars "0123456789".
Proof.
  unfold pretty_N_char. repeat case_match; apply (bool_decide_unpack _); vm_compute; exact I.
Qed.

Lemma pretty_N_go_chars x s c :
  c ∈ chars (pretty_N_go x s) → c ∈ chars s ∨ c ∈ chars "0123456789".
Proof.
  revert s. induction (N.lt_wf_0 x) as [x _ IH]; intros s.
  destruct (decide (0 < x)%N) as [Hx|Hx].
  - rewrite pretty_N_go_step by done. intros Hc.
    apply IH in Hc as [Hc|Hc]; [|by right|by apply N.div_lt].
    cbn in Hc. apply elem_of_cons in Hc as [->|Hc]; [right; apply pretty_N_char_digit|by left].
  - assert (x = 0%N) as -> by lia. rewrite pretty_N_go_0. by left.
Qed.

Lemma pretty_Z_component (z : Z) : component (pretty z).
Proof.
  assert (∀ p, component (pretty (N.pos p))) as Hpos.
  { intros p Hin. unfold pretty, pretty_N in Hin. rewrite decide_False in Hin by done.
    apply pretty_N_go_chars in Hin as [Hin|Hin]; [by apply elem_of_nil in Hin|].
    cbn in Hin. repeat (apply elem_of_cons in Hin as [Hin|Hin]; [done|]).
    by apply elem_of_nil in Hin. }
  destruct z as [|p|p]; unfold pretty, pretty_Z.
  - intros Hin. cbn in Hin. apply elem_of_cons in Hin as [Hin|Hin]; [done|].
    by apply elem_of_nil in Hin.
  - apply Hpos.
  - unfold component. rewrite chars_app. cbn. intros [Hin|Hin]%elem_of_cons; [done|].
    by apply (Hpos p).
Qed.

Lemma stem_suffix_component p : component (stem p) ∧ component (suffix p).
Proof.
  pose proof (name_component p) as Hn.
  destruct (suffix_cases p) as [[-> ->]|(b & s & a & ext & Hs & Hx & _ & Hname)].
  - split; [done|]. apply not_elem_of_nil.
  - rewrite Hname in Hn. unfold component in *. rewrite chars_app in Hn.
    apply not_elem_of_app in Hn. done.
Qed.

(** X21. Every destination that [move_to_quarantine] (either variant) tries
    is the quarantine directory joined with a single component: the
    directories of the source are dropped, the quarantine is flat.  The
    first destination has the name of the source.  A numbered destination
    keeps the extension of the source when it has one.  (A name that ends
    in a dot has no suffix for [pathlib], and its numbered copy gets one:
    [a.] becomes [a._1].) *)
Theorem quarantine_destination_name (filepath quarantine_dir : Path) (k : nat) :
  ∃ n, candidate filepath quarantine_dir k = joinpath quarantine_dir n
       ∧ component n
       ∧ name (candidate filepath quarantine_dir k) = n
       ∧ (k = 0%nat → n = name filepath)
       ∧ (k = 0%nat ∨ suffix filepath ≠ "" →
          suffix (candidate filepath quarantine_dir k) = suffix filepath).
Proof.
  destruct k as [|k]; cbn [candidate].
  - exists (name filepath). pose proof (name_component filepath) as Hn.
    split_and!; [done|done|by apply name_joinpath|done|].
    intros _. unfold suffix. by rewrite name_joinpath.
  - eexists. split; [done|].
    destruct (stem_suffix_component filepath) as [Hstem Hsuffix].
    assert (component (stem filepath +:+ "_" +:+ pretty (Z.of_nat (S k)) +:+ suffix filepath))
      as Hn.
    { unfold component in *. rewrite !chars_app. rewrite !not_elem_of_app.
      split_and!; [done| |apply pretty_Z_component|done].
      cbn. intros [?|?%elem_of_nil]%elem_of_cons; done. }
    split_and!; [done|by apply name_joinpath|done|].
    intros [?|Hne]; [done|].
    destruct (suffix_cases filepath) as [[? _]|(b & s & a & ext & Hs & Hx & Hext & _)]; [done|].
    unfold suffix at 1. rewrite name_joinpath by done. rewrite Hx, Hs.
    rewrite <- !string_app_assoc.
    destruct (after_last_app "." ((String b s +:+ "_") +:+ pretty (Z.of_nat (S k)))
                (String a ext) Hext) as [-> ->].
    by rewrite !string_app_cons.
Qed.

(** ** How a run can fail *)

Section raises.
Context {A B : Type}.

Lemma raises_ret (a : A) : raises_OSError (mret a).
Proof. by intros w e. Qed.

Lemma raises_bind (m : M A) (k : A → M B) :
  raises_OSError m → (∀ a, raises_OSError (k a)) → raises_OSError (m ≫= k).
Proof.
  intros Hm Hk w e. rewrite bind_run. specialize (Hm w).
  destruct (m w) as [[a|e'] w1]; [apply Hk|]. cbn in *. intros [= <-]. by apply Hm.
Qed.

End raises.

Lemma raises_for_eachM {A B} (l : list B) (body : A → B → M A) s :
  (∀ s x, raises_OSError (body s x)) → raises_OSError (for_eachM l body s).
Proof.
  intros Hbody. revert s. induction l as [|x l IH]; intros s; cbn [for_eachM].
  - apply raises_ret.
  - apply raises_bind; [apply Hbody|apply IH].
Qed.

Lemma raises_print m : raises_OSError (print m).
Proof. by intros w e. Qed.

Lemma raises_mkdir p : raises_OSError (mkdir p).
Proof. intros w e. unfold mkdir. case_bool_decide; cbn; [by intros [= <-]|done]. Qed.

Lemma raises_write_text p text : raises_OSError (write_text p text).
Proof.
  intros w e. unfold write_text. destruct (w_fs w !! p) as [[]|]; cbn; try done.
  by intros [= <-].
Qed.

Lemma raises_move_to_quarantine fp q : raises_OSError (Root.move_to_quarantine fp q).
Proof.
  intros w e. destruct (move_to_quarantine_spec w fp q) as (j & r & w' & -> & _ & _ & Hr & _).
  cbn. destruct Hr as [-> | ->]; [done|]. by intros [= <-].
Qed.

Lemma raises_exists p : raises_OSError (reading (λ fs, Ok (exists_ fs p))).
Proof. by intros w e. Qed.

Lemma raises_root_execute home results : raises_OSError (Root.execute home results).
Proof.
  unfold Root.execute. apply raises_bind; [|intros; apply raises_ret].
  apply raises_for_eachM. intros done group.
  apply raises_bind; [|intros; apply raises_ret].
  apply raises_for_eachM. intros done' removed. unfold Root.move_removed.
  apply raises_bind; [apply raises_exists|]. intros [|]; [|apply raises_ret].
  apply raises_bind; [apply raises_move_to_quarantine|]. intros new_path.
  apply raises_bind; [apply raises_print|]. intros _. apply raises_ret.
Qed.

Lemma raises_scripts_execute home results : raises_OSError (Scripts.execute home results).
Proof.
  unfold Scripts.execute. apply raises_bind; [|intros []; apply raises_ret].
  apply raises_for_eachM. intros [done n] group.
  apply raises_bind; [|intros []; apply raises_ret].
  apply raises_for_eachM. intros [done' n'] removed. unfold Scripts.move_removed.
  apply raises_bind; [apply raises_exists|]. intros [|]; [|apply raises_ret].
  apply raises_bind; [apply raises_move_to_quarantine|]. intros new_path.
  apply raises_bind; [|intros; apply raises_ret].
  repeat case_decide; (apply raises_print || apply raises_ret).
Qed.

Lemma confirm_block_fails (proceed : M unit) :
  raises_OSError proceed →
  fails_at_prompt_or_after
    (answer ← input;
     if decide (lower (strip answer) ≠ "y") then print MsgCancelled else proceed).
Proof.
  intros Hp w e. rewrite bind_run. unfold input.
  destruct (w_answer w) as [s|] eqn:Hanswer.
  - case_decide as Hs; [done|]. intros He. right. split.
    + by apply Hp in He.
    + exists s. split; [done|]. by destruct (decide (lower (strip s) = "y")).
  - cbn. intros [= <-]. by left.
Qed.

Section main_errors.
Context `{Hashlib} (home : Path).


End main_errors.

(** ** The analysis of each target *)

Section analyse.
Context `{Hashlib}.

(** X23. The analysis step of [main] in src/wechat-dedup/scripts/dedup.py
    never raises.  It runs [find_duplicates] on the files of each target
    separately and keeps, in the order of the scan, the targets that have
    a duplicate group: every group consists of files of one target, so
    equal files of two categories are not reported as duplicates. *)
Theorem scripts_analyse_spec (fs : FS) (scan_results : list (string * (list Path * string))) :
  ∃ all_duplicates,
    Scripts.analyse fs scan_results = Ok all_duplicates
    ∧ all_duplicates.*1 `sublist_of` scan_results.*1
    ∧ (∀ target_name duplicates description,
         (target_name, (duplicates, description)) ∈ all_duplicates →
         duplicates ≠ []
         ∧ ∃ files,
             (target_name, (files, description)) ∈ scan_results
             ∧ Scripts.find_duplicates fs files = Ok duplicates
             ∧ ∀ h g p, (h, g) ∈ duplicates → p ∈ g → p ∈ files)
    ∧ (∀ target_name files description duplicates,
         (target_name, (files, description)) ∈ scan_results →
         Scripts.find_duplicates fs files = Ok duplicates → duplicates ≠ [] →
         (target_name, (duplicates, description)) ∈ all_duplicates).
Proof.
  eexists. split; [apply scripts_analyse_pure|]. split_and!.
  - apply omap_sublist_fst. intros [n [files d]] y.
    destruct (filter _ (hash_groups fs files)); [done|]. by intros [= <-].
  - intros name dups description ([n [files d]] & Hin & Hsome)%list_elem_of_omap.
    destruct (filter _ (hash_groups fs files)) as [|d0 dups0] eqn:Hd; [done|].
    simplify_eq. split; [done|]. exists files.
    change (Scripts.find_duplicates fs files) with (Root.find_duplicates fs files).
    split_and!; [done|by rewrite find_duplicates_pure, Hd|].
    intros h g p Hg Hp. apply (duplicates_sublist fs files). rewrite Hd.
    apply elem_of_concat. exists g. split; [done|]. apply list_elem_of_fmap. by exists (h, g).
  - intros name files description dups Hin Hdup Hne.
    change (Scripts.find_duplicates fs files) with (Root.find_duplicates fs files) in Hdup.
    rewrite find_duplicates_pure in Hdup.
    apply list_elem_of_omap. exists (name, (files, description)). split; [done|].
    assert (filter (λ hf, 2 ≤ length hf.2)%nat (hash_groups fs files) = dups) as ->
      by congruence.
    by destruct dups.
Qed.

End analyse.

(** ** The move loop on an undisturbed plan *)

Lemma mkdirs_not_file (chain : list Path) fs p :
  is_file fs p = false →
  is_file (foldr (λ d fs, if exists_ fs d then fs else <[d := new_dir]> fs) fs chain) p
  = false.
Proof.
  intros Hp. induction chain as [|d chain IH]; cbn [foldr]; [done|].
  destruct (exists_ _ d); [done|]. unfold is_file.
  destruct (decide (p = d)) as [->|Hne].
  - by rewrite lookup_insert_eq.
  - by rewrite lookup_insert_ne.
Qed.

Lemma move_to_quarantine_moves w fp q f :
  w_fs w !! fp = Some (File f) → creatable (w_fs w) q →
  ∃ j w',
    Root.move_to_quarantine fp q w = (Ok (candidate fp q j), w')
    ∧ w_fs w' !! candidate fp q j = Some (File f)
    ∧ w_fs w' !! fp = None
    ∧ (∀ p e, p ≠ fp → w_fs w !! p = Some e → w_fs w' !! p = Some e)
    ∧ (∀ p, w_fs w !! p = None → p ≠ candidate fp q j → p ∉ parents q ++ [q] →
            w_fs w' !! p = None)
    ∧ creatable (w_fs w') q.
Proof.
  intros Hf Hok.
  destruct (free_target_total (w_fs w) fp q) as (j & Hrun & Hfree & Hbefore).
  exists j. unfold Root.move_to_quarantine, mbind, M_bind, reading, mret, M_ret.
  rewrite Hrun. unfold mkdir.
  destruct (mkdirs_spec (parents q ++ [q]) (w_fs w)) as (Hkeep & Hnew & Hfiles).
  pose proof (λ p, mkdirs_not_file (parents q ++ [q]) (w_fs w) p) as Hnf.
  set (fs' := foldr _ (w_fs w) (parents q ++ [q])) in *.
  apply exists_false in Hfree as Hfree'.
  rewrite bool_decide_eq_false_2.
  2: { intros (d & Hd & Hfile)%Exists_exists. unfold creatable in Hok.
       rewrite Forall_forall in Hok. rewrite (Hok d Hd) in Hfile. done. }
  unfold shutil_move. cbn [w_fs log set_fs].
  assert (fs' !! candidate fp q j = None) as Hdst
    by (apply Hnew; [done|apply candidate_not_in_chain]).
  rewrite (Hkeep _ _ Hf), Hdst.
  rewrite bool_decide_eq_false_2 by (by intros []). cbn [andb w_fs log set_fs].
  eexists. split_and!; [done|..]; cbn [w_fs log set_fs].
  - by rewrite lookup_insert_eq.
  - rewrite lookup_insert_ne, lookup_delete_eq; [done|]. congruence.
  - intros p e Hp He. rewrite lookup_insert_ne, lookup_delete_ne by congruence.
    by apply Hkeep.
  - intros p Hp Hne Hchain. rewrite lookup_insert_ne by done.
    destruct (decide (p = fp)) as [->|Hpf]; [by rewrite lookup_delete_eq|].
    rewrite lookup_delete_ne by done. by apply Hnew.
  - unfold creatable in *. apply Forall_forall. intros d Hd.
    rewrite Forall_forall in Hok. specialize (Hnf d (Hok d Hd)).
    unfold is_file in *. rewrite lookup_insert_ne.
    + destruct (decide (d = fp)) as [->|Hne]; [by rewrite lookup_delete_eq|].
      by rewrite lookup_delete_ne.
    + intros <-. by apply (candidate_not_in_chain fp q j).
Qed.

Lemma candidate_joinpath fp q k : ∃ n, candidate fp q k = joinpath q n.
Proof. destruct k; by eexists. Qed.

Section moves_all.
Context (q : Path) (fs0 : FS) (all : list removed_info).
Hypothesis Hnd : NoDup (original <$> all).
Hypothesis Hfiles : ∀ r, r ∈ all → is_file fs0 (original r) = true.
Hypothesis Hok : creatable fs0 q.
Hypothesis Hout : ∀ r n, r ∈ all → original r ≠ joinpath q n.

Lemma planned_source_file r : r ∈ all → ∃ f, fs0 !! original r = Some (File f).
Proof.
  intros Hr%Hfiles. unfold is_file in Hr. repeat case_match; try done. by eexists.
Qed.

Lemma planned_source_not_chain r : r ∈ all → original r ∉ parents q ++ [q].
Proof.
  intros Hr%Hfiles Hin. unfold creatable in Hok. rewrite Forall_forall in Hok.
  rewrite (Hok _ Hin) in Hr. done.
Qed.

Lemma move_progress_step done done' x todo w :
  move_progress q fs0 all done done' (x :: todo) (w_fs w) →
  exists_ (w_fs w) (original x) = true
  ∧ ∃ j w',
      Root.move_to_quarantine (original x) q w = (Ok (candidate (original x) q j), w')
      ∧ move_progress q fs0 all (done ++ [x])
          (done' ++ [{| original := original x;
                        quarantine := Some (candidate (original x) q j);
                        size := size x |}]) todo (w_fs w').
Proof.
  intros (Hall & Hcre & Htodo & Hdone).
  assert (x ∈ all) as Hx by (rewrite <- Hall; apply elem_of_app; right; left).
  destruct (planned_source_file x Hx) as [f Hf0].
  assert (w_fs w !! original x = Some (File f)) as Hf
    by (etrans; [apply Htodo; left|exact Hf0]).
  split; [apply exists_true; by eexists|].
  destruct (move_to_quarantine_moves w (original x) q f Hf Hcre)
    as (j & w' & Hrun & Hdst & Hsrc & Hkeep & Hfree & Hcre').
  exists j, w'. split; [done|]. split_and!.
  - by rewrite <- Hall, <- (assoc_L (++)).
  - done.
  - intros r Hr. assert (r ∈ all) as Hra.
    { rewrite <- Hall. apply elem_of_app. right. by right. }
    destruct (planned_source_file r Hra) as [f' Hf'].
    etrans; [|symmetry; exact Hf'].
    apply Hkeep; [|etrans; [apply Htodo; by right|exact Hf']].
    intros Heq. rewrite <- Hall, fmap_app, fmap_cons in Hnd.
    apply NoDup_app in Hnd as (_ & _ & Hnd'). apply NoDup_cons in Hnd' as [Hnotin _].
    apply Hnotin. rewrite <- Heq. by apply list_elem_of_fmap_2.
  - apply Forall2_app.
    + apply Forall2_same_length_lookup. split; [by eapply Forall2_length|].
      intros i r r' Hi Hi'.
      destruct (Forall2_lookup_lr _ _ _ _ _ _ Hdone Hi Hi') as (jr & -> & Hd & Hs).
      assert (r ∈ all) as Hra.
      { rewrite <- Hall. apply elem_of_app. left. by eapply list_elem_of_lookup_2. }
      destruct (planned_source_file r Hra) as [fr Hfr].
      exists jr. split_and!; [done| |].
      * etrans; [|symmetry; exact Hfr]. apply Hkeep; [|etrans; [exact Hd|exact Hfr]].
        destruct (candidate_joinpath (original r) q jr) as [n ->]. intros Heq.
        by apply (Hout x n).
      * apply Hfree; [done| |by apply planned_source_not_chain].
        destruct (candidate_joinpath (original x) q j) as [n ->]. by apply Hout.
    + constructor; [|constructor]. exists j. split_and!; [done| |done].
      etrans; [exact Hdst|symmetry; exact Hf0].
Qed.

End moves_all.

Section happy_path.
Context (home : Path) (fs0 : FS) (all : list removed_info).
Hypothesis Hnd : NoDup (original <$> all).
Hypothesis Hfiles : ∀ r, r ∈ all → is_file fs0 (original r) = true.

Lemma root_moves_inner (l : list removed_info) s done done' todo w :
  creatable fs0 (Root.QUARANTINE_DIR home) →
  (∀ r n, r ∈ all → original r ≠ joinpath (Root.QUARANTINE_DIR home) n) →
  move_progress (Root.QUARANTINE_DIR home) fs0 all done done' (l ++ todo) (w_fs w) →
  ∃ s' w',
    for_eachM l (Root.move_removed home) s w = (Ok (s ++ s'), w')
    ∧ move_progress (Root.QUARANTINE_DIR home) fs0 all (done ++ l) (done' ++ s') todo (w_fs w').
Proof.
  intros Hok Hout. revert s done done' w.
  induction l as [|x l IH]; intros s done done' w Hp; cbn [for_eachM].
  - exists [], w. by rewrite !app_nil_r.
  - destruct (move_progress_step _ fs0 all Hnd Hfiles Hok Hout done done' x (l ++ todo) w Hp)
      as (Hex & j & w1 & Hrun & Hp1).
    rewrite bind_run. unfold Root.move_removed at 1. rewrite bind_run. unfold reading.
    rewrite Hex, bind_run, Hrun. rewrite bind_run. unfold print at 1. cbn [mret M_ret].
    destruct (IH (s ++ [{| original := original x;
                           quarantine := Some (candidate (original x)
                                                 (Root.QUARANTINE_DIR home) j);
                           size := size x |}]) _ _
                (log (EvPrint (MsgMoved (name (original x)))) w1) Hp1)
      as (s' & w' & Hrest & Hp').
    eexists (_ :: s'), w'. split; [etrans; [exact Hrest|]; by rewrite <- (assoc_L (++))|].
    by rewrite (cons_middle x done l), (cons_middle _ done' s'), !(assoc_L (++)).
Qed.

Lemma scripts_moves_inner results (l : list removed_info) s n done done' todo w :
  creatable fs0 (Scripts.QUARANTINE_DIR home) →
  (∀ r k, r ∈ all → original r ≠ joinpath (Scripts.QUARANTINE_DIR home) k) →
  move_progress (Scripts.QUARANTINE_DIR home) fs0 all done done' (l ++ todo) (w_fs w) →
  ∃ s' w',
    for_eachM l (Scripts.move_removed home results) (s, n) w
    = (Ok (s ++ s', n + Z.of_nat (length l)), w')
    ∧ move_progress (Scripts.QUARANTINE_DIR home) fs0 all (done ++ l) (done' ++ s') todo
        (w_fs w').
Proof.
  intros Hok Hout. revert s n done done' w.
  induction l as [|x l IH]; intros s n done done' w Hp; cbn [for_eachM].
  - exists [], w. rewrite !app_nil_r. cbn. by rewrite Z.add_0_r.
  - destruct (move_progress_step _ fs0 all Hnd Hfiles Hok Hout done done' x (l ++ todo) w Hp)
      as (Hex & j & w1 & Hrun & Hp1).
    rewrite bind_run. unfold Scripts.move_removed at 1. rewrite bind_run. unfold reading.
    rewrite Hex, bind_run.
    change (Scripts.move_to_quarantine (original x) (Scripts.QUARANTINE_DIR home) w)
      with (Root.move_to_quarantine (original x) (Scripts.QUARANTINE_DIR home) w).
    rewrite Hrun, bind_run.
    assert (∃ w2, (if decide (n + 1 ≤ 20) then print (MsgMoved (name (original x)))
                   else if decide (n + 1 = 21)
                        then print (MsgElided (removed_count results - 20))
                        else mret ()) w1 = (Ok (), w2) ∧ w_fs w2 = w_fs w1)
      as (w2 & -> & Hfs) by (repeat case_decide; by eexists).
    cbn [mret M_ret]. rewrite <- Hfs in Hp1.
    destruct (IH (s ++ [{| original := original x;
                           quarantine := Some (candidate (original x)
                                                 (Scripts.QUARANTINE_DIR home) j);
                           size := size x |}]) (n + 1) _ _ _ Hp1) as (s' & w' & Hrest & Hp').
    eexists (_ :: s'), w'. split.
    + etrans; [exact Hrest|]. rewrite <- (assoc_L (++)). do 3 f_equal. cbn [length]. lia.
    + by rewrite (cons_middle x done l), (cons_middle _ done' s'), !(assoc_L (++)).
Qed.

End happy_path.

Section happy_path_loops.
Context (home : Path) (fs0 : FS) (all : list removed_info).
Hypothesis Hnd : NoDup (original <$> all).
Hypothesis Hfiles : ∀ r, r ∈ all → is_file fs0 (original r) = true.

Lemma root_moves_outer (gs : list group_info) sg done done' w :
  creatable fs0 (Root.QUARANTINE_DIR home) →
  (∀ r n, r ∈ all → original r ≠ joinpath (Root.QUARANTINE_DIR home) n) →
  move_progress (Root.QUARANTINE_DIR home) fs0 all done done'
    (concat (removed <$> gs)) (w_fs w) →
  ∃ gs' w',
    for_eachM gs (λ done group,
      removed' ← for_eachM (removed group) (Root.move_removed home) [];
      mret (done ++ [{| type := type group; keeper := keeper group;
                        removed := removed' |}])) sg w
    = (Ok (sg ++ gs'), w')
    ∧ Forall2 (λ g g', type g' = type g ∧ keeper g' = keeper g) gs gs'
    ∧ move_progress (Root.QUARANTINE_DIR home) fs0 all
        (done ++ concat (removed <$> gs)) (done' ++ concat (removed <$> gs')) [] (w_fs w').
Proof.
  intros Hok Hout. revert sg done done' w.
  induction gs as [|g gs IH]; intros sg done done' w Hp; cbn [for_eachM].
  - exists [], w. rewrite !app_nil_r. split_and!; [done|constructor|done].
  - cbn [fmap list_fmap concat] in Hp.
    destruct (root_moves_inner home fs0 all Hnd Hfiles (removed g) [] done done'
                (concat (removed <$> gs)) w Hok Hout Hp) as (s' & w1 & Hinner & Hp1).
    rewrite bind_run, bind_run, Hinner. cbn [mret M_ret app].
    destruct (IH (sg ++ [{| type := type g; keeper := keeper g; removed := s' |}])
                _ _ w1 Hp1) as (gs' & w' & Hrest & HF & Hp').
    eexists (_ :: gs'), w'. split_and!.
    + etrans; [exact Hrest|]. by rewrite <- (assoc_L (++)).
    + by constructor.
    + cbn [fmap list_fmap concat removed]. by rewrite !(assoc_L (++)).
Qed.

Lemma scripts_moves_outer results (gs : list group_info) sg n done done' w :
  creatable fs0 (Scripts.QUARANTINE_DIR home) →
  (∀ r k, r ∈ all → original r ≠ joinpath (Scripts.QUARANTINE_DIR home) k) →
  move_progress (Scripts.QUARANTINE_DIR home) fs0 all done done'
    (concat (removed <$> gs)) (w_fs w) →
  ∃ gs' w',
    for_eachM gs (λ '(done, moved_count) group,
      '(removed', moved_count) ←
        for_eachM (removed group) (Scripts.move_removed home results) ([], moved_count);
      mret (done ++ [{| type := type group; keeper := keeper group; removed := removed' |}],
            moved_count)) (sg, n) w
    = (Ok (sg ++ gs', n + Z.of_nat (length (concat (removed <$> gs)))), w')
    ∧ Forall2 (λ g g', type g' = type g ∧ keeper g' = keeper g) gs gs'
    ∧ move_progress (Scripts.QUARANTINE_DIR home) fs0 all
        (done ++ concat (removed <$> gs)) (done' ++ concat (removed <$> gs')) [] (w_fs w').
Proof.
  intros Hok Hout. revert sg n done done' w.
  induction gs as [|g gs IH]; intros sg n done done' w Hp; cbn [for_eachM].
  - exists [], w. rewrite !app_nil_r. cbn. rewrite Z.add_0_r.
    split_and!; [done|constructor|done].
  - cbn [fmap list_fmap concat] in Hp.
    destruct (scripts_moves_inner home fs0 all Hnd Hfiles results (removed g) [] n done done'
                (concat (removed <$> gs)) w Hok Hout Hp) as (s' & w1 & Hinner & Hp1).
    rewrite bind_run, bind_run, Hinner. cbn [mret M_ret app].
    destruct (IH (sg ++ [{| type := type g; keeper := keeper g; removed := s' |}])
                (n + Z.of_nat (length (removed g))) _ _ w1 Hp1)
      as (gs' & w' & Hrest & HF & Hp').
    eexists (_ :: gs'), w'. split_and!.
    + etrans; [exact Hrest|]. rewrite <- (assoc_L (++)). do 3 f_equal.
      cbn [fmap list_fmap concat]. rewrite length_app. lia.
    + by constructor.
    + cbn [fmap list_fmap concat removed]. by rewrite !(assoc_L (++)).
Qed.

End happy_path_loops.

Lemma move_progress_start q fs all : creatable fs q → move_progress q fs all [] [] all fs.
Proof. intros Hok. split_and!; [done|done|done|constructor]. Qed.

Section happy_path_theorems.
Context (home : Path).



End happy_path_theorems.

(** ** Examples for the further properties *)

Lemma root_plan_spec_witness :
  ∃ results,
    Root.plan trio_fs [("md5:xyz", ["/a"; "/b"])] = Ok results
    ∧ Forall2 (λ hf g, planned_group trio_fs None hf.2 g
                       ∧ keeper g :: (original <$> removed g) ≡ₚ hf.2
                       ∧ Forall (λ f, is_Some (trio_fs !! f)) hf.2)
        [("md5:xyz", ["/a"; "/b"])] (groups results)
    ∧ Forall (λ r, quarantine r = None ∧ size_of trio_fs (original r) = Some (size r))
        (planned_removals results)
    ∧ removed_count results = Z.of_nat (length (planned_removals results))
    ∧ saved_bytes results = total_size (planned_removals results).
Proof.
  eexists. split; [vm_compute; reflexivity|].
  apply (root_plan_spec trio_fs [("md5:xyz", ["/a"; "/b"])]). vm_compute. reflexivity.
Defined.

Lemma scripts_plan_spec_witness :
  ∃ results,
    Scripts.plan trio_fs [("file", ([("md5:xyz", ["/a"; "/b"])], "文档"))] = Ok results
    ∧ Forall2 (λ dg g, planned_group trio_fs (Some dg.1) dg.2 g)
        (all_groups [("file", ([("md5:xyz", ["/a"; "/b"])], "文档"))]) (groups results)
    ∧ Forall (λ r, quarantine r = None ∧ size_of trio_fs (original r) = Some (size r))
        (planned_removals results)
    ∧ removed_count results
      = expected_removals (all_groups [("file", ([("md5:xyz", ["/a"; "/b"])], "文档"))]).*2
    ∧ Z.of_nat (length (planned_removals results)) ≤ removed_count results
    ∧ saved_bytes results = total_size (planned_removals results).
Proof.
  eexists. split; [vm_compute; reflexivity|].
  apply (scripts_plan_spec trio_fs [("file", ([("md5:xyz", ["/a"; "/b"])], "文档"))]).
  vm_compute. reflexivity.
Defined.

(** The keeper of [vanishing_world] is still there after the run, although
    the other file of its group vanished before the moves. *)
Lemma root_main_keeps_keepers_witness :
  w_fs (@Root.main demo_md5 "/h" vanishing_world).2
    !! "/h/Library/Containers/com.tencent.xinWeChat/Data/Documents/xwechat_files/a.pdf"
  = Some (demo_file 3 (Some 1) 1 "xyz").
Proof.
  eapply (@root_main_keeps_keepers demo_md5 "/h" vanishing_world).
  - vm_compute. reflexivity.
  - vm_compute. reflexivity.
  - apply list_elem_of_here.
  - vm_compute. reflexivity.
  - vm_compute. reflexivity.
  - vm_compute. reflexivity.
Defined.

Lemma scripts_main_keeps_keepers_witness :
  w_fs (@Scripts.main demo_md5 "/h" vanishing_world_scripts).2
    !! "/h/Library/Containers/com.tencent.xinWeChat/Data/Documents/xwechat_files/u/msg/file/a.pdf"
  = Some (demo_file 20000 (Some 1) 1 "xyz").
Proof.
  eapply (@scripts_main_keeps_keepers demo_md5 "/h" vanishing_world_scripts).
  - vm_compute. reflexivity.
  - vm_compute. reflexivity.
  - apply list_elem_of_here.
  - apply list_elem_of_here.
  - vm_compute. reflexivity.
  - vm_compute. reflexivity.
  - vm_compute. reflexivity.
Defined.

Lemma root_report_lists_removals_witness :
  within ("**保留**：`" +:+ "/w/a.pdf" +:+ "`" +:+ nl)
    (report_at Root.generate_report morning small_run "/q")
  ∧ within ("- `" +:+ "/w/b.pdf" +:+ "` → `" +:+ "/q/b.pdf" +:+ "`" +:+ nl)
      (report_at Root.generate_report morning small_run "/q").
Proof.
  apply (root_report_lists_removals small_run "/q" morning
           {| type := Some "文档"; keeper := "/w/a.pdf";
              removed := [{| original := "/w/b.pdf"; quarantine := Some "/q/b.pdf";
                             size := 512 |}] |}
           {| original := "/w/b.pdf"; quarantine := Some "/q/b.pdf"; size := 512 |});
    apply list_elem_of_here.
Defined.

Lemma scripts_report_lists_removals_witness :
  within ("### " +:+ "文档" +:+ nl)
    (report_at Scripts.generate_report morning small_run "/q")
  ∧ within ("保留：`" +:+ "a.pdf" +:+ "`" +:+ nl)
      (report_at Scripts.generate_report morning small_run "/q")
  ∧ within ("- `" +:+ "b.pdf" +:+ "` (" +:+ "512 B" +:+ ")" +:+ nl)
      (report_at Scripts.generate_report morning small_run "/q").
Proof.
  apply (scripts_report_lists_removals small_run "/q" morning
           {| type := Some "文档"; keeper := "/w/a.pdf";
              removed := [{| original := "/w/b.pdf"; quarantine := Some "/q/b.pdf";
                             size := 512 |}] |}
           {| original := "/w/b.pdf"; quarantine := Some "/q/b.pdf"; size := 512 |});
    apply list_elem_of_here.
Defined.



(** A name that ends in a dot has no suffix; its numbered copy has one. *)
Example numbered_copy_of_trailing_dot :
  suffix "/w/a." = ""
  ∧ candidate "/w/a." "/q" 1 = "/q/a._1"
  ∧ suffix (candidate "/w/a." "/q" 1) = "._1".
Proof. vm_compute. done. Qed.
